(** * ssh-liberty-bridge: admission control, forwarding policy and banner mimicry

    A shallow embedding of [main.go].  Go strings are byte sequences and are
    modelled by [string] (a list of 8-bit [ascii]); Go integers are [Z] with
    their wrap-around written out where the code can reach it.  Calls into
    the external world (Redis, the network, the SSH substrate, goroutines)
    are nodes of a program tree [Prog] that is interpreted either against an
    arbitrary environment or against a concrete model of the Redis store. *)

From Stdlib Require Import ZArith Lia List Bool Ascii String.
From stdpp Require Import base option list gmap strings.
Import ListNotations.

Local Open Scope Z_scope.

(** ** Bytes and strings as Go sees them *)

Module GoString.

Definition byte_of (c : ascii) : Z := Z.of_N (N_of_ascii c).

Definition ascii_of (z : Z) : ascii := ascii_of_N (Z.to_N z).

(** [len(s)] *)
Definition len (s : string) : Z := Z.of_nat (String.length s).

(** [strings.ContainsRune(cutset, c)] for an ASCII cutset. *)
Fixpoint inCutset (cutset : string) (c : ascii) : bool :=
  match cutset with
  | EmptyString => false
  | String d rest => if Ascii.eqb c d then true else inCutset rest c
  end.

(** [strings.TrimLeft(s, cutset)] *)
Fixpoint TrimLeft (s cutset : string) : string :=
  match s with
  | EmptyString => EmptyString
  | String c rest => if inCutset cutset c then TrimLeft rest cutset else s
  end.

(** [strings.TrimRight(s, cutset)]: the recursion returns the trimmed
    tail, and drops the current byte when everything after it is gone. *)
Fixpoint TrimRight (s cutset : string) : string :=
  match s with
  | EmptyString => EmptyString
  | String c rest =>
      match TrimRight rest cutset with
      | EmptyString => if inCutset cutset c then EmptyString else String c EmptyString
      | t => String c t
      end
  end.

(** [strings.Trim(s, cutset)] *)
Definition Trim (s cutset : string) : string :=
  TrimRight (TrimLeft s cutset) cutset.

(** [strings.HasPrefix(s, prefix)] *)
Fixpoint HasPrefix (s prefix : string) : bool :=
  match prefix, s with
  | EmptyString, _ => true
  | String p prest, String c rest => if Ascii.eqb c p then HasPrefix rest prest else false
  | String _ _, EmptyString => false
  end.

(** [s[n:]] for [n <= len(s)] (Go panics beyond that; the callers below
    only slice after a successful [HasPrefix]). *)
Fixpoint sliceFrom (n : nat) (s : string) : string :=
  match n, s with
  | O, _ => s
  | S m, String _ rest => sliceFrom m rest
  | S _, EmptyString => EmptyString
  end.

(** [strings.IndexByte(s, c) >= 0] *)
Fixpoint containsByte (s : string) (c : ascii) : bool :=
  match s with
  | EmptyString => false
  | String d rest => if Ascii.eqb d c then true else containsByte rest c
  end.

Definition isDigit (c : ascii) : bool :=
  ((48 <=? byte_of c) && (byte_of c <=? 57))%Z.

End GoString.

(** ** [strconv]: decimal parsing and printing *)

Module strconv.
Import GoString.

Definition maxUint64 : Z := 2 ^ 64 - 1.

(** The digit loop of [strconv.ParseUint(s, 10, bitSize)].  [None] is any
    error ([ErrSyntax] or [ErrRange]); the callers in [main.go] only test
    [err != nil].  The 64-bit accumulator wraps as in Go. *)
Fixpoint parseUintLoop (maxVal : Z) (s : string) (n : Z) : option Z :=
  match s with
  | EmptyString => Some n
  | String c rest =>
      if isDigit c then
        let d := byte_of c - 48 in
        if maxUint64 / 10 + 1 <=? n then None
        else
          let n10 := (n * 10) mod 2 ^ 64 in
          let n1 := (n10 + d) mod 2 ^ 64 in
          if (n1 <? n10) || (maxVal <? n1) then None
          else parseUintLoop maxVal rest n1
      else None
  end.

(** [strconv.ParseUint(s, 10, bitSize)] *)
Definition ParseUint (s : string) (bitSize : Z) : option Z :=
  match s with
  | EmptyString => None
  | _ => parseUintLoop (2 ^ bitSize - 1) s 0
  end.

(** [strconv.ParseInt(s, 10, bitSize)] *)
Definition ParseInt (s : string) (bitSize : Z) : option Z :=
  match s with
  | EmptyString => None
  | String c rest =>
      let '(neg, body) :=
        if Ascii.eqb c "+" then (false, rest)
        else if Ascii.eqb c "-" then (true, rest)
        else (false, s) in
      match ParseUint body bitSize with
      | None => None
      | Some un =>
          let cutoff := 2 ^ (bitSize - 1) in
          if negb neg && (cutoff <=? un) then None
          else if neg && (cutoff <? un) then None
          else Some (if neg then - un else un)
      end
  end.

(** The loop of [formatBits] for base 10: least significant digit first,
    pushed in front of what is already there.  Twenty rounds cover every
    64-bit value. *)
Fixpoint formatBits (fuel : nat) (u : Z) (acc : string) : string :=
  match fuel with
  | O => acc
  | S f =>
      let acc' := String (ascii_of (48 + u mod 10)) acc in
      if u <? 10 then acc' else formatBits f (u / 10) acc'
  end.

(** [strconv.FormatInt(i, 10)] *)
Definition FormatInt (i : Z) : string :=
  if i <? 0 then String "-" (formatBits 20 (- i) EmptyString)
  else formatBits 20 i EmptyString.

End strconv.

(** ** [net]: IP literals and their classification

    [net.ParseIP] and the [IP] predicates belong to the Go standard library,
    not to this repository; they are transcribed here so that [isLocalIP]
    can be evaluated.  An [IP] is the 16-byte form [net.ParseIP] returns. *)

Module net.
Import GoString.

Definition IP := list Z.

Definition dot : ascii := ".".
Definition colon : ascii := ":".
Definition percent : ascii := "%".

Definition isEmpty (s : string) : bool :=
  match s with EmptyString => true | _ => false end.

(** The loop of [netip.parseIPv4Fields] over [in[off:end]].  [first] is
    [i == 0], [prevDot] is [s[i-1] == '.'], and [i == len(s)-1] is an
    empty remainder. *)
Fixpoint parseIPv4FieldsLoop (s : string) (first prevDot : bool)
    (val : Z) (pos : nat) (digLen : Z) (fields : list Z) : option (list Z) :=
  match s with
  | EmptyString => if (pos <? 3)%nat then None else Some (fields ++ [val])
  | String c rest =>
      if isDigit c then
        if (digLen =? 1) && (val =? 0) then None
        else
          let val' := val * 10 + (byte_of c - 48) in
          if 255 <? val' then None
          else parseIPv4FieldsLoop rest false false val' pos (digLen + 1) fields
      else if Ascii.eqb c dot then
        if first || isEmpty rest || prevDot then None
        else if (pos =? 3)%nat then None
        else parseIPv4FieldsLoop rest false true 0 (S pos) 0 (fields ++ [val])
      else None
  end.

Definition parseIPv4Fields (s : string) : option (list Z) :=
  parseIPv4FieldsLoop s true false 0 0%nat 0 [].

(** [netip.AddrFrom4(fields).As16()]: the IPv4-mapped IPv6 form. *)
Definition v4InV6 (fields : list Z) : IP :=
  [0; 0; 0; 0; 0; 0; 0; 0; 0; 0; 255; 255] ++ fields.

Definition parseIPv4 (s : string) : option IP :=
  match parseIPv4Fields s with
  | Some fields => Some (v4InV6 fields)
  | None => None
  end.

Definition hexVal (c : ascii) : option Z :=
  let b := byte_of c in
  if (48 <=? b) && (b <=? 57) then Some (b - 48)
  else if (97 <=? b) && (b <=? 102) then Some (b - 97 + 10)
  else if (65 <=? b) && (b <=? 70) then Some (b - 65 + 10)
  else None.

(** The inner loop of [netip.parseIPv6] reading one hex group: returns
    [off], the 32-bit accumulator and [s[off:]]. *)
Fixpoint hexRun (s : string) (off acc : Z) : option (Z * Z * string) :=
  match s with
  | EmptyString => Some (off, acc, s)
  | String c rest =>
      match hexVal c with
      | Some d =>
          let acc' := (Z.shiftl acc 4 + d) mod 2 ^ 32 in
          if 3 <? off then None
          else if 65535 <? acc' then None
          else hexRun rest (off + 1) acc'
      | None => Some (off, acc, s)
      end
  end.

(** [ip[i] = b] on the 16-byte array. *)
Definition setByte (ip : IP) (i b : Z) : IP := <[Z.to_nat i := b]> ip.

(** [ip[i:i+4] = fields] *)
Definition setBytes4 (ip : IP) (i : Z) (fields : list Z) : IP :=
  setByte (setByte (setByte (setByte ip i (nth 0 fields 0))
    (i + 1) (nth 1 fields 0)) (i + 2) (nth 2 fields 0)) (i + 3) (nth 3 fields 0).

(** The main loop of [netip.parseIPv6], [for i < 16].  Every round adds at
    least two to [i], so eight rounds are enough.  The result is what is
    left of the string, [i], the array and the ellipsis position. *)
Fixpoint parseIPv6Loop (fuel : nat) (s : string) (i : Z) (ip : IP) (ellipsis : Z)
    : option (string * Z * IP * Z) :=
  match fuel with
  | O => Some (s, i, ip, ellipsis)
  | S fuel' =>
      if 16 <=? i then Some (s, i, ip, ellipsis)
      else
        match hexRun s 0 0 with
        | None => None
        | Some (off, acc, rest) =>
            if off =? 0 then None
            else if HasPrefix rest "." then
              if (ellipsis <? 0) && negb (i =? 12) then None
              else if 16 <? i + 4 then None
              else
                match parseIPv4Fields s with
                | None => None
                | Some fields => Some (EmptyString, i + 4, setBytes4 ip i fields, ellipsis)
                end
            else
              let ip := setByte (setByte ip i (Z.shiftr acc 8 mod 256)) (i + 1) (acc mod 256) in
              let i := i + 2 in
              match rest with
              | EmptyString => Some (rest, i, ip, ellipsis)
              | String c rest1 =>
                  if negb (Ascii.eqb c colon) then None
                  else
                    match rest1 with
                    | EmptyString => None
                    | String c1 rest2 =>
                        if Ascii.eqb c1 colon then
                          if 0 <=? ellipsis then None
                          else
                            match rest2 with
                            | EmptyString => Some (rest2, i, ip, i)
                            | _ => parseIPv6Loop fuel' rest2 i ip i
                            end
                        else parseIPv6Loop fuel' rest1 i ip ellipsis
                    end
              end
        end
  end.

(** [for j := i - 1; j >= ellipsis; j-- { ip[j+n] = ip[j] }], [count]
    elements starting at [j]. *)
Fixpoint shiftUp (count : nat) (j n : Z) (ip : IP) : IP :=
  match count with
  | O => ip
  | S c => shiftUp c (j - 1) n (setByte ip (j + n) (nth (Z.to_nat j) ip 0))
  end.

(** [clear(ip[from : from+n])] *)
Fixpoint clearRange (count : nat) (from : Z) (ip : IP) : IP :=
  match count with
  | O => ip
  | S c => clearRange c (from + 1) (setByte ip from 0)
  end.

(** Split at the first ['%']: the address and, when there is one, the zone. *)
Fixpoint splitZone (s : string) : string * option string :=
  match s with
  | EmptyString => (EmptyString, None)
  | String c rest =>
      if Ascii.eqb c percent then (EmptyString, Some rest)
      else let '(a, z) := splitZone rest in (String c a, z)
  end.

Definition zeros16 : IP := repeat 0 16.

(** [netip.parseIPv6]: the address bytes and the zone. *)
Definition parseIPv6 (input : string) : option (IP * string) :=
  let '(s, z) := splitZone input in
  match z with
  | Some EmptyString => None
  | _ =>
      let zone := default EmptyString z in
      let '(s, ellipsis, onlyEllipsis) :=
        if HasPrefix s "::" then (sliceFrom 2 s, 0, isEmpty (sliceFrom 2 s))
        else (s, -1, false) in
      if onlyEllipsis then Some (zeros16, zone)
      else
        match parseIPv6Loop 8 s 0 zeros16 ellipsis with
        | None => None
        | Some (s, i, ip, ellipsis) =>
            if negb (isEmpty s) then None
            else if i <? 16 then
              if ellipsis <? 0 then None
              else
                let n := 16 - i in
                let ip := shiftUp (Z.to_nat (i - ellipsis)) (i - 1) n ip in
                Some (clearRange (Z.to_nat n) ellipsis ip, zone)
            else if 0 <=? ellipsis then None
            else Some (ip, zone)
        end
  end.

(** The dispatch of [netip.ParseAddr] on the first of ['.'], [':'], ['%']. *)
Fixpoint parseAddrScan (whole s : string) : option (IP * string) :=
  match s with
  | EmptyString => None
  | String c rest =>
      if Ascii.eqb c dot then
        match parseIPv4 whole with Some ip => Some (ip, EmptyString) | None => None end
      else if Ascii.eqb c colon then parseIPv6 whole
      else if Ascii.eqb c percent then None
      else parseAddrScan whole rest
  end.

(** [net.ParseIP(s)]: [None] is Go's [nil].  An address with a zone is
    refused. *)
Definition ParseIP (s : string) : option IP :=
  match parseAddrScan s s with
  | Some (ip, EmptyString) => Some ip
  | _ => None
  end.

(** [ip.To4()] on a 16-byte address. *)
Definition To4 (ip : IP) : option (list Z) :=
  if forallb (Z.eqb 0) (firstn 10 ip) && (nth 10 ip 0 =? 255) && (nth 11 ip 0 =? 255)
  then Some (skipn 12 ip) else None.

Definition IPv6loopback : IP := [0; 0; 0; 0; 0; 0; 0; 0; 0; 0; 0; 0; 0; 0; 0; 1].

Definition bytesEqual (a b : list Z) : bool :=
  (length a =? length b)%nat && forallb (fun p => fst p =? snd p) (combine a b).

Definition IsLoopback (ip : IP) : bool :=
  match To4 ip with
  | Some ip4 => nth 0 ip4 0 =? 127
  | None => bytesEqual ip IPv6loopback
  end.

Definition IsLinkLocalMulticast (ip : IP) : bool :=
  match To4 ip with
  | Some ip4 => (nth 0 ip4 0 =? 224) && (nth 1 ip4 0 =? 0) && (nth 2 ip4 0 =? 0)
  | None => (length ip =? 16)%nat && (nth 0 ip 0 =? 255) && (Z.land (nth 1 ip 0) 15 =? 2)
  end.

Definition IsLinkLocalUnicast (ip : IP) : bool :=
  match To4 ip with
  | Some ip4 => (nth 0 ip4 0 =? 169) && (nth 1 ip4 0 =? 254)
  | None => (length ip =? 16)%nat && (nth 0 ip 0 =? 254) && (Z.land (nth 1 ip 0) 192 =? 128)
  end.

Definition IsPrivate (ip : IP) : bool :=
  match To4 ip with
  | Some ip4 =>
      (nth 0 ip4 0 =? 10)
      || ((nth 0 ip4 0 =? 172) && (Z.land (nth 1 ip4 0) 240 =? 16))
      || ((nth 0 ip4 0 =? 192) && (nth 1 ip4 0 =? 168))
  | None => (length ip =? 16)%nat && (Z.land (nth 0 ip 0) 254 =? 252)
  end.

(** [net.JoinHostPort(host, port)] *)
Definition JoinHostPort (host port : string) : string :=
  if containsByte host colon then "[" +:+ host +:+ "]:" +:+ port
  else host +:+ ":" +:+ port.

End net.

(** ** The pure functions of [main.go] *)

(** [isLocalIP] (main.go:48-54) *)
Definition isLocalIP (dhost : string) : bool :=
  match net.ParseIP dhost with
  | None => false
  | Some ip =>
      net.IsLoopback ip || net.IsLinkLocalMulticast ip
      || net.IsLinkLocalUnicast ip || net.IsPrivate ip
  end.

(** [containsNumber] (main.go:201-208) *)
Fixpoint containsNumber (list : list Z) (number : Z) : bool :=
  match list with
  | [] => false
  | v :: rest => if v =? number then true else containsNumber rest number
  end.

(** The closure installed as [LocalPortForwardingCallback] (main.go:277-284);
    [whitelistPorts] is the captured variable. *)
Definition LocalPortForwardingCallback (whitelistPorts : list Z)
    (dhost : string) (dport : Z) : bool :=
  if negb (isLocalIP dhost) then true
  else if containsNumber whitelistPorts dport then true
  else false.

(** ** Calls into the outside world

    Everything [main.go] asks of Redis, the network, the SSH library and the
    Go runtime is an operation [op]; [resp o] is the type of what comes back.
    Go's [(value, error)] pairs are kept as pairs: on an error the value is
    still there (its zero value in practice) and the code may read it. *)

Inductive error : Type :=
| RedisNil                      (* redis.Nil: the key or field does not exist *)
| ErrOther (msg : string).

Definition errorText (e : error) : string :=
  match e with
  | RedisNil => "redis: nil"
  | ErrOther msg => msg
  end.

Definition isErr (e : option error) : bool :=
  match e with Some _ => true | None => false end.

(** [<-chan struct{}] values are told apart by a number. *)
Definition chan := nat.

(** The two ends of a tunnel: the accepted SSH channel [ch] and the dialed
    connection [dconn]. *)
Inductive endpoint : Type :=
| Channel (id : nat)
| Conn (id : nat).

Inductive mutex : Type :=
| userConnectionCountMutex
| versionStringMutex.

(** [gossh.RejectionReason] *)
Inductive RejectionReason : Type :=
| Prohibited
| ConnectionFailed.

(** [localForwardChannelData] (main.go:27-33) *)
Record localForwardChannelData : Type := {
  DestAddr : string;
  DestPort : Z;
  OriginAddr : string;
  OriginPort : Z
}.

(** The goroutines [main.go] starts, closure-converted: each constructor
    carries the variables its [go func()] captures. *)
Inductive task : Type :=
| DecrementOnDone (doneCh : chan) (userId : string)      (* main.go:322-326 *)
| DiscardRequests                                        (* main.go:109 *)
| Relay (dst src : endpoint) (ch dconn : endpoint) (userID : string).  (* main.go:111-124 *)

Inductive op : Type :=
(* go-redis *)
| SIsMember (key member : string)
| HGet (key field : string)
| HIncrBy (key field : string) (incr : Z)
(* sync.Mutex and goroutines *)
| Lock (m : mutex)
| Unlock (m : mutex)
| Go (t : task)
| RecvDone (doneCh : chan)
(* the channel-open request *)
| UnmarshalExtraData
| Reject (reason : RejectionReason) (message : string)
| Accept
| DrainRequests
(* net and proxy *)
| ResolveIPAddr (network address : string)
| SOCKS5 (network address : string)
| ProxyDial (network address : string)
| DialContext (network address : string)
| NetDial (network address : string)
| Read (c : endpoint)
| IoCopy (dst src : endpoint)
| Close (c : endpoint)
| Sleep.

Definition resp (o : op) : Type :=
  match o with
  | SIsMember _ _ => bool * option error
  | HGet _ _ => string * option error
  | HIncrBy _ _ _ => Z * option error
  | Lock _ | Unlock _ | Go _ | RecvDone _ => unit
  | UnmarshalExtraData => localForwardChannelData * option error
  | Reject _ _ => unit
  | Accept => endpoint * option error
  | DrainRequests => unit
  (* [ipAddr.String()] of the resolved address, and the error *)
  | ResolveIPAddr _ _ => string * option error
  | SOCKS5 _ _ => option error
  | ProxyDial _ _ | DialContext _ _ | NetDial _ _ => endpoint * option error
  (* the bytes a [Read] put into the buffer, in order, and the error *)
  | Read _ => string * option error
  (* [written] and the error *)
  | IoCopy _ _ => Z * option error
  | Close _ => unit
  | Sleep => unit
  end.

(** A program is a tree of operations, each continued by its response. *)
Inductive Prog (A : Type) : Type :=
| Ret (a : A)
| Vis (o : op) (k : resp o -> Prog A).
Arguments Ret {A} a.
Arguments Vis {A} o k.

Fixpoint bind {A B : Type} (p : Prog A) (f : A -> Prog B) : Prog B :=
  match p with
  | Ret a => f a
  | Vis o k => Vis o (fun r => bind (k r) f)
  end.

#[global] Instance Prog_ret : MRet Prog := fun A a => Ret a.
#[global] Instance Prog_bind : MBind Prog := fun A B f p => bind p f.

Definition call (o : op) : Prog (resp o) := Vis o Ret.

(** [defer d] at the top of a body: [d] runs after the body has produced
    its return value. *)
Definition withDefer {A : Type} (d : Prog unit) (body : Prog A) : Prog A :=
  a ← body; _ ← d; Ret a.

(** What an observer sees of one operation. *)
Record event : Type := Ev { ev_op : op; ev_resp : resp ev_op }.

(** An environment answers every operation from its state. *)
Record Env (S : Type) : Type := { respond : forall o : op, S -> resp o * S }.
Arguments respond {S} e o s.

(** Run a program to its end in an environment: the value returned, the
    operations performed with their responses, and the final state.  A
    goroutine started with [Go] is only recorded here; [runTask] runs one. *)
Fixpoint run {S A : Type} (env : Env S) (p : Prog A) (s : S) : A * list event * S :=
  match p with
  | Ret a => (a, [], s)
  | Vis o k =>
      let '(r, s1) := respond env o s in
      let '(a, tr, s2) := run env (k r) s1 in
      (a, Ev o r :: tr, s2)
  end.

(** The value a run returns, and the events it leaves behind. *)
Definition result {S A : Type} (env : Env S) (p : Prog A) (s : S) : A :=
  fst (fst (run env p s)).

Definition trace {S A : Type} (env : Env S) (p : Prog A) (s : S) : list event :=
  snd (fst (run env p s)).

Definition final {S A : Type} (env : Env S) (p : Prog A) (s : S) : S :=
  snd (run env p s).

Definition isDial (o : op) : bool :=
  match o with
  | SOCKS5 _ _ | ProxyDial _ _ | DialContext _ _ => true
  | _ => false
  end.

Definition isHIncrBy (o : op) : bool :=
  match o with
  | HIncrBy _ _ _ => true
  | _ => false
  end.

(** ** The transport substrate's objects, as far as [main.go] reads them *)

Module ssh.

(** [ssh.Context]: [ctx.User()] and [ctx.Done()] ([None] is a nil
    channel). *)
Record Context : Type := { User : string; Done : option chan }.

(** [ssh.PublicKey], known through [gossh.MarshalAuthorizedKey(key)]. *)
Record PublicKey : Type := { MarshalAuthorizedKey : string }.

(** The fields of [ssh.Server] the channel handler reads. *)
Record Server : Type := {
  LocalPortForwardingCallback : option (string -> Z -> bool)
}.

End ssh.

(** ** The stateful code of [main.go] *)

Definition nl : ascii := "010".
Definition tab : ascii := "009".
Definition cr : ascii := "013".

(** The cutset ["\n\t\r"] of both [strings.Trim] calls. *)
Definition cutset : string := String nl (String tab (String cr EmptyString)).

Definition connections : string := "ssh-server:connections".
Definition users : string := "ssh-server:users".
Definition usersUsage : string := "ssh-server:users-usage".

(** The bodies of the goroutines. Deferred calls run last, latest first. *)
Definition taskBody (t : task) : Prog unit :=
  match t with
  | DecrementOnDone doneCh userId =>
      _ ← call (RecvDone doneCh);
      _ ← call (HIncrBy connections userId (-1));
      Ret tt
  | DiscardRequests =>
      call DrainRequests
  | Relay dst src ch dconn userID =>
      withDefer (_ ← call (Close dconn); call (Close ch))
        ('(result, _) ← call (IoCopy dst src);
         _ ← call (HIncrBy usersUsage userID result);
         Ret tt)
  end.

(** The handler returned by [directTCPIPClosure] (main.go:56-126).
    [SocksProxyAddr] is the package variable. *)
Definition directTCPIPClosure (SocksProxyAddr : string)
    (srv : ssh.Server) (ctx : ssh.Context) : Prog unit :=
  '(d, err) ← call UnmarshalExtraData;
  match err with
  | Some e => call (Reject ConnectionFailed ("error parsing forward data: " +:+ errorText e))
  | None =>
      '(ipAddr4, err4) ← call (ResolveIPAddr "ip4" (DestAddr d));
      resolved ← (if isErr err4 then call (ResolveIPAddr "ip6" (DestAddr d))
                  else Ret (ipAddr4, err4));
      let '(dest, err) := resolved in
      if isErr err then
        call (Reject Prohibited ("cannot resolve the said address: " +:+ DestAddr d))
      else if match ssh.LocalPortForwardingCallback srv with
              | None => true
              | Some callback => negb (callback dest (DestPort d))
              end then
        call (Reject Prohibited "illegal address")
      else
        let dest := net.JoinHostPort dest (strconv.FormatInt (DestPort d)) in
        dialed ← (if negb (GoString.len SocksProxyAddr =? 0) && negb (isLocalIP dest) then
                    err ← call (SOCKS5 "tcp" SocksProxyAddr);
                    match err with
                    | Some e => Ret (inl e)
                    | None =>
                        '(dconn, err) ← call (ProxyDial "tcp" dest);
                        match err with
                        | Some e => Ret (inl e)
                        | None => Ret (inr dconn)
                        end
                    end
                  else
                    '(dconn, err) ← call (DialContext "tcp" dest);
                    match err with
                    | Some e => Ret (inl e)
                    | None => Ret (inr dconn)
                    end);
        match dialed with
        | inl e => call (Reject ConnectionFailed (errorText e))
        | inr dconn =>
            '(ch, err) ← call Accept;
            if isErr err then call (Close dconn)
            else
              _ ← call (Go DiscardRequests);
              _ ← call (Go (Relay ch dconn ch dconn (ssh.User ctx)));
              call (Go (Relay dconn ch ch dconn (ssh.User ctx)))
        end
  end.

(** The closure installed as [PublicKeyHandler] (main.go:289-329);
    [maxConns] is the captured variable. *)
Definition PublicKeyHandler (maxConns : Z)
    (ctx : ssh.Context) (key : ssh.PublicKey) : Prog bool :=
  if negb (GoString.len (ssh.User ctx) =? 36) then Ret false
  else
    let userId := ssh.User ctx in
    let userString := userId +:+ "::" +:+ ssh.MarshalAuthorizedKey key in
    let userString := GoString.Trim userString cutset in
    '(res, err) ← call (SIsMember users userString);
    match isErr err || negb res, ssh.Done ctx with
    | false, Some doneCh =>
        _ ← call (Lock userConnectionCountMutex);
        withDefer (call (Unlock userConnectionCountMutex))
          ('(connCntStr, _) ← call (HGet connections userId);
           if match strconv.ParseInt connCntStr 32 with
              | Some connCnt => maxConns <=? connCnt
              | None => false
              end then Ret false
           else
             '(_, err) ← call (HIncrBy connections userId 1);
             if isErr err then Ret false
             else
               _ ← call (Go (DecrementOnDone doneCh userId));
               Ret true)
    | _, _ => Ret false
    end.

(** The server value built in [main] (main.go:276-333), policy part. *)
Definition server (whitelistPorts : list Z) : ssh.Server :=
  {| ssh.LocalPortForwardingCallback := Some (LocalPortForwardingCallback whitelistPorts) |}.

(** *** The version-copying goroutine (main.go:335-380) *)

Definition zero : ascii := "000".

(** [make([]byte, 256)] *)
Definition freshBuf : string := string_of_list_ascii (repeat zero 256).

(** What [conn.Read(buf)] does to [buf] when the peer delivers [data]: the
    first [n] bytes are overwritten, [n] being at most [len(buf)]; the rest
    of the buffer keeps what it held. *)
Definition readInto (buf data : string) : Z * string :=
  let n := Nat.min (String.length data) (String.length buf) in
  (Z.of_nat n,
   String.substring 0 n data +:+ String.substring n (String.length buf - n) buf).

(** [for _, c := range buf { if c == 0 { break }; resBuf = append(resBuf, c) }] *)
Fixpoint untilNull (buf : string) : string :=
  match buf with
  | EmptyString => EmptyString
  | String c rest => if Ascii.eqb c zero then EmptyString else String c (untilNull rest)
  end.

(** One round of the [for] loop.  The state carried from round to round is
    [buf], allocated once before the loop, and [server.Version]. *)
Definition copyVersionRound (copyVersionString : string)
    (st : string * string) : Prog (string * string) :=
  let '(buf, Version) := st in
  '(conn, err) ← call (NetDial "tcp" copyVersionString);
  if isErr err then
    _ ← call Sleep; Ret (buf, Version)
  else
    '(data, err) ← call (Read conn);
    let '(n, buf) := readInto buf data in
    if isErr err || (n =? GoString.len buf) then
      _ ← call Sleep; _ ← call (Close conn); Ret (buf, Version)
    else
      _ ← call (Close conn);
      let result := untilNull buf in
      let result := GoString.Trim result cutset in
      if negb (GoString.HasPrefix result "SSH-2.0-") then
        _ ← call Sleep; Ret (buf, Version)
      else
        let result := GoString.sliceFrom 8 result in
        _ ← call (Lock versionStringMutex);
        _ ← call (Unlock versionStringMutex);
        _ ← call Sleep;
        Ret (buf, result).

Fixpoint copyVersionLoop (rounds : nat) (copyVersionString : string)
    (st : string * string) : Prog (string * string) :=
  match rounds with
  | O => Ret st
  | S n => st' ← copyVersionRound copyVersionString st; copyVersionLoop n copyVersionString st'
  end.

(** The goroutine, cut after [rounds] rounds of its endless loop; the value
    is [server.Version] at that point. *)
Definition copyVersion (shouldCopyVersionString : bool) (copyVersionString : string)
    (rounds : nat) (Version : string) : Prog string :=
  if negb shouldCopyVersionString then Ret Version
  else st ← copyVersionLoop rounds copyVersionString (freshBuf, Version); Ret (snd st).

(** ** A model of the Redis server

    Sets of strings and hashes of string fields.  [HINCRBY] reads a missing
    field as 0, refuses a field that is not a canonical 64-bit decimal and
    refuses to overflow; it stores the new value in decimal. *)

Module Redis.

Record state : Type := {
  sets : gmap string (gset string);
  hashes : gmap string (gmap string string)
}.

Definition hfield (st : state) (key field : string) : option string :=
  hashes st !! key ≫= (fun h => h !! field).

Definition hset (st : state) (key field value : string) : state :=
  {| sets := sets st;
     hashes := <[key := <[field := value]> (default ∅ (hashes st !! key))]> (hashes st) |}.

(** Redis' [string2ll]: only the canonical decimal form of a 64-bit
    integer is a number. *)
Definition string2ll (s : string) : option Z :=
  match strconv.ParseInt s 64 with
  | Some z => if String.eqb (strconv.FormatInt z) s then Some z else None
  | None => None
  end.

Definition sismember (st : state) (key member : string) : bool :=
  bool_decide (member ∈ default ∅ (sets st !! key)).

Definition hget (st : state) (key field : string) : string * option error :=
  match hfield st key field with
  | Some v => (v, None)
  | None => (EmptyString, Some RedisNil)
  end.

Definition hincrby (st : state) (key field : string) (incr : Z)
    : (Z * option error) * state :=
  match match hfield st key field with
        | None => Some 0
        | Some v => string2ll v
        end with
  | None => ((0, Some (ErrOther "ERR hash value is not an integer")), st)
  | Some cur =>
      let new := cur + incr in
      if (new <? - 2 ^ 63) || (2 ^ 63 - 1 <? new) then
        ((0, Some (ErrOther "ERR increment or decrement would overflow")), st)
      else ((new, None), hset st key field (strconv.FormatInt new))
  end.

(** The integer a hash field stands for: 0 when it is missing. *)
Definition counter (st : state) (key field : string) : option Z :=
  match hfield st key field with
  | None => Some 0
  | Some v => string2ll v
  end.

End Redis.

(** A reachable store answers the three store calls; every other operation
    is passed to [outside]. *)
Definition storeEnv {S : Type} (outside : Env S) : Env (Redis.state * S) :=
  {| respond := fun o =>
       match o return Redis.state * S -> resp o * (Redis.state * S) with
       | SIsMember key member => fun '(st, s) => ((Redis.sismember st key member, None), (st, s))
       | HGet key field => fun '(st, s) => (Redis.hget st key field, (st, s))
       | HIncrBy key field incr => fun '(st, s) =>
           let '(r, st') := Redis.hincrby st key field incr in (r, (st', s))
       | o' => fun '(st, s) => let '(r, s') := respond outside o' s in (r, (st, s'))
       end |}.

(** A network with fixed answers, for running the code on examples. *)
Record Script : Type := {
  payload : localForwardChannelData * option error;
  resolve : string -> string -> string * option error;
  socks5 : option error;
  proxyDial : string -> endpoint * option error;
  dial : string -> endpoint * option error;
  accept : endpoint * option error;
  received : string * option error;
  copied : endpoint -> endpoint -> Z * option error
}.

Definition scriptEnv (n : Script) : Env unit :=
  {| respond := fun o =>
       match o return unit -> resp o * unit with
       | SIsMember _ _ => fun s => ((false, Some (ErrOther "no store")), s)
       | HGet _ _ => fun s => ((EmptyString, Some (ErrOther "no store")), s)
       | HIncrBy _ _ _ => fun s => ((0, Some (ErrOther "no store")), s)
       | Lock _ | Unlock _ | Go _ | RecvDone _ => fun s => (tt, s)
       | UnmarshalExtraData => fun s => (payload n, s)
       | Reject _ _ => fun s => (tt, s)
       | Accept => fun s => (accept n, s)
       | DrainRequests => fun s => (tt, s)
       | ResolveIPAddr network address => fun s => (resolve n network address, s)
       | SOCKS5 _ _ => fun s => (socks5 n, s)
       | ProxyDial _ address => fun s => (proxyDial n address, s)
       | DialContext _ address | NetDial _ address => fun s => (dial n address, s)
       | Read _ => fun s => (received n, s)
       | IoCopy dst src => fun s => (copied n dst src, s)
       | Close _ => fun s => (tt, s)
       | Sleep => fun s => (tt, s)
       end |}.

(** ** Goroutines running together

    The threads of interest are calls of [PublicKeyHandler], one per
    incoming connection, and the goroutines they start.  A step runs the
    first operation of one thread.  [Lock] waits for the mutex, [RecvDone]
    waits for its channel to be closed, [Go] adds a goroutine; every other
    operation is answered at once by the environment, which makes each
    store call atomic. *)

Inductive tid : Type :=
| Handler (i : nat)
| Goroutine (j : nat).

Record Sys (S : Type) : Type := {
  handlers : list (Prog bool);
  goroutines : list (Prog unit);
  held : list mutex;
  closed : list chan;
  world : S
}.
Arguments handlers {S} _.
Arguments goroutines {S} _.
Arguments held {S} _.
Arguments closed {S} _.
Arguments world {S} _.

Definition mutex_eqb (a b : mutex) : bool :=
  match a, b with
  | userConnectionCountMutex, userConnectionCountMutex => true
  | versionStringMutex, versionStringMutex => true
  | _, _ => false
  end.

Definition isHeld (m : mutex) (l : list mutex) : bool := existsb (mutex_eqb m) l.

Definition release (m : mutex) (l : list mutex) : list mutex :=
  filter (fun x => negb (mutex_eqb m x) = true) l.

Definition setHandlers {S : Type} (sys : Sys S) (hs : list (Prog bool)) : Sys S :=
  {| handlers := hs; goroutines := goroutines sys; held := held sys;
     closed := closed sys; world := world sys |}.

Definition setGoroutines {S : Type} (sys : Sys S) (gs : list (Prog unit)) : Sys S :=
  {| handlers := handlers sys; goroutines := gs; held := held sys;
     closed := closed sys; world := world sys |}.

Definition setHeld {S : Type} (sys : Sys S) (ms : list mutex) : Sys S :=
  {| handlers := handlers sys; goroutines := goroutines sys; held := ms;
     closed := closed sys; world := world sys |}.

Definition setWorld {S : Type} (sys : Sys S) (w : S) : Sys S :=
  {| handlers := handlers sys; goroutines := goroutines sys; held := held sys;
     closed := closed sys; world := w |}.

(** One step of a thread whose program is [p]: the thread's next program
    and what it changed, or [None] when it has returned or must wait. *)
Definition stepProg {S A : Type} (env : Env S) (p : Prog A)
    (sys : Sys S) : option (Prog A * Sys S) :=
  match p with
  | Ret _ => None
  | Vis o k =>
      match o return (resp o -> Prog A) -> option (Prog A * Sys S) with
      | Lock m => fun k =>
          if isHeld m (held sys) then None
          else Some (k tt, setHeld sys (m :: held sys))
      | Unlock m => fun k =>
          Some (k tt, setHeld sys (release m (held sys)))
      | Go t => fun k =>
          Some (k tt, setGoroutines sys (goroutines sys ++ [taskBody t]))
      | RecvDone doneCh => fun k =>
          if existsb (Nat.eqb doneCh) (closed sys) then Some (k tt, sys) else None
      | o' => fun k =>
          let '(r, w) := respond env o' (world sys) in
          Some (k r, setWorld sys w)
      end k
  end.

(** The scheduler picks thread [t]. *)
Definition step {S : Type} (env : Env S) (t : tid) (sys : Sys S) : option (Sys S) :=
  match t with
  | Handler i =>
      p ← handlers sys !! i;
      '(p', sys') ← stepProg env p sys;
      Some (setHandlers sys' (<[i := p']> (handlers sys')))
  | Goroutine j =>
      p ← goroutines sys !! j;
      '(p', sys') ← stepProg env p sys;
      Some (setGoroutines sys' (<[j := p']> (goroutines sys')))
  end.

(** A schedule is the list of the scheduler's picks. *)
Fixpoint exec {S : Type} (env : Env S) (schedule : list tid) (sys : Sys S) : option (Sys S) :=
  match schedule with
  | [] => Some sys
  | t :: rest => sys' ← step env t sys; exec env rest sys'
  end.

Definition returned {A : Type} (p : Prog A) : option A :=
  match p with
  | Ret a => Some a
  | Vis _ _ => None
  end.

(** The handlers that have returned [true]. *)
Definition admitted (ps : list (Prog bool)) : nat :=
  length (filter (fun p => returned p = Some true) ps).

Definition allReturned (ps : list (Prog bool)) : Prop :=
  Forall (fun p => is_Some (returned p)) ps.

(** ** Telling events apart *)

#[global] Instance endpoint_eq_dec : EqDecision endpoint.
Proof. solve_decision. Defined.
#[global] Instance mutex_eq_dec : EqDecision mutex.
Proof. solve_decision. Defined.
#[global] Instance RejectionReason_eq_dec : EqDecision RejectionReason.
Proof. solve_decision. Defined.
#[global] Instance task_eq_dec : EqDecision task.
Proof. solve_decision. Defined.
#[global] Instance op_eq_dec : EqDecision op.
Proof. solve_decision. Defined.

(** The response recorded for [o], when the event is one of [o]. *)
Definition respAt (o : op) (ev : event) : option (resp o) :=
  match decide (ev_op ev = o) with
  | left H => Some (eq_rect (ev_op ev) resp (ev_resp ev) o H)
  | right _ => None
  end.

(** ** Sample networks, identities and stores

    The concrete inputs on which the code is run below. *)

(** A network in which every name resolves to itself and every dial and
    accept succeeds. *)
Definition openNetwork (d : localForwardChannelData) : Script :=
  {| payload := (d, None);
     resolve := fun _ address => (address, None);
     socks5 := None;
     proxyDial := fun _ => (Conn 1, None);
     dial := fun _ => (Conn 1, None);
     accept := (Channel 1, None);
     received := (EmptyString, None);
     copied := fun _ _ => (0, None) |}.

Definition alice : ssh.Context :=
  {| ssh.User := "11111111-1111-1111-1111-111111111111"; ssh.Done := Some 0%nat |}.

Definition toPublicDNS : localForwardChannelData :=
  {| DestAddr := "8.8.8.8"; DestPort := 53; OriginAddr := "10.0.0.2"; OriginPort := 40000 |}.

Definition toLocalRedis : localForwardChannelData :=
  {| DestAddr := "127.0.0.1"; DestPort := 6379; OriginAddr := "10.0.0.2"; OriginPort := 40000 |}.

Definition aliceKey : ssh.PublicKey :=
  {| ssh.MarshalAuthorizedKey := "ssh-ed25519 AAAAC3NzaC1lZDI1NTE5AAAAIE" +:+ String nl EmptyString |}.

(** What the store holds for an authorized key: the identity, ["::"], and
    the key line without its final newline. *)
Definition memberOf (ctx : ssh.Context) (key : ssh.PublicKey) : string :=
  GoString.Trim (ssh.User ctx +:+ "::" +:+ ssh.MarshalAuthorizedKey key) cutset.

Definition storeWith (members : list string) (counts : list (string * string)) : Redis.state :=
  {| Redis.sets := {[ users := list_to_set members ]};
     Redis.hashes := {[ connections := list_to_map counts ]} |}.

Definition isHex (c : ascii) : bool :=
  match net.hexVal c with Some _ => true | None => false end.

(** [s] is made of groups of hexadecimal digits of the lengths [shape],
    with a hyphen between two groups. *)
Fixpoint matchesShape (shape : list nat) (s : string) : bool :=
  match shape with
  | [] => match s with EmptyString => true | _ => false end
  | O :: rest =>
      match rest, s with
      | [], EmptyString => true
      | _ :: _, String c s' => Ascii.eqb c "-" && matchesShape rest s'
      | _, _ => false
      end
  | S n :: rest =>
      match s with
      | String c s' => isHex c && matchesShape (n :: rest) s'
      | EmptyString => false
      end
  end.

(** The textual form of a UUID, 8-4-4-4-12 hexadecimal digits: what the
    code takes a 36-byte identity to be, without looking. *)
Definition isUUID (s : string) : bool := matchesShape [8; 4; 4; 4; 12]%nat s.

Definition mallory : ssh.Context :=
  {| ssh.User := "this-identity-is-not-a-uuid-at-all!!"; ssh.Done := Some 1%nat |}.

Definition aliceAtLimit : Redis.state :=
  storeWith [memberOf alice aliceKey] [(ssh.User alice, "5")].

(** The counter of [alice] holds a number that Redis accepts and that does
    not fit 32 bits. *)
Definition aliceOverflown : Redis.state :=
  storeWith [memberOf alice aliceKey] [(ssh.User alice, "4294967296")].

Definition crlf : string := String cr (String nl EmptyString).

(** A reference server that answers with [line]. *)
Definition referenceServer (line : string) : Script :=
  {| payload := (toLocalRedis, None);
     resolve := fun _ address => (address, None);
     socks5 := None;
     proxyDial := fun _ => (Conn 1, None);
     dial := fun _ => (Conn 7, None);
     accept := (Channel 1, None);
     received := (line, None);
     copied := fun _ _ => (0, None) |}.

(** ** The phases of an admission attempt *)

(** Where a call of [PublicKeyHandler] stands. *)
Inductive phase : Type :=
| Start (ctx : ssh.Context) (key : ssh.PublicKey)
| WaitLock (doneCh : chan)
| Reading (doneCh : chan)
| Incrementing (doneCh : chan)
| Spawning (doneCh : chan)
| Unlocking (b : bool)
| Returned (b : bool).

Definition unlockThen (a : bool) : Prog bool :=
  _ ← call (Unlock userConnectionCountMutex); Ret a.

Definition admitTail (userId : string) (doneCh : chan) : Prog bool :=
  _ ← call (Go (DecrementOnDone doneCh userId)); Ret true.

Definition incrTail (userId : string) (doneCh : chan) : Prog bool :=
  '(_, err) ← call (HIncrBy connections userId 1);
  if isErr err then Ret false else admitTail userId doneCh.

Definition quotaBody (maxConns : Z) (userId : string) (doneCh : chan) : Prog bool :=
  '(connCntStr, _) ← call (HGet connections userId);
  if match strconv.ParseInt connCntStr 32 with
     | Some connCnt => maxConns <=? connCnt
     | None => false
     end then Ret false
  else incrTail userId doneCh.

(** The rest of the handler's program in each phase. *)
Definition progOf (maxConns : Z) (userId : string) (ph : phase) : Prog bool :=
  match ph with
  | Start ctx key => PublicKeyHandler maxConns ctx key
  | WaitLock doneCh =>
      _ ← call (Lock userConnectionCountMutex);
      withDefer (call (Unlock userConnectionCountMutex)) (quotaBody maxConns userId doneCh)
  | Reading doneCh =>
      withDefer (call (Unlock userConnectionCountMutex)) (quotaBody maxConns userId doneCh)
  | Incrementing doneCh => bind (incrTail userId doneCh) unlockThen
  | Spawning doneCh => bind (admitTail userId doneCh) unlockThen
  | Unlocking b => unlockThen b
  | Returned b => Ret b
  end.

Definition inCritical (ph : phase) : bool :=
  match ph with
  | Reading _ | Incrementing _ | Spawning _ | Unlocking _ => true
  | _ => false
  end.

Definition isIncrementing (ph : phase) : bool :=
  match ph with Incrementing _ => true | _ => false end.

Definition isAdmitted (ph : phase) : bool :=
  match ph with
  | Spawning _ | Unlocking true | Returned true => true
  | _ => false
  end.

Definition isDenied (ph : phase) : bool :=
  match ph with
  | Unlocking false | Returned false => true
  | _ => false
  end.

Definition count (f : phase -> bool) (l : list phase) : nat :=
  length (List.filter f l).

(** The number of steps a handler in phase [ph] can still take. *)
Definition rank (ph : phase) : nat :=
  match ph with
  | Start _ _ => 6
  | WaitLock _ => 5
  | Reading _ => 4
  | Incrementing _ => 3
  | Spawning _ => 2
  | Unlocking _ => 1
  | Returned _ => 0
  end.

Definition rankSum (l : list phase) : nat := list_sum (map rank l).

(** An attempt that has not started yet is by the identity [userId], with a
    live session and a key the store lists. *)
Definition startOk (userId : string) (st : Redis.state) (ph : phase) : Prop :=
  match ph with
  | Start ctx key =>
      ssh.User ctx = userId /\ is_Some (ssh.Done ctx) /\
      Redis.sismember st users (memberOf ctx key) = true
  | _ => True
  end.

(** The system in which the [attempts] are about to run. *)
Definition attemptsSys {S : Type} (maxConns : Z)
    (attempts : list (ssh.Context * ssh.PublicKey)) (st : Redis.state) (s : S)
    : Sys (Redis.state * S) :=
  {| handlers := map (fun a => PublicKeyHandler maxConns (fst a) (snd a)) attempts;
     goroutines := [];
     held := [];
     closed := [];
     world := (st, s) |}.

(** The phase after the counter was read as [connCntStr]. *)
Definition afterRead (maxConns : Z) (doneCh : chan) (connCntStr : string) : phase :=
  if match strconv.ParseInt connCntStr 32 with
     | Some connCnt => maxConns <=? connCnt
     | None => false
     end then Unlocking false
  else Incrementing doneCh.

(** The phase after [HIncrBy] answered with [err]. *)
Definition afterIncr (doneCh : chan) (err : option error) : phase :=
  if isErr err then Unlocking false else Spawning doneCh.

(** What holds of the phases [phs] of the attempts and of the system
    between any two steps, [maxConns] being the maximum and [userId] the
    identity of all the attempts. *)
Definition quotaInv {S : Type} (maxConns : Z) (userId : string)
    (phs : list phase) (sys : Sys (Redis.state * S)) : Prop :=
  handlers sys = map (progOf maxConns userId) phs /\
  Forall (fun g => exists ch u, g = taskBody (DecrementOnDone ch u)) (goroutines sys) /\
  closed sys = [] /\
  Forall (startOk userId (fst (world sys))) phs /\
  (exists c, Redis.counter (fst (world sys)) connections userId = Some c /\
             c = maxConns - 1 + Z.of_nat (count isAdmitted phs) /\
             c <= maxConns /\
             ((0 < count isIncrementing phs)%nat -> c = maxConns - 1) /\
             ((0 < count isDenied phs)%nat -> c = maxConns)) /\
  count inCritical phs
  = (if isHeld userConnectionCountMutex (held sys) then 1 else 0)%nat.

Definition threeAttempts : list (ssh.Context * ssh.PublicKey) :=
  [ ({| ssh.User := ssh.User alice; ssh.Done := Some 10%nat |}, aliceKey);
    ({| ssh.User := ssh.User alice; ssh.Done := Some 11%nat |}, aliceKey);
    ({| ssh.User := ssh.User alice; ssh.Done := Some 12%nat |}, aliceKey) ].

Definition aliceBelowLimit : Redis.state :=
  storeWith [memberOf alice aliceKey] [(ssh.User alice, "4")].

(** One attempt of [alice] whose session is already over when the
    goroutine waiting for its end gets to run. *)
Definition endedSession : Sys (Redis.state * unit) :=
  {| handlers := [PublicKeyHandler 5 alice aliceKey];
     goroutines := [];
     held := []; closed := [0%nat];
     world := (storeWith [memberOf alice aliceKey] [], tt) |}.

(** The three handlers check the key; the second takes the mutex and is
    admitted; the third, then the first, find the counter at the limit. *)
Definition interleaved : list tid :=
  [ Handler 0; Handler 1; Handler 2;
    Handler 1; Handler 1; Handler 1; Handler 1; Handler 1;
    Handler 2; Handler 2; Handler 2;
    Handler 0; Handler 0; Handler 0 ]%nat.

(** ** Usage accounting: what is assumed of [io.Copy], what is kept *)

(** [io.Copy] never reports a negative number of bytes. *)
Definition copyContract {S : Type} (env : Env S) : Prop :=
  forall dst src s, 0 <= fst (fst (respond env (IoCopy dst src) s)).

Definition opSafe (o : op) : Prop :=
  match o with
  | HIncrBy key _ incr => key = usersUsage -> 0 <= incr
  | _ => True
  end.

Definition respOk (o : op) : resp o -> Prop :=
  match o return resp o -> Prop with
  | IoCopy _ _ => fun r => 0 <= fst r
  | _ => fun _ => True
  end.

(** A program that, fed non-negative byte counts, never asks for a
    negative increment of a usage counter. *)
Fixpoint usageSafe {A : Type} (p : Prog A) : Prop :=
  match p with
  | Ret _ => True
  | Vis o k => opSafe o /\ forall r, respOk o r -> usageSafe (k r)
  end.

(** The programs the core runs as threads. *)
Definition coreHandler (p : Prog bool) : Prop :=
  exists maxConns ctx key, p = PublicKeyHandler maxConns ctx key.

Definition coreGoroutine (p : Prog unit) : Prop :=
  (exists SocksProxyAddr srv ctx, p = directTCPIPClosure SocksProxyAddr srv ctx) \/
  (exists t, p = taskBody t).

(** [st'] holds, for every identity, a usage total not below that of [st]. *)
Definition usageLe (st st' : Redis.state) : Prop :=
  forall userID c,
    Redis.counter st usersUsage userID = Some c ->
    exists c', Redis.counter st' usersUsage userID = Some c' /\ c <= c'.

(** A tunnel on which each direction copies 1234 bytes. *)
Definition busyTunnel : Script :=
  {| payload := (toLocalRedis, None);
     resolve := fun _ address => (address, None);
     socks5 := None;
     proxyDial := fun _ => (Conn 1, None);
     dial := fun _ => (Conn 1, None);
     accept := (Channel 1, None);
     received := (EmptyString, None);
     copied := fun _ _ => (1234, Some (ErrOther "connection reset by peer")) |}.

Definition aliceUsed100 : Redis.state :=
  {| Redis.sets := ∅;
     Redis.hashes := {[ usersUsage := {[ ssh.User alice := "100" ]} ]} |}.

Definition tunnelSys : Sys (Redis.state * unit) :=
  {| handlers := [];
     goroutines := [directTCPIPClosure "" (server [6379]) alice];
     held := []; closed := [];
     world := (aliceUsed100, tt) |}.

(** The channel handler runs to its end (seven steps), then the two relay
    goroutines it started copy and account, one after the other. *)
Definition tunnelSchedule : list tid :=
  repeat (Goroutine 0) 7 ++ [Goroutine 2; Goroutine 3; Goroutine 2; Goroutine 3]%nat.

(** ** Observations on strings and dials *)

(** The number of [':'] in a string. *)
Fixpoint colons (s : string) : nat :=
  match s with
  | EmptyString => 0
  | String c rest => (if Ascii.eqb c net.colon then 1 else 0) + colons rest
  end.

(** Whether a string is made of decimal digits and dots only. *)
Fixpoint digitsAndDots (s : string) : bool :=
  match s with
  | EmptyString => true
  | String c rest => (GoString.isDigit c || Ascii.eqb c net.dot) && digitsAndDots rest
  end.

Definition isDirectDial (o : op) : bool :=
  match o with
  | DialContext _ _ => true
  | _ => false
  end.

(** ** [unicode/utf8], [unicode] and [strings]: what [strings.TrimSpace] needs

    [strings.TrimSpace] walks over ASCII bytes itself and hands a string
    with a byte outside ASCII to [TrimFunc] with [unicode.IsSpace], which
    decodes UTF-8.  Both paths are transcribed from the Go standard library. *)

Module utf8.
Import GoString.

Definition RuneError : Z := 65533.
Definition RuneSelf : Z := 128.
Definition UTFMax : Z := 4.

(** The table [first]: [0xF0] an ASCII byte, [0xF1] an invalid first byte,
    otherwise the accept range in the high nibble and the size in the low. *)
Definition first (b : Z) : Z :=
  if b <? 128 then 240
  else if b <? 194 then 241
  else if b <? 224 then 2
  else if b =? 224 then 19
  else if b <? 237 then 3
  else if b =? 237 then 35
  else if b <? 240 then 3
  else if b =? 240 then 52
  else if b <? 244 then 4
  else if b =? 244 then 68
  else 241.

(** [acceptRanges[i]], the bounds of the second byte. *)
Definition acceptRanges (i : Z) : Z * Z :=
  if i =? 0 then (128, 191)
  else if i =? 1 then (160, 191)
  else if i =? 2 then (128, 159)
  else if i =? 3 then (144, 191)
  else if i =? 4 then (128, 143)
  else (0, 0).

(** [utf8.DecodeRuneInString(s)]: the rune and its width in bytes. *)
Definition DecodeRuneInString (s : string) : Z * Z :=
  match s with
  | EmptyString => (RuneError, 0)
  | String c0 t0 =>
      let s0 := byte_of c0 in
      let x := first s0 in
      if 240 <=? x then ((if Z.testbit x 0 then RuneError else s0), 1)
      else
        let sz := Z.land x 7 in
        let '(lo, hi) := acceptRanges (Z.shiftr x 4) in
        if len s <? sz then (RuneError, 1)
        else
          match t0 with
          | EmptyString => (RuneError, 1)
          | String c1 t1 =>
              let s1 := byte_of c1 in
              if (s1 <? lo) || (hi <? s1) then (RuneError, 1)
              else if sz <=? 2 then (Z.lor (Z.shiftl (Z.land s0 31) 6) (Z.land s1 63), 2)
              else
                match t1 with
                | EmptyString => (RuneError, 1)
                | String c2 t2 =>
                    let s2 := byte_of c2 in
                    if (s2 <? 128) || (191 <? s2) then (RuneError, 1)
                    else if sz <=? 3 then
                      (Z.lor (Z.lor (Z.shiftl (Z.land s0 15) 12) (Z.shiftl (Z.land s1 63) 6))
                             (Z.land s2 63), 3)
                    else
                      match t2 with
                      | EmptyString => (RuneError, 1)
                      | String c3 _ =>
                          let s3 := byte_of c3 in
                          if (s3 <? 128) || (191 <? s3) then (RuneError, 1)
                          else
                            (Z.lor (Z.lor (Z.lor (Z.shiftl (Z.land s0 7) 18)
                                                 (Z.shiftl (Z.land s1 63) 12))
                                          (Z.shiftl (Z.land s2 63) 6))
                                   (Z.land s3 63), 4)
                      end
                end
          end
  end.

(** [utf8.RuneStart(b)] *)
Definition RuneStart (b : Z) : bool := negb (Z.land b 192 =? 128).

(** [s[i]] *)
Definition index (s : string) (i : Z) : Z :=
  match String.get (Z.to_nat i) s with
  | Some c => byte_of c
  | None => 0
  end.

(** [for start--; start >= lim; start-- { if RuneStart(s[start]) { break } }],
    entered after the first [start--]. *)
Fixpoint backToRuneStart (fuel : nat) (s : string) (lim start : Z) : Z :=
  match fuel with
  | O => start
  | S f =>
      if start <? lim then start
      else if RuneStart (index s start) then start
      else backToRuneStart f s lim (start - 1)
  end.

(** [utf8.DecodeLastRuneInString(s)] *)
Definition DecodeLastRuneInString (s : string) : Z * Z :=
  let end_ := len s in
  if end_ =? 0 then (RuneError, 0)
  else
    let start := end_ - 1 in
    let r := index s start in
    if r <? RuneSelf then (r, 1)
    else
      let lim := Z.max 0 (end_ - UTFMax) in
      let start := backToRuneStart 4 s lim (start - 1) in
      let start := Z.max 0 start in
      let '(r, size) := DecodeRuneInString (sliceFrom (Z.to_nat start) s) in
      if negb (start + size =? end_) then (RuneError, 1) else (r, size).

End utf8.

Module unicode.

(** [unicode.IsSpace(r)]: the Latin-1 spaces, and the rest of the
    [White_Space] table. *)
Definition IsSpace (r : Z) : bool :=
  if r <=? 255 then
    (r =? 9) || (r =? 10) || (r =? 11) || (r =? 12) || (r =? 13) || (r =? 32)
    || (r =? 133) || (r =? 160)
  else
    (r =? 5760) || ((8192 <=? r) && (r <=? 8202)) || (r =? 8232) || (r =? 8233)
    || (r =? 8239) || (r =? 8287) || (r =? 12288).

End unicode.

Module Strings.
Import GoString.

(** [s[:i]] *)
Definition sliceTo (i : Z) (s : string) : string := String.substring 0 (Z.to_nat i) s.

(** [strings.TrimLeftFunc(s, f)]: [indexFunc] decodes one rune after the
    other; [fuel] bounds the number of runes. *)
Fixpoint trimLeftFunc (fuel : nat) (s : string) (f : Z -> bool) : string :=
  match fuel with
  | O => EmptyString
  | S fuel' =>
      match s with
      | EmptyString => EmptyString
      | _ =>
          let '(r, size) := utf8.DecodeRuneInString s in
          if f r then trimLeftFunc fuel' (sliceFrom (Z.to_nat size) s) f else s
      end
  end.

Definition TrimLeftFunc (s : string) (f : Z -> bool) : string :=
  trimLeftFunc (String.length s) s f.

(** [lastIndexFunc(s, f, false)], from [i] downwards. *)
Fixpoint lastIndexFunc (fuel : nat) (s : string) (f : Z -> bool) (i : Z) : Z :=
  match fuel with
  | O => -1
  | S fuel' =>
      if i <=? 0 then -1
      else
        let '(r, size) := utf8.DecodeLastRuneInString (sliceTo i s) in
        let i := i - size in
        if negb (f r) then i else lastIndexFunc fuel' s f i
  end.

(** [strings.TrimRightFunc(s, f)] *)
Definition TrimRightFunc (s : string) (f : Z -> bool) : string :=
  let i := lastIndexFunc (String.length s) s f (len s) in
  let i :=
    if (0 <=? i) && (utf8.RuneSelf <=? utf8.index s i) then
      i + snd (utf8.DecodeRuneInString (sliceFrom (Z.to_nat i) s))
    else i + 1 in
  sliceTo i s.

(** [strings.TrimFunc(s, f)] *)
Definition TrimFunc (s : string) (f : Z -> bool) : string :=
  TrimRightFunc (TrimLeftFunc s f) f.

(** The table [asciiSpace]. *)
Definition asciiSpace (c : ascii) : bool :=
  let b := byte_of c in
  (b =? 9) || (b =? 10) || (b =? 11) || (b =? 12) || (b =? 13) || (b =? 32).

(** The second loop of [strings.TrimSpace], over [s[start:stop]] read from
    its end: [r] is that slice reversed. *)
Fixpoint trimSpaceStop (r : list ascii) : string :=
  match r with
  | [] => EmptyString
  | c :: r' =>
      if utf8.RuneSelf <=? byte_of c then
        TrimRightFunc (string_of_list_ascii (rev r)) unicode.IsSpace
      else if asciiSpace c then trimSpaceStop r'
      else string_of_list_ascii (rev r)
  end.

(** [strings.TrimSpace(s)]; the recursion is the first loop. *)
Fixpoint TrimSpace (s : string) : string :=
  match s with
  | EmptyString => EmptyString
  | String c rest =>
      if utf8.RuneSelf <=? byte_of c then TrimFunc s unicode.IsSpace
      else if asciiSpace c then TrimSpace rest
      else trimSpaceStop (rev (list_ascii_of_string s))
  end.

(** [strings.Split(s, sep)] for a separator of one byte. *)
Fixpoint Split (s : string) (sep : ascii) : list string :=
  match s with
  | EmptyString => [EmptyString]
  | String c rest =>
      if Ascii.eqb c sep then EmptyString :: Split rest sep
      else
        match Split rest sep with
        | first :: others => String c first :: others
        | [] => [String c EmptyString]
        end
  end.

(** [strings.HasSuffix(s, suffix)] *)
Definition HasSuffix (s suffix : string) : bool :=
  (String.length suffix <=? String.length s)%nat
  && String.eqb (sliceFrom (String.length s - String.length suffix) s) suffix.

End Strings.

(** ** The configuration [main] reads (main.go:183-199, 244-248) *)

Definition comma : ascii := ",".

(** The loop of [extractNumbers]. *)
Fixpoint extractNumbersLoop (elements : list string) (numbers : list Z) : option (list Z) :=
  match elements with
  | [] => Some numbers
  | element :: rest =>
      match strconv.ParseUint (Strings.TrimSpace element) 30 with
      | None => None
      | Some num => extractNumbersLoop rest (numbers ++ [num mod 2 ^ 32])
      end
  end.

(** [extractNumbers] (main.go:183-199); [None] is the error return. *)
Definition extractNumbers (input : string) : option (list Z) :=
  let elements := Strings.Split input comma in
  let numbers := [] in
  if GoString.len input =? 0 then Some numbers
  else extractNumbersLoop elements numbers.

(** The check of [MAX_CONNECTIONS] in [main] (main.go:244-248): the value
    [main] goes on with, [None] where it calls [log.Fatalln].  On an error
    [strconv.ParseInt] returns 0 or the nearest bound; the test [err != nil]
    makes that value irrelevant. *)
Definition maxConnections (maxConnString : string) : option Z :=
  match strconv.ParseInt maxConnString 32 with
  | Some maxConns =>
      if (maxConns =? 0) || (GoString.len maxConnString =? 0) then None else Some maxConns
  | None => None
  end.

(** *** Port lists as an operator writes them *)

(** [strings.Join(elems, ",")] *)
Fixpoint joinComma (elems : list string) : string :=
  match elems with
  | [] => EmptyString
  | [a] => a
  | a :: rest => a +:+ String comma (joinComma rest)
  end.

(** A string of ASCII white space. *)
Fixpoint blank (s : string) : bool :=
  match s with
  | EmptyString => true
  | String c rest => Strings.asciiSpace c && blank rest
  end.

(** One element of a port list as an operator may write it: a number
    with white space around it. *)
Record portItem : Type := { padLeft : string; number : Z; padRight : string }.

Definition renderItem (it : portItem) : string :=
  padLeft it +:+ strconv.FormatInt (number it) +:+ padRight it.

Definition itemOk (it : portItem) : Prop :=
  blank (padLeft it) = true /\ blank (padRight it) = true /\ 0 <= number it < 2 ^ 30.

(** ["80, 443 ,6379"] *)
Definition samplePorts : list portItem :=
  [ {| padLeft := ""; number := 80; padRight := "" |};
    {| padLeft := " "; number := 443; padRight := " " |};
    {| padLeft := ""; number := 6379; padRight := "" |} ].

(** The number of bytes [c] in [s]. *)
Fixpoint countByte (s : string) (c : ascii) : nat :=
  match s with
  | EmptyString => 0
  | String d rest => (if Ascii.eqb d c then 1 else 0) + countByte rest c
  end.

(** Every byte of [s] is a decimal digit. *)
Fixpoint digits (s : string) : bool :=
  match s with
  | EmptyString => true
  | String c rest => GoString.isDigit c && digits rest
  end.

(** ** [path/filepath]: walking a file tree

    [filepath.Walk] belongs to the Go standard library.  What it sees of the
    file system is what [os.Lstat] and the sorted directory listing say
    along the way; a [file] records that. *)

Module filepath.

Inductive file : Type :=
| NotDir                          (* [info.IsDir()] is false *)
| Unreadable (e : error)          (* a directory whose listing fails with [e] *)
| Dir (es : entries)              (* a directory and its names, sorted *)
with entries : Type :=
| NoMore
| LstatFails (name : string) (e : error) (rest : entries)
| Entry (name : string) (f : file) (rest : entries).

(** The error values [Walk] tells apart. *)
Inductive werror : Type :=
| SkipDir
| SkipAll
| OsError (e : error).

Definition isSkipDir (e : werror) : bool :=
  match e with SkipDir => true | _ => false end.

Definition IsDir (f : file) : bool :=
  match f with NotDir => false | _ => true end.

Section Walk.

(** [filepath.Join], left abstract. *)
Variable Join : string -> string -> string.

(** The callback: the path, [info.IsDir()] ([None] for a nil [info]), the
    error handed in, and the variables the closure captures. *)
Context {St : Type}.
Variable walkFn : string -> option bool -> option error -> St -> St * option werror.

(** [filepath.walk] and its loop over the names of a directory. *)
Fixpoint walk (path : string) (f : file) (st : St) : St * option werror :=
  match f with
  | NotDir => walkFn path (Some false) None st
  | Unreadable e => walkFn path (Some true) (Some e) st
  | Dir es =>
      let '(st, err1) := walkFn path (Some true) None st in
      match err1 with
      | Some _ => (st, err1)
      | None => walkNames path es st
      end
  end
with walkNames (path : string) (es : entries) (st : St) : St * option werror :=
  match es with
  | NoMore => (st, None)
  | LstatFails name e rest =>
      let filename := Join path name in
      let '(st, err) := walkFn filename None (Some e) st in
      match err with
      | Some err => if negb (isSkipDir err) then (st, Some err) else walkNames path rest st
      | None => walkNames path rest st
      end
  | Entry name f rest =>
      let filename := Join path name in
      let '(st, err) := walk filename f st in
      match err with
      | Some err =>
          if negb (IsDir f) || negb (isSkipDir err) then (st, Some err)
          else walkNames path rest st
      | None => walkNames path rest st
      end
  end.

(** [filepath.Walk(root, fn)]; [lstat] is what [os.Lstat(root)] returns. *)
Definition Walk (root : string) (lstat : error + file) (st : St) : St * option werror :=
  let '(st, err) :=
    match lstat with
    | inl e => walkFn root None (Some e) st
    | inr info => walk root info st
    end in
  match err with
  | Some SkipDir | Some SkipAll => (st, None)
  | _ => (st, err)
  end.

End Walk.

End filepath.

(** ** The host key files (main.go:35-46) *)

(** The closure [listKeys] passes to [filepath.Walk]; [result] is the
    captured variable.  With a nil [err], [info] is never nil. *)
Definition listKeysFn (path : string) (info : option bool) (err : option error)
    (result : list string) : list string * option filepath.werror :=
  match err with
  | Some e => (result, Some (filepath.OsError e))
  | None =>
      match info with
      | Some isDir =>
          if negb isDir && Strings.HasSuffix path "_key" then (result ++ [path], None)
          else (result, None)
      | None => (result, None)
      end
  end.

(** [listKeys] (main.go:35-46): the named results [result] and [err]. *)
Definition listKeys (Join : string -> string -> string) (dirPath : string)
    (lstat : error + filepath.file) : list string * option filepath.werror :=
  filepath.Walk Join listKeysFn dirPath lstat [].

(** *** What a walk should find *)

(** The paths of the files below [path] that are not directories, in the
    order of the walk, passing over what cannot be read. *)
Fixpoint filesOf (Join : string -> string -> string) (path : string) (f : filepath.file)
    : list string :=
  match f with
  | filepath.NotDir => [path]
  | filepath.Unreadable _ => []
  | filepath.Dir es => filesIn Join path es
  end
with filesIn (Join : string -> string -> string) (path : string) (es : filepath.entries)
    : list string :=
  match es with
  | filepath.NoMore => []
  | filepath.LstatFails _ _ rest => filesIn Join path rest
  | filepath.Entry name f rest => filesOf Join (Join path name) f ++ filesIn Join path rest
  end.

(** Everything below can be read. *)
Fixpoint readable (f : filepath.file) : bool :=
  match f with
  | filepath.NotDir => true
  | filepath.Unreadable _ => false
  | filepath.Dir es => readableAll es
  end
with readableAll (es : filepath.entries) : bool :=
  match es with
  | filepath.NoMore => true
  | filepath.LstatFails _ _ _ => false
  | filepath.Entry _ f rest => readable f && readableAll rest
  end.

Definition isKey (path : string) : bool := Strings.HasSuffix path "_key".

(** A directory with two host keys, a public key and a subdirectory. *)
Definition etcSsh : filepath.file :=
  filepath.Dir
    (filepath.Entry "moduli" filepath.NotDir
    (filepath.Entry "old_key" (filepath.Dir
       (filepath.Entry "ssh_host_rsa_key" filepath.NotDir filepath.NoMore))
    (filepath.Entry "ssh_host_ed25519_key" filepath.NotDir
    (filepath.Entry "ssh_host_ed25519_key.pub" filepath.NotDir filepath.NoMore)))).

Definition slashJoin (dir name : string) : string := dir +:+ "/" +:+ name.

(** ** More observations on addresses, traces and banners *)

(** The dotted-decimal text of the IPv4 address [a.b.c.d], as
    [ipAddr.String()] prints it. *)
Definition dotted (a b c d : Z) : string :=
  strconv.FormatInt a +:+ "." +:+ strconv.FormatInt b +:+ "."
  +:+ strconv.FormatInt c +:+ "." +:+ strconv.FormatInt d.

(** The IPv4 ranges the forwarding policy treats as local: 127/8, 10/8,
    172.16/12, 192.168/16, 169.254/16 and 224.0.0/24. *)
Definition localRange (a b c : Z) : bool :=
  (a =? 127) || (a =? 10) || ((a =? 172) && (16 <=? b) && (b <=? 31))
  || ((a =? 192) && (b =? 168)) || ((a =? 169) && (b =? 254))
  || ((a =? 224) && (b =? 0) && (c =? 0)).

Definition isOctet (v : Z) : Prop := 0 <= v <= 255.

(** The two ways a channel-open request is answered. *)
Definition isAnswer (o : op) : bool :=
  match o with
  | Reject _ _ | Accept => true
  | _ => false
  end.

Definition isGo (o : op) : bool :=
  match o with
  | Go _ => true
  | _ => false
  end.

Definition isLockOp (o : op) : bool :=
  match o with
  | Lock _ | Unlock _ => true
  | _ => false
  end.

(** The operations that read or write a hash of counters. *)
Definition isCounterOp (o : op) : bool :=
  match o with
  | HGet _ _ | HIncrBy _ _ _ => true
  | _ => false
  end.

(** The events of a trace whose operation satisfies [f]. *)
Definition only (f : op -> bool) (tr : list event) : list event :=
  List.filter (fun ev => f (ev_op ev)) tr.

Definition isRead (o : op) : bool :=
  match o with Read _ => true | _ => false end.

Definition isSleep (o : op) : bool :=
  match o with Sleep => true | _ => false end.

Definition isClose (o : op) : bool :=
  match o with Close _ => true | _ => false end.

(** The connection a [net.Dial] returned, when the event is one that did. *)
Definition dialedConn (ev : event) : list endpoint :=
  match ev with
  | Ev o r =>
      match o return resp o -> list endpoint with
      | NetDial _ _ => fun r => if isErr (snd r) then [] else [fst r]
      | _ => fun _ => []
      end r
  end.

(** The connection a [Close] closed. *)
Definition closedConn (ev : event) : list endpoint :=
  match ev_op ev with
  | Close c => [c]
  | _ => []
  end.

(** No byte of [s] is null. *)
Fixpoint noNull (s : string) : bool :=
  match s with
  | EmptyString => true
  | String c rest => negb (Ascii.eqb c zero) && noNull rest
  end.

(** What a version string set by the copying goroutine looks like. *)
Definition copiedShape (v : string) : Prop :=
  noNull v = true /\ GoString.len v <= 248 /\ GoString.TrimRight v cutset = v.

(** A reference server that answers the successive connections with the
    successive [lines]; every dial succeeds. *)
Definition replayEnv : Env (list string) :=
  {| respond := fun o =>
       match o return list string -> resp o * list string with
       | Read _ => fun lines =>
           match lines with
           | line :: rest => ((line, None), rest)
           | [] => ((EmptyString, Some (ErrOther "EOF")), [])
           end
       | o' => fun lines =>
           let '(r, _) := respond (scriptEnv (referenceServer EmptyString)) o' tt in (r, lines)
       end |}.

(** The banners of two servers, the first one longer than the second. *)
Definition longBanner : string := "SSH-2.0-OpenSSH_9.6p1 Ubuntu-3ubuntu13" +:+ crlf.
Definition shortBanner : string := "dropbear" +:+ crlf.

(** ** Sessions that end while attempts are made

    A session ends when the transport closes the channel [ctx.Done()]
    returns; from then on the goroutine waiting for it can run. *)

Inductive action : Type :=
| Run (t : tid)
| SessionEnds (doneCh : chan).

Definition setClosed {S : Type} (sys : Sys S) (cs : list chan) : Sys S :=
  {| handlers := handlers sys; goroutines := goroutines sys; held := held sys;
     closed := cs; world := world sys |}.

Definition advance {S : Type} (env : Env S) (m : action) (sys : Sys S) : option (Sys S) :=
  match m with
  | Run t => step env t sys
  | SessionEnds doneCh => Some (setClosed sys (doneCh :: closed sys))
  end.

Fixpoint play {S : Type} (env : Env S) (actions : list action) (sys : Sys S) : option (Sys S) :=
  match actions with
  | [] => Some sys
  | m :: rest => sys' ← advance env m sys; play env rest sys'
  end.

Definition isClosed (cs : list chan) (doneCh : chan) : bool := existsb (Nat.eqb doneCh) cs.

(** An attempt of [userId] that was admitted and whose session has not
    ended. *)
Definition isOpen (userId : string) (cs : list chan)
    (ap : (ssh.Context * ssh.PublicKey) * Prog bool) : bool :=
  String.eqb (ssh.User (fst (fst ap))) userId
  && match returned (snd ap) with Some true => true | _ => false end
  && match ssh.Done (fst (fst ap)) with
     | Some doneCh => negb (isClosed cs doneCh)
     | None => false
     end.

Definition openSessions {S : Type} (userId : string)
    (attempts : list (ssh.Context * ssh.PublicKey)) (sys : Sys S) : nat :=
  length (List.filter (isOpen userId (closed sys)) (combine attempts (handlers sys))).

(** Where a goroutine started by an admission stands. *)
Inductive gphase : Type := GWait | GDecr | GDone.

Record gor : Type := { g_ch : chan; g_user : string; g_ph : gphase }.

Definition progG (g : gor) : Prog unit :=
  match g_ph g with
  | GWait => taskBody (DecrementOnDone (g_ch g) (g_user g))
  | GDecr => _ ← call (HIncrBy connections (g_user g) (-1)); Ret tt
  | GDone => Ret tt
  end.

(** An attempt and where its handler stands. *)
Record slot : Type := { s_ctx : ssh.Context; s_ph : phase }.

Definition progS (maxConns : Z) (sl : slot) : Prog bool :=
  progOf maxConns (ssh.User (s_ctx sl)) (s_ph sl).

Definition wfSlot (sl : slot) : Prop :=
  match s_ph sl with
  | Start ctx _ => ctx = s_ctx sl
  | WaitLock doneCh | Reading doneCh | Incrementing doneCh | Spawning doneCh =>
      ssh.Done (s_ctx sl) = Some doneCh
  | Unlocking _ | Returned _ => True
  end.

Definition tally {A : Type} (f : A -> bool) (l : list A) : nat := length (List.filter f l).

Definition isSpawning (ph : phase) : bool :=
  match ph with Spawning _ => true | _ => false end.

Definition pastSpawn (ph : phase) : bool :=
  match ph with Unlocking true | Returned true => true | _ => false end.

Definition pending (g : gor) : bool :=
  match g_ph g with GDone => false | _ => true end.

Definition slotOf (u : string) (f : phase -> bool) (sl : slot) : bool :=
  f (s_ph sl) && String.eqb (ssh.User (s_ctx sl)) u.

(** The sessions of [u] that the counter stands for: admitted, and not yet
    subtracted. *)
Definition live (u : string) (slots : list slot) (gs : list gor) : nat :=
  (tally (slotOf u isSpawning) slots
   + tally (fun g => pending g && String.eqb (g_user g) u) gs)%nat.

Definition sessionInv {S : Type} (maxConns : Z) (slots : list slot) (gs : list gor)
    (sys : Sys (Redis.state * S)) : Prop :=
  handlers sys = map (progS maxConns) slots /\
  goroutines sys = map progG gs /\
  Forall wfSlot slots /\
  Forall (fun g => g_ph g <> GWait -> isClosed (closed sys) (g_ch g) = true) gs /\
  (forall u, exists c : nat,
      Redis.counter (fst (world sys)) connections u = Some (Z.of_nat c) /\
      c = live u slots gs /\
      Z.of_nat c <= maxConns /\
      ((0 < tally (slotOf u isIncrementing) slots)%nat -> Z.of_nat c < maxConns)) /\
  tally (fun sl => inCritical (s_ph sl)) slots
  = (if isHeld userConnectionCountMutex (held sys) then 1 else 0)%nat /\
  (forall P : option chan -> string -> bool,
      tally (fun sl => pastSpawn (s_ph sl) && P (ssh.Done (s_ctx sl)) (ssh.User (s_ctx sl))) slots
      = tally (fun g => P (Some (g_ch g)) (g_user g)) gs).

(** The phase that follows the membership test. *)
Definition afterMember (ctx : ssh.Context) (res : bool) : phase :=
  if res then
    match ssh.Done ctx with
    | Some doneCh => WaitLock doneCh
    | None => Returned false
    end
  else Returned false.

Definition startSlot (a : ssh.Context * ssh.PublicKey) : slot :=
  {| s_ctx := fst a; s_ph := Start (fst a) (snd a) |}.

Definition b2n (b : bool) : nat := if b then 1 else 0.

(** Two of three attempts of [alice] are admitted under a maximum of two;
    the session of the first one ends and its goroutine subtracts it. *)
Definition comeAndGo : list action :=
  map Run (repeat (Handler 0) 6 ++ repeat (Handler 1) 6 ++ repeat (Handler 2) 4)%nat
  ++ [SessionEnds 10%nat; Run (Goroutine 0); Run (Goroutine 0)].

Definition aliceListed : Redis.state := storeWith [memberOf alice aliceKey] [].

(** One attempt, admitted; its session ends and its goroutine runs. *)
Definition inAndOut : list action :=
  map Run (repeat (Handler 0) 6) ++ [SessionEnds 0%nat; Run (Goroutine 0); Run (Goroutine 0)].

(** * Properties *)

(** ** The library models on examples *)

Example ParseInt_5 : strconv.ParseInt "5" 32 = Some 5.
Proof. reflexivity. Qed.
Example ParseInt_neg : strconv.ParseInt "-2147483648" 32 = Some (-2147483648).
Proof. reflexivity. Qed.
Example ParseInt_range : strconv.ParseInt "2147483648" 32 = None.
Proof. reflexivity. Qed.
Example ParseInt_empty : strconv.ParseInt "" 32 = None.
Proof. reflexivity. Qed.
Example FormatInt_6379 : strconv.FormatInt 6379 = "6379".
Proof. reflexivity. Qed.
Example FormatInt_neg : strconv.FormatInt (-40) = "-40".
Proof. reflexivity. Qed.
Example Trim_crlf :
  GoString.Trim (String tab "SSH-2.0-x " +:+ String cr (String nl EmptyString)) cutset
  = "SSH-2.0-x ".
Proof. reflexivity. Qed.

Example ParseIP_v4 : net.ParseIP "127.0.0.1" = Some [0;0;0;0;0;0;0;0;0;0;255;255;127;0;0;1].
Proof. reflexivity. Qed.
Example ParseIP_v6 : net.ParseIP "fe80::1:2" = Some [254;128;0;0;0;0;0;0;0;0;0;0;0;1;0;2].
Proof. reflexivity. Qed.
Example ParseIP_v6_loop : net.ParseIP "::1" = Some net.IPv6loopback.
Proof. reflexivity. Qed.
Example ParseIP_v6_full : net.ParseIP "1:2:3:4:5:6:7:8" = Some [0;1;0;2;0;3;0;4;0;5;0;6;0;7;0;8].
Proof. reflexivity. Qed.
Example ParseIP_v6_full9 : net.ParseIP "1:2:3:4:5:6:7:8:9" = None.
Proof. reflexivity. Qed.
Example ParseIP_v6_v4 : net.ParseIP "::ffff:10.1.2.3" = Some [0;0;0;0;0;0;0;0;0;0;255;255;10;1;2;3].
Proof. reflexivity. Qed.
Example ParseIP_v6_mid : net.ParseIP "2001:db8::" = Some [32;1;13;184;0;0;0;0;0;0;0;0;0;0;0;0].
Proof. reflexivity. Qed.
Example ParseIP_zone : net.ParseIP "fe80::1%eth0" = None.
Proof. reflexivity. Qed.
Example ParseIP_lead0 : net.ParseIP "127.0.0.01" = None.
Proof. reflexivity. Qed.
Example ParseIP_hostport : net.ParseIP "127.0.0.1:6379" = None.
Proof. reflexivity. Qed.
Example ParseIP_bracket : net.ParseIP (net.JoinHostPort "::1" "80") = None.
Proof. reflexivity. Qed.
Example isLocal_examples :
  map isLocalIP ["127.0.0.1"; "10.2.3.4"; "172.16.0.9"; "172.32.0.9"; "192.168.1.1"; "169.254.0.1";
                 "224.0.0.251"; "8.8.8.8"; "::1"; "fe80::1"; "fc00::1"; "ff02::1"; "2001:db8::1"; "localhost"]
  = [true; true; true; false; true; true; true; false; true; true; true; true; false; false].
Proof. reflexivity. Qed.

(** ** Events and runs *)

Lemma respAt_same o r : respAt o (Ev o r) = Some r.
Proof.
  unfold respAt. simpl. destruct (decide (o = o)) as [H | H]; [| congruence].
  f_equal. symmetry. apply Eqdep_dec.eq_rect_eq_dec. intros x y. apply op_eq_dec.
Qed.

Lemma Ev_inj o r r' : Ev o r = Ev o r' -> r = r'.
Proof.
  intros H. apply (f_equal (respAt o)) in H. rewrite !respAt_same in H. congruence.
Qed.

Lemma Ev_op_eq o r o' r' : Ev o r = Ev o' r' -> o = o'.
Proof. intros H. apply (f_equal ev_op) in H. exact H. Qed.

Lemma result_Ret {S A} (env : Env S) (a : A) s : result env (Ret a) s = a.
Proof. reflexivity. Qed.

Lemma trace_Ret {S A} (env : Env S) (a : A) s : trace env (Ret a) s = [].
Proof. reflexivity. Qed.

Lemma result_Vis {S A} (env : Env S) o (k : resp o -> Prog A) s :
  result env (Vis o k) s = result env (k (respond env o s).1) (respond env o s).2.
Proof.
  unfold result. simpl. destruct (respond env o s) as [r s1]. simpl.
  destruct (run env (k r) s1) as [[a tr] s2]. reflexivity.
Qed.

Lemma trace_Vis {S A} (env : Env S) o (k : resp o -> Prog A) s :
  trace env (Vis o k) s =
  Ev o (respond env o s).1 :: trace env (k (respond env o s).1) (respond env o s).2.
Proof.
  unfold trace. simpl. destruct (respond env o s) as [r s1]. simpl.
  destruct (run env (k r) s1) as [[a tr] s2]. reflexivity.
Qed.

Lemma final_Vis {S A} (env : Env S) o (k : resp o -> Prog A) s :
  final env (Vis o k) s = final env (k (respond env o s).1) (respond env o s).2.
Proof.
  unfold final. simpl. destruct (respond env o s) as [r s1]. simpl.
  destruct (run env (k r) s1) as [[a tr] s2]. reflexivity.
Qed.

(** Symbolic execution: unfold the monadic glue, name the response of
    each operation and the state it leaves, split every test. *)
Ltac exec1 :=
  first
    [ progress (unfold call, withDefer; cbn [bind mbind mret Prog_bind Prog_ret isErr])
    | progress rewrite ?result_Vis, ?trace_Vis, ?final_Vis
    | lazymatch goal with
      | |- context [respond ?env ?o ?s] =>
          let r := fresh "r" in
          let s' := fresh "s" in
          destruct (respond env o s) as [r s'] eqn:?; cbn [fst snd]
      end ].

Ltac other_op H := exfalso; apply Ev_op_eq in H; discriminate H.

Ltac exec_all :=
  repeat first
    [ exec1
    | match goal with
      | |- context [match ?x with _ => _ end] => is_var x; destruct x
      | |- context [if ?c then _ else _] => destruct c eqn:?
      | |- context [match ?x with _ => _ end] => destruct x eqn:?
      end ];
  rewrite ?trace_Ret, ?result_Ret;
  repeat match goal with
         | r : resp _ |- _ => cbn [resp] in r; destruct r
         end.

(** Use a hypothesis that an event occurs in an explicit trace. *)
Ltac ev_same H :=
  let E := fresh "E" in
  pose proof (Ev_op_eq _ _ _ _ H) as E;
  try (injection E; clear E; intros; subst);
  apply Ev_inj in H;
  try (injection H; clear H; intros; subst).

Ltac ev_in H :=
  cbn [In] in H;
  repeat match type of H with
         | _ \/ _ => destruct H as [H | H]
         end;
  first [ contradiction H | other_op H | ev_same H | idtac ].

(** ** The destination classifier and the forwarding permission *)

Lemma containsNumber_In (l : list Z) (n : Z) : containsNumber l n = true <-> In n l.
Proof.
  induction l as [| v rest IH]; simpl.
  - split; [discriminate | tauto].
  - destruct (Z.eqb_spec v n) as [-> | Hne].
    + split; auto.
    + rewrite IH. split; [auto | intros [H | H]; [contradiction | exact H]].
Qed.

Lemma LocalPortForwardingCallback_spec (whitelistPorts : list Z) dhost dport :
  LocalPortForwardingCallback whitelistPorts dhost dport
  = negb (isLocalIP dhost) || containsNumber whitelistPorts dport.
Proof.
  unfold LocalPortForwardingCallback.
  destruct (isLocalIP dhost); simpl; [| reflexivity].
  destruct (containsNumber whitelistPorts dport); reflexivity.
Qed.

(** C1, as stated, fails: the loopback address is classified as local, yet
    with an empty whitelist the permission callback refuses to forward to
    its port 22. *)
Lemma local_forward_refused_off_whitelist :
  isLocalIP "127.0.0.1" = true /\
  LocalPortForwardingCallback [] "127.0.0.1" 22 = false.
Proof. split; reflexivity. Qed.

(** C1, amended: for a destination classified as local, the permission
    callback permits the forward exactly when the destination port is in the
    configured whitelist. *)
Theorem local_forward_permitted_iff_whitelisted (whitelistPorts : list Z) dhost dport :
  isLocalIP dhost = true ->
  (LocalPortForwardingCallback whitelistPorts dhost dport = true <-> In dport whitelistPorts).
Proof.
  intros Hlocal. rewrite LocalPortForwardingCallback_spec, Hlocal. simpl.
  apply containsNumber_In.
Qed.

Lemma local_forward_permitted_iff_whitelisted_witness :
  isLocalIP "192.168.1.10" = true /\
  (LocalPortForwardingCallback [80; 443] "192.168.1.10" 443 = true <-> In 443 [80; 443]).
Proof.
  split; [reflexivity |].
  apply (local_forward_permitted_iff_whitelisted [80; 443] "192.168.1.10" 443).
  reflexivity.
Defined.

(** ** The channel handler *)

(** C2, as stated, fails: 8.8.8.8 is classified as non-local and port 53 is
    not in the (empty) whitelist, yet the channel is not rejected: the
    handler dials 8.8.8.8:53 and accepts the channel. *)
Lemma nonlocal_forward_dialed_off_whitelist :
  isLocalIP "8.8.8.8" = false /\
  containsNumber [] 53 = false /\
  trace (scriptEnv (openNetwork toPublicDNS))
        (directTCPIPClosure "" (server []) alice) tt
  = [ Ev UnmarshalExtraData (toPublicDNS, None);
      Ev (ResolveIPAddr "ip4" "8.8.8.8") ("8.8.8.8", None);
      Ev (DialContext "tcp" "8.8.8.8:53") (Conn 1, None);
      Ev Accept (Channel 1, None);
      Ev (Go DiscardRequests) tt;
      Ev (Go (Relay (Channel 1) (Conn 1) (Channel 1) (Conn 1) (ssh.User alice))) tt;
      Ev (Go (Relay (Conn 1) (Channel 1) (Channel 1) (Conn 1) (ssh.User alice))) tt ].
Proof. repeat split; vm_compute; reflexivity. Qed.

(** C2, amended: when the request was decoded, its destination resolved to
    an address classified as local, and the destination port is not in the
    whitelist, the channel is rejected as prohibited with the message
    "illegal address" and nothing is dialed, directly or through the proxy. *)
Theorem local_forward_rejected_off_whitelist {S} (env : Env S) (s : S)
    (SocksProxyAddr : string) (whitelistPorts : list Z) (ctx : ssh.Context)
    (d : localForwardChannelData) (network dest : string) :
  let tr := trace env (directTCPIPClosure SocksProxyAddr (server whitelistPorts) ctx) s in
  In (Ev UnmarshalExtraData (d, None)) tr ->
  In (Ev (ResolveIPAddr network (DestAddr d)) (dest, None)) tr ->
  isLocalIP dest = true ->
  containsNumber whitelistPorts (DestPort d) = false ->
  In (Ev (Reject Prohibited "illegal address") tt) tr /\
  Forall (fun ev => isDial (ev_op ev) = false) tr.
Proof.
  intros tr. subst tr. unfold directTCPIPClosure, server. cbn [ssh.LocalPortForwardingCallback].
  exec_all.
  all: intros Hd Hres Hlocal Hport.
  all: ev_in Hd.
  all: ev_in Hres.
  all: try discriminate.
  all: try (rewrite LocalPortForwardingCallback_spec, Hlocal, Hport in *; discriminate).
  all: split; [cbn [In]; auto 10 | repeat constructor].
Qed.

Lemma local_forward_rejected_off_whitelist_witness :
  let tr := trace (scriptEnv (openNetwork toLocalRedis))
                  (directTCPIPClosure "" (server []) alice) tt in
  In (Ev (Reject Prohibited "illegal address") tt) tr /\
  Forall (fun ev => isDial (ev_op ev) = false) tr.
Proof.
  apply (local_forward_rejected_off_whitelist
           (scriptEnv (openNetwork toLocalRedis)) tt "" [] alice
           toLocalRedis "ip4" "127.0.0.1").
  - vm_compute. left. reflexivity.
  - vm_compute. right. left. reflexivity.
  - reflexivity.
  - reflexivity.
Defined.

(** ** Admission *)

Example isUUID_alice : isUUID (ssh.User alice) = true.
Proof. reflexivity. Qed.

(** C4, as stated, fails: an identity of 36 bytes that is not a UUID passes
    the format test, which only looks at the length, and the store is asked
    whether the key is a member. *)
Lemma non_uuid_identity_reaches_store :
  isUUID (ssh.User mallory) = false /\
  trace (storeEnv (scriptEnv (openNetwork toLocalRedis)))
        (PublicKeyHandler 5 mallory aliceKey) (storeWith [] [], tt)
  = [ Ev (SIsMember users (memberOf mallory aliceKey)) (false, None) ].
Proof. split; vm_compute; reflexivity. Qed.

(** C4, amended: for every identity whose length is not 36 bytes the
    public-key callback returns deny and performs no operation at all, in
    particular no call to the store. *)
Theorem wrong_length_identity_denied_without_store {S} (env : Env S) (s : S)
    (maxConns : Z) (ctx : ssh.Context) (key : ssh.PublicKey) :
  GoString.len (ssh.User ctx) <> 36 ->
  result env (PublicKeyHandler maxConns ctx key) s = false /\
  trace env (PublicKeyHandler maxConns ctx key) s = [].
Proof.
  intros Hlen. unfold PublicKeyHandler.
  destruct (Z.eqb_spec (GoString.len (ssh.User ctx)) 36) as [Heq | _]; [contradiction |].
  split; reflexivity.
Qed.

Lemma wrong_length_identity_denied_without_store_witness :
  GoString.len "root" <> 36 /\
  result (scriptEnv (openNetwork toLocalRedis))
         (PublicKeyHandler 5 {| ssh.User := "root"; ssh.Done := Some 2%nat |} aliceKey) tt = false /\
  trace (scriptEnv (openNetwork toLocalRedis))
        (PublicKeyHandler 5 {| ssh.User := "root"; ssh.Done := Some 2%nat |} aliceKey) tt = [].
Proof.
  split; [vm_compute; discriminate |].
  apply (wrong_length_identity_denied_without_store
           (scriptEnv (openNetwork toLocalRedis)) tt 5
           {| ssh.User := "root"; ssh.Done := Some 2%nat |} aliceKey).
  vm_compute. discriminate.
Defined.

(** C5: when every read of the quota counter made by the attempt returns
    a string that parses as a 32-bit integer not below the maximum (an
    attempt refused before it reads the counter makes none), the callback
    returns deny and the attempt contains no [HIncrBy] at all: the counter
    is not incremented. *)
Theorem at_limit_denied_without_increment {S} (env : Env S) (s : S)
    (maxConns : Z) (ctx : ssh.Context) (key : ssh.PublicKey) :
  (forall connCntStr e,
      In (Ev (HGet connections (ssh.User ctx)) (connCntStr, e))
         (trace env (PublicKeyHandler maxConns ctx key) s) ->
      exists connCnt,
        strconv.ParseInt connCntStr 32 = Some connCnt /\ maxConns <= connCnt) ->
  result env (PublicKeyHandler maxConns ctx key) s = false /\
  Forall (fun ev => isHIncrBy (ev_op ev) = false)
         (trace env (PublicKeyHandler maxConns ctx key) s).
Proof.
  unfold PublicKeyHandler.
  exec_all.
  all: intros Hget.
  all: try (split; [reflexivity | repeat constructor]).
  all: exfalso.
  all: match goal with
       | H : respond _ (HGet _ _) _ = (?str, ?e, _) |- _ =>
           destruct (Hget str e) as (connCnt & Hparse & Hmax);
           [cbn [In]; auto 10 |]
       end.
  all: match goal with
       | H : match strconv.ParseInt _ _ with _ => _ end = false |- _ =>
           rewrite Hparse in H; apply Z.leb_gt in H; lia
       end.
Qed.

Lemma at_limit_denied_without_increment_witness :
  let env := storeEnv (scriptEnv (openNetwork toLocalRedis)) in
  result env (PublicKeyHandler 5 alice aliceKey) (aliceAtLimit, tt) = false /\
  Forall (fun ev => isHIncrBy (ev_op ev) = false)
         (trace env (PublicKeyHandler 5 alice aliceKey) (aliceAtLimit, tt)).
Proof.
  apply (at_limit_denied_without_increment
           (storeEnv (scriptEnv (openNetwork toLocalRedis))) (aliceAtLimit, tt)
           5 alice aliceKey).
  intros connCntStr e Hin. exists 5.
  vm_compute in Hin.
  destruct Hin as [Hin | [Hin | [Hin | [Hin | []]]]];
    try (apply (f_equal ev_op) in Hin; discriminate Hin).
  apply Ev_inj in Hin. injection Hin as <- <-.
  split; [reflexivity | lia].
Defined.

(** C7: when the attempt read the quota counter and the value read does not
    parse as a 32-bit integer, the limit is not checked: the attempt goes on
    to increment the counter by one, and it is admitted exactly when that
    increment reports no error. *)
Theorem unparseable_count_fails_open {S} (env : Env S) (s : S)
    (maxConns : Z) (ctx : ssh.Context) (key : ssh.PublicKey)
    (connCntStr : string) (e : option error) :
  In (Ev (HGet connections (ssh.User ctx)) (connCntStr, e))
     (trace env (PublicKeyHandler maxConns ctx key) s) ->
  strconv.ParseInt connCntStr 32 = None ->
  exists (n : Z) (err : option error),
    In (Ev (HIncrBy connections (ssh.User ctx) 1) (n, err))
       (trace env (PublicKeyHandler maxConns ctx key) s) /\
    result env (PublicKeyHandler maxConns ctx key) s = negb (isErr err).
Proof.
  unfold PublicKeyHandler.
  exec_all.
  all: intros Hget Hparse.
  all: ev_in Hget.
  all: try (rewrite Hparse in *; discriminate).
  all: eexists _, _; (split; [cbn [In]; eauto 10 |]).
  all: match goal with H : isErr _ = _ |- _ => rewrite H end; reflexivity.
Qed.

Lemma unparseable_count_fails_open_witness :
  let env := storeEnv (scriptEnv (openNetwork toLocalRedis)) in
  exists (n : Z) (err : option error),
    In (Ev (HIncrBy connections (ssh.User alice) 1) (n, err))
       (trace env (PublicKeyHandler 5 alice aliceKey) (aliceOverflown, tt)) /\
    result env (PublicKeyHandler 5 alice aliceKey) (aliceOverflown, tt) = negb (isErr err).
Proof.
  apply (unparseable_count_fails_open
           (storeEnv (scriptEnv (openNetwork toLocalRedis))) (aliceOverflown, tt)
           5 alice aliceKey "4294967296" None).
  - vm_compute. right. right. left. reflexivity.
  - reflexivity.
Defined.

(** Against the model of Redis: a counter far above the maximum of 5 is
    not seen as a number, and the attempt is admitted. *)
Example overflown_count_admitted :
  let env := storeEnv (scriptEnv (openNetwork toLocalRedis)) in
  result env (PublicKeyHandler 5 alice aliceKey) (aliceOverflown, tt) = true /\
  Redis.hfield (fst (final env (PublicKeyHandler 5 alice aliceKey) (aliceOverflown, tt)))
               connections (ssh.User alice) = Some "4294967297".
Proof. split; vm_compute; reflexivity. Qed.

(** A counter that was never written reads as the empty string, which does
    not parse either: the first attempt of an identity is admitted. *)
Example first_attempt_admitted :
  let env := storeEnv (scriptEnv (openNetwork toLocalRedis)) in
  let st := storeWith [memberOf alice aliceKey] [] in
  result env (PublicKeyHandler 5 alice aliceKey) (st, tt) = true /\
  Redis.hfield (fst (final env (PublicKeyHandler 5 alice aliceKey) (st, tt)))
               connections (ssh.User alice) = Some "1".
Proof. split; vm_compute; reflexivity. Qed.

(** The counter goes to one with the admission and back to zero when the
    goroutine started by the callback has seen the session end. *)
Example session_end_decrements :
  match exec (storeEnv (scriptEnv (openNetwork toLocalRedis)))
             (repeat (Handler 0) 6 ++ repeat (Goroutine 0) 2) endedSession with
  | Some sys' =>
      map returned (handlers sys') = [Some true] /\
      Redis.hfield (fst (world sys')) connections (ssh.User alice) = Some "0"
  | None => False
  end.
Proof. vm_compute. split; reflexivity. Qed.

(** ** The copied version string *)

Example copyVersion_disabled :
  trace (scriptEnv (referenceServer "SSH-2.0-OpenSSH_9.6"))
        (copyVersion false "192.0.2.1:22" 3 "OpenSSH_8.9") tt = [] /\
  result (scriptEnv (referenceServer "SSH-2.0-OpenSSH_9.6"))
         (copyVersion false "192.0.2.1:22" 3 "OpenSSH_8.9") tt = "OpenSSH_8.9".
Proof. split; reflexivity. Qed.

(** C8, as stated, fails on its second half: this response does not start
    with the prefix "SSH-2.0-" (it starts with a line break), and the
    advertised version is replaced all the same, because the prefix is
    looked for after the trimming.  Nor is every whitespace character
    trimmed: a leading space makes a response invalid. *)
Lemma response_with_leading_newline_copied :
  let line := crlf +:+ "SSH-2.0-dropbear" +:+ crlf in
  GoString.HasPrefix line "SSH-2.0-" = false /\
  snd (result (scriptEnv (referenceServer line))
              (copyVersionRound "192.0.2.1:22" (freshBuf, "OpenSSH_8.9")) tt) = "dropbear" /\
  snd (result (scriptEnv (referenceServer (" SSH-2.0-dropbear" +:+ crlf)))
              (copyVersionRound "192.0.2.1:22" (freshBuf, "OpenSSH_8.9")) tt) = "OpenSSH_8.9".
Proof. repeat split; vm_compute; reflexivity. Qed.

(** C8, amended: when the line "SSH-2.0-OpenSSH_9.6\r\n" is read without
    error into the fresh, zeroed 256-byte buffer, the advertised version
    becomes "OpenSSH_9.6"; and whenever the buffer left by a round, cut at
    its first null byte and trimmed of line feeds, tabs and carriage returns
    at both ends, does not start with "SSH-2.0-", the advertised version is
    the one from before the round. *)
Theorem copied_version_string {S} (env : Env S) (s : S)
    (copyVersionString buf Version : string) :
  let out := result env (copyVersionRound copyVersionString (buf, Version)) s in
  let tr := trace env (copyVersionRound copyVersionString (buf, Version)) s in
  (forall conn, buf = freshBuf ->
     In (Ev (Read conn) ("SSH-2.0-OpenSSH_9.6" +:+ crlf, None)) tr ->
     snd out = "OpenSSH_9.6") /\
  (GoString.HasPrefix (GoString.Trim (untilNull (fst out)) cutset) "SSH-2.0-" = false ->
   snd out = Version).
Proof.
  intros out tr. subst out tr. unfold copyVersionRound.
  exec_all.
  all: cbn [fst snd]; split.
  all: try (intros Hnot; first [ reflexivity | rewrite Hnot in *; discriminate ]).
  all: intros conn -> Hread; ev_in Hread.
  all: match goal with
       | H : readInto _ _ = _ |- _ => vm_compute in H; injection H; intros; subst
       end.
  all: try discriminate.
  all: try (vm_compute; reflexivity).
  all: exfalso; match goal with H : negb _ = true |- _ => vm_compute in H; discriminate H end.
Qed.

Lemma copied_version_string_witness :
  let env := scriptEnv (referenceServer ("SSH-2.0-OpenSSH_9.6" +:+ crlf)) in
  let out := result env (copyVersionRound "192.0.2.1:22" (freshBuf, "OpenSSH_8.9")) tt in
  snd out = "OpenSSH_9.6" /\
  (GoString.HasPrefix
     (GoString.Trim
        (untilNull (fst (result (scriptEnv (referenceServer ("HTTP/1.1 400 Bad Request" +:+ crlf)))
                                (copyVersionRound "192.0.2.1:22" (freshBuf, "OpenSSH_8.9")) tt)))
        cutset) "SSH-2.0-" = false /\
   snd (result (scriptEnv (referenceServer ("HTTP/1.1 400 Bad Request" +:+ crlf)))
               (copyVersionRound "192.0.2.1:22" (freshBuf, "OpenSSH_8.9")) tt) = "OpenSSH_8.9").
Proof.
  split.
  - apply (proj1 (copied_version_string
                    (scriptEnv (referenceServer ("SSH-2.0-OpenSSH_9.6" +:+ crlf))) tt
                    "192.0.2.1:22" freshBuf "OpenSSH_8.9") (Conn 7)).
    + reflexivity.
    + vm_compute. right. left. reflexivity.
  - assert (H : GoString.HasPrefix
     (GoString.Trim
        (untilNull (fst (result (scriptEnv (referenceServer ("HTTP/1.1 400 Bad Request" +:+ crlf)))
                                (copyVersionRound "192.0.2.1:22" (freshBuf, "OpenSSH_8.9")) tt)))
        cutset) "SSH-2.0-" = false) by (vm_compute; reflexivity).
    split; [exact H |].
    apply (proj2 (copied_version_string
                    (scriptEnv (referenceServer ("HTTP/1.1 400 Bad Request" +:+ crlf))) tt
                    "192.0.2.1:22" freshBuf "OpenSSH_8.9")).
    exact H.
Defined.

(** ** Decimal printing and parsing agree *)

Lemma digit_char (d : Z) :
  0 <= d < 10 ->
  GoString.isDigit (GoString.ascii_of (48 + d)) = true /\
  GoString.byte_of (GoString.ascii_of (48 + d)) - 48 = d /\
  Ascii.eqb (GoString.ascii_of (48 + d)) "+" = false /\
  Ascii.eqb (GoString.ascii_of (48 + d)) "-" = false.
Proof.
  intros H.
  assert (Hd : d = 0 \/ d = 1 \/ d = 2 \/ d = 3 \/ d = 4 \/ d = 5 \/ d = 6
               \/ d = 7 \/ d = 8 \/ d = 9) by lia.
  repeat (destruct Hd as [-> | Hd]; [vm_compute; auto |]). subst d. vm_compute; auto.
Qed.

Lemma parseUintLoop_step (M : Z) (c : ascii) (rest : string) (n d : Z) :
  GoString.isDigit c = true -> GoString.byte_of c - 48 = d ->
  0 <= d < 10 -> 0 <= n -> n * 10 + d <= M -> M <= strconv.maxUint64 ->
  strconv.parseUintLoop M (String c rest) n = strconv.parseUintLoop M rest (n * 10 + d).
Proof.
  intros Hc Hd Hrange Hn HM Hmax. cbn [strconv.parseUintLoop]. rewrite Hc, Hd.
  unfold strconv.maxUint64 in *.
  change (2 ^ 64) with 18446744073709551616 in *.
  change ((18446744073709551616 - 1) / 10 + 1) with 1844674407370955162.
  destruct (Z.leb_spec 1844674407370955162 n) as [Hbig | _]; [lia |].
  rewrite (Z.mod_small (n * 10)) by lia.
  rewrite (Z.mod_small (n * 10 + d)) by lia.
  destruct (Z.ltb_spec (n * 10 + d) (n * 10)) as [Hlt | _]; [lia |].
  destruct (Z.ltb_spec M (n * 10 + d)) as [Hlt | _]; [lia |].
  reflexivity.
Qed.

Lemma parseUintLoop_formatBits (M : Z) (fuel : nat) :
  M <= strconv.maxUint64 ->
  forall (u : Z) (acc : string),
    0 <= u < 10 ^ Z.of_nat fuel -> u <= M ->
    strconv.parseUintLoop M (strconv.formatBits fuel u acc) 0
    = strconv.parseUintLoop M acc u.
Proof.
  intros Hmax. induction fuel as [| fuel IH]; intros u acc Hu HM.
  - simpl in *. assert (u = 0) by lia. subst u. reflexivity.
  - cbn [strconv.formatBits].
    assert (Hd : 0 <= u mod 10 < 10) by (apply Z.mod_pos_bound; lia).
    destruct (digit_char (u mod 10) Hd) as (Hdig & Hval & _ & _).
    assert (Hdiv : u = u / 10 * 10 + u mod 10).
    { rewrite Z.mul_comm. apply Z.div_mod. lia. }
    destruct (Z.ltb_spec u 10) as [Hsmall | Hlarge].
    + rewrite (parseUintLoop_step M _ acc 0 (u mod 10)); try assumption; try lia.
      rewrite Z.mod_small by lia. reflexivity.
    + rewrite IH.
      * rewrite (parseUintLoop_step M _ acc (u / 10) (u mod 10)); try assumption.
        -- rewrite <- Hdiv. reflexivity.
        -- apply Z.div_pos; lia.
        -- lia.
      * split; [apply Z.div_pos; lia |].
        apply Z.div_lt_upper_bound; [lia |].
        rewrite Nat2Z.inj_succ, Z.pow_succ_r in Hu by lia. lia.
      * assert (0 <= u / 10) by (apply Z.div_pos; lia). lia.
Qed.

Lemma formatBits_head (fuel : nat) (u : Z) (acc : string) :
  0 <= u ->
  exists c rest,
    strconv.formatBits (S fuel) u acc = String c rest /\
    GoString.isDigit c = true /\ Ascii.eqb c "+" = false /\ Ascii.eqb c "-" = false.
Proof.
  revert u acc. induction fuel as [| fuel IH]; intros u acc Hu.
  - cbn [strconv.formatBits].
    assert (Hd : 0 <= u mod 10 < 10) by (apply Z.mod_pos_bound; lia).
    destruct (digit_char (u mod 10) Hd) as (Hdig & _ & Hp & Hm).
    destruct (u <? 10); eauto 6.
  - change (strconv.formatBits (S (S fuel)) u acc)
      with (let acc' := String (GoString.ascii_of (48 + u mod 10)) acc in
            if u <? 10 then acc' else strconv.formatBits (S fuel) (u / 10) acc').
    cbv zeta.
    assert (Hd : 0 <= u mod 10 < 10) by (apply Z.mod_pos_bound; lia).
    destruct (digit_char (u mod 10) Hd) as (Hdig & _ & Hp & Hm).
    destruct (u <? 10); [eauto 6 |].
    apply IH. apply Z.div_pos; lia.
Qed.

(** Printing a number and parsing it back, at 32 or at 64 bits. *)
Lemma ParseInt_FormatInt (bitSize z : Z) :
  bitSize = 32 \/ bitSize = 64 ->
  - 2 ^ (bitSize - 1) <= z < 2 ^ (bitSize - 1) ->
  strconv.ParseInt (strconv.FormatInt z) bitSize = Some z.
Proof.
  intros Hb Hz.
  assert (Hpow : 2 ^ (bitSize - 1) <= 2 ^ 63 /\ 2 ^ bitSize - 1 <= strconv.maxUint64
                 /\ 2 * 2 ^ (bitSize - 1) = 2 ^ bitSize).
  { destruct Hb as [-> | ->]; vm_compute; repeat split; congruence. }
  destruct Hpow as (H63 & HM & Hdouble).
  change (2 ^ 63) with 9223372036854775808 in H63.
  assert (H20 : 10 ^ Z.of_nat 20 = 100000000000000000000) by reflexivity.
  unfold strconv.FormatInt.
  destruct (Z.ltb_spec z 0) as [Hneg | Hpos].
  - destruct (formatBits_head 19 (- z) EmptyString ltac:(lia)) as (c & rest & Heq & _).
    cbn [strconv.ParseInt Ascii.eqb Bool.eqb]. cbv iota beta.
    unfold strconv.ParseUint. rewrite Heq, <- Heq.
    rewrite parseUintLoop_formatBits by (try assumption; lia).
    cbn [strconv.parseUintLoop negb andb].
    destruct (Z.ltb_spec (2 ^ (bitSize - 1)) (- z)) as [Hlt | _]; [lia |].
    f_equal. lia.
  - destruct (formatBits_head 19 z EmptyString Hpos) as (c & rest & Heq & _ & Hp & Hm).
    rewrite Heq. cbn [strconv.ParseInt]. rewrite Hp, Hm.
    unfold strconv.ParseUint. rewrite <- Heq. rewrite Heq at 1. rewrite <- Heq.
    rewrite parseUintLoop_formatBits by (try assumption; lia).
    cbn [strconv.parseUintLoop negb andb].
    destruct (Z.leb_spec (2 ^ (bitSize - 1)) z) as [Hle | _]; [lia |].
    reflexivity.
Qed.

(** ** The Redis model *)

Lemma string2ll_FormatInt (z : Z) :
  - 2 ^ 63 <= z < 2 ^ 63 -> Redis.string2ll (strconv.FormatInt z) = Some z.
Proof.
  intros Hz. unfold Redis.string2ll.
  rewrite (ParseInt_FormatInt 64 z) by (auto; exact Hz).
  rewrite String.eqb_refl. reflexivity.
Qed.

Lemma string2ll_canonical (v : string) (z : Z) :
  Redis.string2ll v = Some z -> v = strconv.FormatInt z.
Proof.
  unfold Redis.string2ll. destruct (strconv.ParseInt v 64) as [z' |]; [| discriminate].
  destruct (String.eqb_spec (strconv.FormatInt z') v) as [Heq | _]; [| discriminate].
  intros [= <-]. symmetry. exact Heq.
Qed.

Lemma hfield_hset (st : Redis.state) (key field value key' field' : string) :
  Redis.hfield (Redis.hset st key field value) key' field'
  = if decide (key = key' /\ field = field') then Some value
    else Redis.hfield st key' field'.
Proof.
  unfold Redis.hfield, Redis.hset. simpl.
  destruct (decide (key = key')) as [<- | Hk].
  - rewrite lookup_insert_eq. simpl.
    destruct (decide (field = field')) as [<- | Hf].
    + rewrite lookup_insert_eq. rewrite decide_True by done. reflexivity.
    + rewrite lookup_insert_ne by done. rewrite decide_False by tauto.
      destruct (Redis.hashes st !! key); reflexivity.
  - rewrite lookup_insert_ne by done. rewrite decide_False by tauto. reflexivity.
Qed.

Lemma counter_hset (st : Redis.state) (key field value key' field' : string) :
  Redis.counter (Redis.hset st key field value) key' field'
  = if decide (key = key' /\ field = field') then Redis.string2ll value
    else Redis.counter st key' field'.
Proof. unfold Redis.counter. rewrite hfield_hset. case_decide; reflexivity. Qed.

(** [HINCRBY] on a field that stands for [c]: the new value is stored and
    returned when it fits 64 bits. *)
Lemma hincrby_ok (st : Redis.state) (key field : string) (incr c : Z) :
  Redis.counter st key field = Some c ->
  - 2 ^ 63 <= c + incr < 2 ^ 63 ->
  Redis.hincrby st key field incr
  = ((c + incr, None), Redis.hset st key field (strconv.FormatInt (c + incr))).
Proof.
  intros Hc Hrange. unfold Redis.hincrby, Redis.counter in *. rewrite Hc.
  destruct (Z.ltb_spec (c + incr) (- 2 ^ 63)) as [H | _]; [lia |].
  destruct (Z.ltb_spec (2 ^ 63 - 1) (c + incr)) as [H | _]; [lia |].
  reflexivity.
Qed.

(** A non-negative [HINCRBY] never lowers the number a field stands for,
    and no [HINCRBY] touches another field. *)
Lemma hincrby_monotone (st : Redis.state) (key field : string) (incr : Z)
    (key' field' : string) (c : Z) :
  (key = key' -> field = field' -> 0 <= incr) ->
  Redis.counter st key' field' = Some c ->
  exists c', Redis.counter (snd (Redis.hincrby st key field incr)) key' field' = Some c'
             /\ c <= c'.
Proof.
  intros Hincr Hc. unfold Redis.hincrby.
  destruct (match Redis.hfield st key field with
            | Some v => Redis.string2ll v | None => Some 0 end) as [cur |] eqn:Hcur;
    [| exists c; simpl; split; [assumption | lia]].
  destruct ((cur + incr <? - 2 ^ 63) || (2 ^ 63 - 1 <? cur + incr)) eqn:Hover;
    [exists c; simpl; split; [assumption | lia] |].
  apply orb_false_elim in Hover as [H1 H2].
  apply Z.ltb_ge in H1, H2. cbn [snd]. rewrite counter_hset.
  destruct (decide (key = key' /\ field = field')) as [[<- <-] | Hne].
  - unfold Redis.counter in Hc. rewrite Hc in Hcur. injection Hcur as <-.
    exists (c + incr). rewrite string2ll_FormatInt by lia.
    split; [reflexivity |]. specialize (Hincr eq_refl eq_refl). lia.
  - exists c. split; [assumption | lia].
Qed.

(** ** Concurrent admission attempts of one identity *)

Lemma count_insert (f : phase -> bool) (l : list phase) (i : nat) (x y : phase) :
  l !! i = Some y ->
  (count f (<[i := x]> l) + (if f y then 1 else 0)
   = count f l + (if f x then 1 else 0))%nat.
Proof.
  unfold count. revert i. induction l as [| a l IH]; intros i Hi; [discriminate |].
  destruct i as [| i]; simpl in *.
  - injection Hi as ->. destruct (f x), (f y); simpl; lia.
  - specialize (IH i Hi). destruct (f a); simpl; lia.
Qed.

Lemma rankSum_insert_lt (l : list phase) (i : nat) (x y : phase) :
  l !! i = Some y -> (rank x < rank y)%nat ->
  (rankSum (<[i := x]> l) < rankSum l)%nat.
Proof.
  unfold rankSum. revert i. induction l as [| a l IH]; intros i Hi Hlt; [discriminate |].
  destruct i as [| i]; simpl in *.
  - injection Hi as ->. lia.
  - specialize (IH i Hi Hlt). lia.
Qed.

Lemma count_pos_lookup (f : phase -> bool) (l : list phase) :
  (0 < count f l)%nat -> exists i x, l !! i = Some x /\ f x = true.
Proof.
  unfold count. induction l as [| a l IH]; simpl; [lia |].
  destruct (f a) eqn:Hf.
  - intros _. exists 0%nat, a. split; [reflexivity | assumption].
  - intros H. destruct (IH H) as (i & x & Hi & Hx). exists (S i), x. split; assumption.
Qed.

Lemma count_pos_elem (f : phase -> bool) (l : list phase) (x : phase) :
  In x l -> f x = true -> (0 < count f l)%nat.
Proof.
  unfold count. induction l as [| a l IH]; simpl; [tauto |].
  intros [-> | Hin] Hf.
  - rewrite Hf. simpl. lia.
  - destruct (f a); simpl; [lia | auto].
Qed.

Lemma count_le (f g : phase -> bool) (l : list phase) :
  (forall x, f x = true -> g x = true) -> (count f l <= count g l)%nat.
Proof.
  intros Hfg. unfold count. induction l as [| a l IH]; simpl; [lia |].
  destruct (f a) eqn:Hf.
  - rewrite (Hfg a Hf). simpl. lia.
  - destruct (g a); simpl; lia.
Qed.

Lemma isHeld_release (m : mutex) (l : list mutex) : isHeld m (release m l) = false.
Proof.
  unfold isHeld, release. induction l as [| a l IH]; [reflexivity |].
  rewrite filter_cons. case_decide as Hd; simpl; [| exact IH].
  rewrite IH. apply negb_true_iff in Hd. rewrite Hd. reflexivity.
Qed.

Section QuotaRace.

Context {S : Type} (outside : Env S).
Variables (maxConns : Z) (userId : string).
Hypothesis Hmax : 1 <= maxConns < 2 ^ 31.
Hypothesis Hlen : GoString.len userId = 36.

Lemma stepProg_Start ctx key doneCh sys :
  ssh.User ctx = userId -> ssh.Done ctx = Some doneCh ->
  Redis.sismember (fst (world sys)) users (memberOf ctx key) = true ->
  stepProg (storeEnv outside) (PublicKeyHandler maxConns ctx key) sys
  = Some (progOf maxConns userId (WaitLock doneCh), setWorld sys (world sys)).
Proof.
  intros Huser Hdone Hmem. unfold memberOf in Hmem. unfold PublicKeyHandler.
  rewrite Huser in *. rewrite Hlen, Hdone. cbn [Z.eqb Pos.eqb negb].
  unfold call. cbn [mbind Prog_bind bind stepProg].
  destruct (world sys) as [st s] eqn:Hw.
  cbn [respond storeEnv]. cbn [fst] in Hmem. rewrite Hmem.
  reflexivity.
Qed.

Lemma stepProg_WaitLock doneCh sys :
  stepProg (storeEnv outside) (progOf maxConns userId (WaitLock doneCh)) sys
  = if isHeld userConnectionCountMutex (held sys) then None
    else Some (progOf maxConns userId (Reading doneCh),
               setHeld sys (userConnectionCountMutex :: held sys)).
Proof. reflexivity. Qed.

Lemma stepProg_Reading doneCh sys :
  stepProg (storeEnv outside) (progOf maxConns userId (Reading doneCh)) sys
  = Some (progOf maxConns userId
            (afterRead maxConns doneCh (fst (Redis.hget (fst (world sys)) connections userId))),
          setWorld sys (world sys)).
Proof.
  unfold progOf, withDefer, quotaBody, call. cbn [mbind Prog_bind bind stepProg].
  destruct (world sys) as [st s]. cbn [respond storeEnv fst].
  destruct (Redis.hget st connections userId) as [connCntStr e]. cbn [fst].
  unfold afterRead.
  destruct (match strconv.ParseInt connCntStr 32 with
            | Some connCnt => maxConns <=? connCnt
            | None => false
            end); reflexivity.
Qed.

Lemma stepProg_Incrementing doneCh sys :
  stepProg (storeEnv outside) (progOf maxConns userId (Incrementing doneCh)) sys
  = Some (progOf maxConns userId
            (afterIncr doneCh
               (snd (fst (Redis.hincrby (fst (world sys)) connections userId 1)))),
          setWorld sys (snd (Redis.hincrby (fst (world sys)) connections userId 1),
                        snd (world sys))).
Proof.
  unfold progOf, incrTail, call. cbn [mbind Prog_bind bind stepProg].
  destruct (world sys) as [st s]. cbn [respond storeEnv fst snd].
  destruct (Redis.hincrby st connections userId 1) as [[n err] st']. cbn [fst snd].
  unfold afterIncr. destruct (isErr err); reflexivity.
Qed.

Lemma stepProg_Spawning doneCh sys :
  stepProg (storeEnv outside) (progOf maxConns userId (Spawning doneCh)) sys
  = Some (progOf maxConns userId (Unlocking true),
          setGoroutines sys (goroutines sys ++ [taskBody (DecrementOnDone doneCh userId)])).
Proof. reflexivity. Qed.

Lemma stepProg_Unlocking b sys :
  stepProg (storeEnv outside) (progOf maxConns userId (Unlocking b)) sys
  = Some (progOf maxConns userId (Returned b),
          setHeld sys (release userConnectionCountMutex (held sys))).
Proof. reflexivity. Qed.

Lemma afterRead_spec st c doneCh :
  Redis.counter st connections userId = Some c ->
  maxConns - 1 <= c <= maxConns ->
  afterRead maxConns doneCh (fst (Redis.hget st connections userId))
  = if c =? maxConns then Unlocking false else Incrementing doneCh.
Proof.
  intros Hc Hrange. unfold Redis.counter in Hc. unfold Redis.hget, afterRead.
  change (2 ^ 31) with 2147483648 in Hmax.
  destruct (Redis.hfield st connections userId) as [v |]; cbn [fst].
  - apply string2ll_canonical in Hc. subst v.
    rewrite (ParseInt_FormatInt 32 c) by (auto; change (2 ^ (32 - 1)) with 2147483648; lia).
    destruct (Z.eqb_spec c maxConns) as [-> | Hne].
    + rewrite Z.leb_refl. reflexivity.
    + destruct (Z.leb_spec maxConns c); [lia | reflexivity].
  - injection Hc as <-.
    destruct (Z.eqb_spec 0 maxConns); [lia | reflexivity].
Qed.

(** Every step of the scheduler keeps the invariant. *)
Lemma quotaInv_step phs sys t sys' :
  quotaInv maxConns userId phs sys -> step (storeEnv outside) t sys = Some sys' ->
  exists phs', quotaInv maxConns userId phs' sys' /\ length phs' = length phs /\
               (rankSum phs' < rankSum phs)%nat.
Proof.
  intros (Hh & Hg & Hcl & Hst & (c & Hc & Hadm & Hle & Hinc & Hden) & Hcs) Hstep.
  destruct t as [i | j]; cbn [step] in Hstep.
  2:{ exfalso. destruct (goroutines sys !! j) as [g |] eqn:Hj; [| discriminate].
      rewrite Forall_forall in Hg.
      destruct (Hg g) as (ch & u & ->); [eapply list_elem_of_lookup_2; eauto |].
      cbn in Hstep. rewrite Hcl in Hstep. discriminate. }
  destruct (handlers sys !! i) as [p |] eqn:Hi; [| discriminate].
  rewrite Hh, list_lookup_fmap in Hi.
  destruct (phs !! i) as [ph |] eqn:Hph; [| discriminate].
  injection Hi as <-. cbn [mbind option_bind] in Hstep.
  pose proof (count_insert isAdmitted phs i) as Ca.
  pose proof (count_insert isIncrementing phs i) as Ci.
  pose proof (count_insert isDenied phs i) as Cd.
  pose proof (count_insert inCritical phs i) as Cc.
  assert (Hok : startOk userId (fst (world sys)) ph).
  { rewrite Forall_forall in Hst. apply Hst. eapply list_elem_of_lookup_2; eauto. }
  assert (Hfm : forall ph', <[i := progOf maxConns userId ph']> (handlers sys)
                            = map (progOf maxConns userId) (<[i := ph']> phs)).
  { intros ph'. rewrite Hh. symmetry. apply list_fmap_insert. }
  destruct ph as [ctx key | doneCh | doneCh | doneCh | doneCh | b | b];
    cbn [startOk] in Hok.
  - (* SIsMember *)
    destruct Hok as (Huser & [doneCh Hdone] & Hmem). cbn [progOf] in Hstep.
    rewrite (stepProg_Start ctx key doneCh sys Huser Hdone Hmem) in Hstep.
    injection Hstep as <-.
    exists (<[i := WaitLock doneCh]> phs). split; [| split; [apply length_insert | apply (rankSum_insert_lt phs i _ _ Hph); cbn; lia]].
    specialize (Ca (WaitLock doneCh) _ Hph). specialize (Ci (WaitLock doneCh) _ Hph).
    specialize (Cd (WaitLock doneCh) _ Hph). specialize (Cc (WaitLock doneCh) _ Hph).
    cbn in Ca, Ci, Cd, Cc.
    unfold quotaInv. cbn [handlers goroutines held closed world setHandlers setWorld].
    repeat split; try assumption.
    + match goal with |- _ = map _ (<[_ := ?x]> _) => exact (Hfm x) end.
    + apply Forall_insert; [assumption | exact I].
    + exists c. repeat split; try assumption; try lia.
    + lia.
  - (* Lock *)
    rewrite stepProg_WaitLock in Hstep.
    destruct (isHeld userConnectionCountMutex (held sys)) eqn:Hheld; [discriminate |].
    injection Hstep as <-.
    exists (<[i := Reading doneCh]> phs). split; [| split; [apply length_insert | apply (rankSum_insert_lt phs i _ _ Hph); cbn; lia]].
    specialize (Ca (Reading doneCh) _ Hph). specialize (Ci (Reading doneCh) _ Hph).
    specialize (Cd (Reading doneCh) _ Hph). specialize (Cc (Reading doneCh) _ Hph).
    cbn in Ca, Ci, Cd, Cc.
    unfold quotaInv. cbn [handlers goroutines held closed world setHandlers setHeld].
    repeat split; try assumption.
    + match goal with |- _ = map _ (<[_ := ?x]> _) => exact (Hfm x) end.
    + apply Forall_insert; [assumption | exact I].
    + exists c. repeat split; try assumption; try lia.
    + cbn. lia.
  - (* HGet *)
    rewrite stepProg_Reading in Hstep. injection Hstep as <-.
    assert (Hadm0 : (1 <= count inCritical phs)%nat).
    { apply (count_pos_elem inCritical phs (Reading doneCh)); [| reflexivity].
      apply list_elem_of_In. eapply list_elem_of_lookup_2; eauto. }
    rewrite (afterRead_spec _ c) by (try assumption; lia).
    destruct (Z.eqb_spec c maxConns) as [Heq | Hne].
    + exists (<[i := Unlocking false]> phs). split; [| split; [apply length_insert | apply (rankSum_insert_lt phs i _ _ Hph); cbn; lia]].
      specialize (Ca (Unlocking false) _ Hph). specialize (Ci (Unlocking false) _ Hph).
      specialize (Cd (Unlocking false) _ Hph). specialize (Cc (Unlocking false) _ Hph).
      cbn in Ca, Ci, Cd, Cc.
      unfold quotaInv. cbn [handlers goroutines held closed world setHandlers setWorld].
      repeat split; try assumption.
      * match goal with |- _ = map _ (<[_ := ?x]> _) => exact (Hfm x) end.
      * apply Forall_insert; [assumption | exact I].
      * exists c. repeat split; try assumption; try lia.
      * lia.
    + exists (<[i := Incrementing doneCh]> phs). split; [| split; [apply length_insert | apply (rankSum_insert_lt phs i _ _ Hph); cbn; lia]].
      specialize (Ca (Incrementing doneCh) _ Hph). specialize (Ci (Incrementing doneCh) _ Hph).
      specialize (Cd (Incrementing doneCh) _ Hph). specialize (Cc (Incrementing doneCh) _ Hph).
      cbn in Ca, Ci, Cd, Cc.
      unfold quotaInv. cbn [handlers goroutines held closed world setHandlers setWorld].
      repeat split; try assumption.
      * match goal with |- _ = map _ (<[_ := ?x]> _) => exact (Hfm x) end.
      * apply Forall_insert; [assumption | exact I].
      * exists c. repeat split; try assumption; try lia.
      * lia.
  - (* HIncrBy *)
    rewrite stepProg_Incrementing in Hstep. injection Hstep as <-.
    assert (Hc1 : c = maxConns - 1).
    { apply Hinc. apply (count_pos_elem isIncrementing phs (Incrementing doneCh)); [| reflexivity].
      apply list_elem_of_In. eapply list_elem_of_lookup_2; eauto. }
    assert (Hone : (count inCritical phs = 1)%nat).
    { assert (0 < count inCritical phs)%nat.
      { apply (count_pos_elem inCritical phs (Incrementing doneCh)); [| reflexivity].
        apply list_elem_of_In. eapply list_elem_of_lookup_2; eauto. }
      destruct (isHeld userConnectionCountMutex (held sys)); lia. }
    change (2 ^ 31) with 2147483648 in Hmax.
    rewrite (hincrby_ok _ _ _ 1 c Hc)
      by (change (2 ^ 63) with 9223372036854775808; lia).
    cbn [fst snd afterIncr isErr].
    exists (<[i := Spawning doneCh]> phs). split; [| split; [apply length_insert | apply (rankSum_insert_lt phs i _ _ Hph); cbn; lia]].
    specialize (Ca (Spawning doneCh) _ Hph). specialize (Ci (Spawning doneCh) _ Hph).
    specialize (Cd (Spawning doneCh) _ Hph). specialize (Cc (Spawning doneCh) _ Hph).
    cbn in Ca, Ci, Cd, Cc.
    unfold quotaInv. cbn [handlers goroutines held closed world setHandlers setWorld fst snd].
    repeat split; try assumption.
    + match goal with |- _ = map _ (<[_ := ?x]> _) => exact (Hfm x) end.
    + apply Forall_insert; [| exact I].
      eapply Forall_impl; [exact Hst |]. intros ph Hph'.
      destruct ph; simpl in *; tauto.
    + exists (c + 1). rewrite counter_hset. rewrite decide_True by done.
      rewrite string2ll_FormatInt by (change (2 ^ 63) with 9223372036854775808; lia).
      assert (Hii : (count isIncrementing phs <= count inCritical phs)%nat).
      { apply count_le. intros [] ?; simpl in *; congruence. }
      repeat split; try lia.
    + lia.
  - (* Go *)
    rewrite stepProg_Spawning in Hstep. injection Hstep as <-.
    exists (<[i := Unlocking true]> phs). split; [| split; [apply length_insert | apply (rankSum_insert_lt phs i _ _ Hph); cbn; lia]].
    specialize (Ca (Unlocking true) _ Hph). specialize (Ci (Unlocking true) _ Hph).
    specialize (Cd (Unlocking true) _ Hph). specialize (Cc (Unlocking true) _ Hph).
    cbn in Ca, Ci, Cd, Cc.
    unfold quotaInv. cbn [handlers goroutines held closed world setHandlers setGoroutines].
    repeat split; try assumption.
    + match goal with |- _ = map _ (<[_ := ?x]> _) => exact (Hfm x) end.
    + apply Forall_app. split; [assumption |]. repeat constructor. eauto.
    + apply Forall_insert; [assumption | exact I].
    + exists c. repeat split; try assumption; try lia.
    + lia.
  - (* Unlock *)
    rewrite stepProg_Unlocking in Hstep. injection Hstep as <-.
    assert (Hone : (count inCritical phs = 1)%nat).
    { assert (0 < count inCritical phs)%nat.
      { apply (count_pos_elem inCritical phs (Unlocking b)); [| reflexivity].
        apply list_elem_of_In. eapply list_elem_of_lookup_2; eauto. }
      destruct (isHeld userConnectionCountMutex (held sys)); lia. }
    exists (<[i := Returned b]> phs). split; [| split; [apply length_insert | apply (rankSum_insert_lt phs i _ _ Hph); cbn; lia]].
    specialize (Ca (Returned b) _ Hph). specialize (Ci (Returned b) _ Hph).
    specialize (Cd (Returned b) _ Hph). specialize (Cc (Returned b) _ Hph).
    cbn in Ca, Ci, Cd, Cc.
    unfold quotaInv. cbn [handlers goroutines held closed world setHandlers setHeld].
    rewrite isHeld_release.
    repeat split; try assumption.
    + match goal with |- _ = map _ (<[_ := ?x]> _) => exact (Hfm x) end.
    + apply Forall_insert; [assumption | exact I].
    + exists c. destruct b; repeat split; try assumption; try lia.
    + lia.
  - (* returned *)
    discriminate Hstep.
Qed.

Lemma quotaInv_exec schedule : forall phs sys sys',
  quotaInv maxConns userId phs sys -> exec (storeEnv outside) schedule sys = Some sys' ->
  exists phs', quotaInv maxConns userId phs' sys' /\ length phs' = length phs /\
               (length schedule + rankSum phs' <= rankSum phs)%nat.
Proof.
  induction schedule as [| t rest IH]; intros phs sys sys' Hinv Hexec.
  - injection Hexec as <-. exists phs.
    split; [assumption | split; [reflexivity | simpl; lia]].
  - cbn [exec] in Hexec.
    destruct (step (storeEnv outside) t sys) as [sys1 |] eqn:Hstep; [| discriminate].
    destruct (quotaInv_step _ _ _ _ Hinv Hstep) as (phs1 & Hinv1 & Hlen1 & Hrank1).
    destruct (IH _ _ _ Hinv1 Hexec) as (phs' & Hinv' & Hlen' & Hrank').
    exists phs'. split; [assumption | split; [congruence | simpl; lia]].
Qed.

Lemma rankSum_initial (attempts : list (ssh.Context * ssh.PublicKey)) :
  rankSum (map (fun a => Start (fst a) (snd a)) attempts) = (6 * length attempts)%nat.
Proof.
  unfold rankSum. induction attempts as [| a l IH]; simpl in *; lia.
Qed.

(** No deadlock: while an attempt has not returned, some handler can
    take a step. *)
Lemma quotaInv_progress phs sys :
  quotaInv maxConns userId phs sys ->
  allReturned (handlers sys) \/ exists i sys', step (storeEnv outside) (Handler i) sys = Some sys'.
Proof.
  intros (Hh & _ & _ & Hst & _ & Hcs).
  assert (Hstep : forall i ph,
             phs !! i = Some ph ->
             inCritical ph = true \/
             (isHeld userConnectionCountMutex (held sys) = false /\ rank ph <> 0%nat) ->
             exists sys', step (storeEnv outside) (Handler i) sys = Some sys').
  { intros i ph Hph Hen. cbn [step]. rewrite Hh, list_lookup_fmap, Hph.
    cbn [fmap option_fmap option_map mbind option_bind].
    assert (Hok : startOk userId (fst (world sys)) ph).
    { rewrite Forall_forall in Hst. apply Hst. eapply list_elem_of_lookup_2; eauto. }
    destruct ph as [ctx key | doneCh | doneCh | doneCh | doneCh | b | b];
      cbn [inCritical rank startOk] in *.
    - destruct Hok as (Hu & [doneCh Hd] & Hm). cbn [progOf].
      rewrite (stepProg_Start ctx key doneCh sys Hu Hd Hm). eauto.
    - destruct Hen as [Hen | [Hfree _]]; [discriminate |].
      rewrite stepProg_WaitLock, Hfree. eauto.
    - rewrite stepProg_Reading. eauto.
    - rewrite stepProg_Incrementing. eauto.
    - rewrite stepProg_Spawning. eauto.
    - rewrite stepProg_Unlocking. eauto.
    - destruct Hen as [Hen | [_ Hen]]; [discriminate | contradiction]. }
  destruct (isHeld userConnectionCountMutex (held sys)) eqn:Hheld.
  - right. destruct (count_pos_lookup inCritical phs ltac:(lia)) as (i & ph & Hph & Hin).
    destruct (Hstep i ph Hph (or_introl Hin)) as [sys' Hs]. eauto.
  - destruct (Nat.eq_dec (count (fun ph => negb (Nat.eqb (rank ph) 0)) phs) 0%nat) as [Hz | Hnz].
    + left. rewrite Hh. unfold allReturned. clear - Hz.
      unfold count in Hz. induction phs as [| ph phs IH]; [constructor |].
      cbn [List.filter map] in *.
      destruct ph; cbn [rank Nat.eqb negb length] in Hz; try discriminate Hz.
      constructor; [eexists; reflexivity | apply IH; exact Hz].
    + right.
      assert (Hpos : (0 < count (fun ph => negb (Nat.eqb (rank ph) 0)) phs)%nat) by lia.
      destruct (count_pos_lookup _ phs Hpos) as (i & ph & Hph & Hr).
      apply negb_true_iff, Nat.eqb_neq in Hr.
      destruct (Hstep i ph Hph (or_intror (conj eq_refl Hr))) as [sys' Hs]. eauto.
Qed.

Lemma quotaInv_initial attempts st (s : S) :
  Forall (fun a => startOk userId st (Start (fst a) (snd a))) attempts ->
  Redis.counter st connections userId = Some (maxConns - 1) ->
  quotaInv maxConns userId (map (fun a => Start (fst a) (snd a)) attempts)
           (attemptsSys maxConns attempts st s).
Proof.
  intros Hok Hc.
  assert (Hzero : forall f, (forall ctx key, f (Start ctx key) = false) ->
                            count f (map (fun a => Start (fst a) (snd a)) attempts) = 0%nat).
  { intros f Hf. unfold count. induction attempts as [| a l IH]; [reflexivity |].
    simpl. rewrite Hf. apply IH. inversion Hok; assumption. }
  unfold quotaInv, attemptsSys. cbn [handlers goroutines held closed world fst].
  rewrite !Hzero by reflexivity.
  repeat split.
  - rewrite map_map. reflexivity.
  - constructor.
  - rewrite Forall_map. exact Hok.
  - exists (maxConns - 1). repeat split; try assumption; lia.
Qed.

Lemma returned_Start ctx key :
  ssh.User ctx = userId -> returned (PublicKeyHandler maxConns ctx key) = None.
Proof.
  intros Hu. unfold PublicKeyHandler. rewrite Hu, Hlen. reflexivity.
Qed.

(** Once every attempt has returned, the admitted ones are those counted
    by the invariant, and each attempt was admitted or denied. *)
Lemma returned_counts st phs :
  Forall (startOk userId st) phs ->
  allReturned (map (progOf maxConns userId) phs) ->
  admitted (map (progOf maxConns userId) phs) = count isAdmitted phs /\
  (count isAdmitted phs + count isDenied phs = length phs)%nat.
Proof.
  unfold allReturned, admitted, count.
  induction phs as [| ph phs IH]; intros Hok Hret; [split; reflexivity |].
  inversion Hok as [| ? ? Hok1 Hok2]; subst.
  inversion Hret as [| ? ? Hr1 Hr2]; subst.
  destruct (IH Hok2 Hr2) as [IH1 IH2].
  destruct ph as [ctx key | | | | | | b]; cbn [map progOf] in *;
    try (destruct Hr1 as [x Hx]; discriminate Hx).
  - destruct Hok1 as (Hu & _). rewrite (returned_Start _ _ Hu) in Hr1.
    destruct Hr1 as [x Hx]. discriminate Hx.
  - rewrite filter_cons. cbn [returned List.filter isAdmitted isDenied].
    destruct b; [rewrite decide_True by done | rewrite decide_False by done];
      cbn [length]; split; lia.
Qed.

Lemma quotaInv_final phs (sys : Sys (Redis.state * S)) :
  quotaInv maxConns userId phs sys -> phs <> [] -> allReturned (handlers sys) ->
  admitted (handlers sys) = 1%nat /\
  Redis.counter (fst (world sys)) connections userId = Some maxConns.
Proof.
  intros (Hh & _ & _ & Hst & (c & Hc & Hadm & Hle & _ & Hden) & _) Hne Hret.
  rewrite Hh in *.
  destruct (returned_counts _ _ Hst Hret) as [Ha Hsum].
  assert (0 < length phs)%nat by (destruct phs; [contradiction | simpl; lia]).
  assert (count isAdmitted phs = 1)%nat by lia.
  split; [congruence |]. rewrite Hc. f_equal. lia.
Qed.

End QuotaRace.

(** C6: [attempts] are admission attempts of one identity, each with a
    listed key and a live session, started together while the identity's
    counter stands at the maximum minus one; the store answers every call
    and no session ends meanwhile.  Whatever the scheduler does: it cannot
    run more than six steps per attempt; as long as an attempt has not
    returned some handler can take a step; and once all have returned,
    exactly one was admitted and the counter stands at the maximum. *)
Theorem one_admission_below_limit {S : Type} (outside : Env S)
    (maxConns : Z) (userId : string)
    (attempts : list (ssh.Context * ssh.PublicKey))
    (st : Redis.state) (s : S) (schedule : list tid) (sys' : Sys (Redis.state * S)) :
  1 <= maxConns < 2 ^ 31 ->
  GoString.len userId = 36 ->
  attempts <> [] ->
  Forall (fun a => ssh.User (fst a) = userId /\ is_Some (ssh.Done (fst a)) /\
                   Redis.sismember st users (memberOf (fst a) (snd a)) = true) attempts ->
  Redis.counter st connections userId = Some (maxConns - 1) ->
  exec (storeEnv outside) schedule (attemptsSys maxConns attempts st s) = Some sys' ->
  (length schedule <= 6 * length attempts)%nat /\
  (allReturned (handlers sys') \/
   exists i sys'', step (storeEnv outside) (Handler i) sys' = Some sys'') /\
  (allReturned (handlers sys') ->
   admitted (handlers sys') = 1%nat /\
   Redis.counter (fst (world sys')) connections userId = Some maxConns).
Proof.
  intros Hmax Hlen Hne Hok Hc Hexec.
  pose proof (quotaInv_initial maxConns userId attempts st s Hok Hc) as Hinit.
  destruct (quotaInv_exec outside maxConns userId Hmax Hlen schedule _ _ _ Hinit Hexec)
    as (phs' & Hinv & Hlength & Hrank).
  rewrite rankSum_initial in Hrank. rewrite length_map in Hlength.
  split; [lia |]. split.
  - exact (quotaInv_progress outside maxConns userId Hlen _ _ Hinv).
  - apply (quotaInv_final maxConns userId Hlen _ _ Hinv).
    intros ->. destruct attempts; [contradiction | discriminate].
Qed.

Example interleaved_outcome :
  match exec (storeEnv (scriptEnv (openNetwork toLocalRedis))) interleaved
             (attemptsSys 5 threeAttempts aliceBelowLimit tt) with
  | Some sys' =>
      map returned (handlers sys') = [Some false; Some true; Some false] /\
      Redis.hfield (fst (world sys')) connections (ssh.User alice) = Some "5" /\
      goroutines sys' = [taskBody (DecrementOnDone 11%nat (ssh.User alice))]
  | None => False
  end.
Proof. vm_compute. repeat split. Qed.

(** The mutex is what serializes them: the first handler cannot take it
    while the second is between its read and its increment. *)
Example lock_blocks_second_reader :
  exec (storeEnv (scriptEnv (openNetwork toLocalRedis)))
       [Handler 0; Handler 1; Handler 1; Handler 1; Handler 0]%nat
       (attemptsSys 5 threeAttempts aliceBelowLimit tt) = None.
Proof. vm_compute. reflexivity. Qed.

Lemma one_admission_below_limit_witness :
  match exec (storeEnv (scriptEnv (openNetwork toLocalRedis))) interleaved
             (attemptsSys 5 threeAttempts aliceBelowLimit tt) with
  | Some sys' =>
      (length interleaved <= 6 * length threeAttempts)%nat /\
      (allReturned (handlers sys') \/
       exists i sys'', step (storeEnv (scriptEnv (openNetwork toLocalRedis)))
                            (Handler i) sys' = Some sys'') /\
      (allReturned (handlers sys') ->
       admitted (handlers sys') = 1%nat /\
       Redis.counter (fst (world sys')) connections (ssh.User alice) = Some 5)
  | None => False
  end.
Proof.
  destruct (exec (storeEnv (scriptEnv (openNetwork toLocalRedis))) interleaved
                 (attemptsSys 5 threeAttempts aliceBelowLimit tt)) as [sys' |] eqn:Hexec.
  - apply (one_admission_below_limit (scriptEnv (openNetwork toLocalRedis)) 5
             (ssh.User alice) threeAttempts aliceBelowLimit tt interleaved sys').
    + vm_compute. split; [discriminate | reflexivity].
    + reflexivity.
    + discriminate.
    + repeat constructor; try (eexists; reflexivity); vm_compute; reflexivity.
    + vm_compute. reflexivity.
    + exact Hexec.
  - vm_compute in Hexec. discriminate Hexec.
Defined.

(** ** Usage accounting *)

(** One relay direction: when [io.Copy] has returned [written], with or
    without an error, the goroutine performs exactly one [HIncrBy], on the
    usage counter of the session's identity and by [written], then closes
    both ends. *)
Lemma relay_records_written {S} (env : Env S) (s : S)
    (dst src ch dconn : endpoint) (userID : string) (written : Z) (err : option error) :
  In (Ev (IoCopy dst src) (written, err))
     (trace env (taskBody (Relay dst src ch dconn userID)) s) ->
  exists r,
    trace env (taskBody (Relay dst src ch dconn userID)) s
    = [ Ev (IoCopy dst src) (written, err);
        Ev (HIncrBy usersUsage userID written) r;
        Ev (Close dconn) tt;
        Ev (Close ch) tt ].
Proof.
  unfold taskBody. exec_all. intros Hin. ev_in Hin. eexists. reflexivity.
Qed.

Ltac safe_tac :=
  repeat first
    [ progress (unfold call, withDefer; cbn [bind mbind mret Prog_bind Prog_ret usageSafe opSafe respOk])
    | exact I
    | discriminate
    | split
    | progress intros
    | match goal with
      | r : resp _ |- _ => cbn [resp] in r; destruct r
      | r : _ * _ |- _ => destruct r
      | |- context [match ?x with _ => _ end] => destruct x
      | |- context [if ?c then _ else _] => destruct c
      end ].

Lemma usageSafe_taskBody (t : task) : usageSafe (taskBody t).
Proof.
  destruct t; unfold taskBody; safe_tac. assumption.
Qed.

Lemma usageSafe_PublicKeyHandler maxConns ctx key :
  usageSafe (PublicKeyHandler maxConns ctx key).
Proof. unfold PublicKeyHandler. safe_tac. Qed.

Lemma usageSafe_directTCPIPClosure SocksProxyAddr srv ctx :
  usageSafe (directTCPIPClosure SocksProxyAddr srv ctx).
Proof. unfold directTCPIPClosure. safe_tac. Qed.

Lemma usageLe_refl st : usageLe st st.
Proof. intros u c Hc. exists c. split; [assumption | lia]. Qed.

Lemma usageLe_trans st1 st2 st3 : usageLe st1 st2 -> usageLe st2 st3 -> usageLe st1 st3.
Proof.
  intros H12 H23 u c Hc. destruct (H12 u c Hc) as (c2 & Hc2 & Hle2).
  destruct (H23 u c2 Hc2) as (c3 & Hc3 & Hle3). exists c3. split; [assumption | lia].
Qed.

Section Usage.

Context {S : Type} (outside : Env S).
Hypothesis Hcopy : copyContract outside.

Lemma stepProg_usage {A : Type} (p p' : Prog A) (sys sys' : Sys (Redis.state * S)) :
  usageSafe p -> stepProg (storeEnv outside) p sys = Some (p', sys') ->
  usageSafe p' /\
  handlers sys' = handlers sys /\
  (Forall usageSafe (goroutines sys) -> Forall usageSafe (goroutines sys')) /\
  usageLe (fst (world sys)) (fst (world sys')).
Proof.
  intros Hsafe Hstep. destruct p as [a | o k]; [discriminate |].
  destruct Hsafe as [Ho Hk].
  destruct o; cbn [stepProg] in Hstep; cbn [respond storeEnv] in Hstep;
    try (destruct (world sys) as [st s] eqn:Hw).
  all: repeat match type of Hstep with
              | context [respond outside ?o ?s] =>
                  let r := fresh "r" in
                  let E := fresh "E" in
                  destruct (respond outside o s) as [r ?] eqn:E
              | context [if ?c then _ else _] => destruct c
              | context [Redis.hincrby ?a ?b ?c ?d] =>
                  let E := fresh "E" in
                  destruct (Redis.hincrby a b c d) as [? ?] eqn:E
              end.
  all: try discriminate Hstep.
  all: injection Hstep as <- <-.
  all: cbn [handlers goroutines world setWorld setHeld setGoroutines fst snd].
  all: try rewrite Hw.
  all: split; [apply Hk | split; [reflexivity | split]].
  all: cbn [respOk fst]; try exact I; try (intros H; exact H); try apply usageLe_refl.
  - (* HIncrBy *)
    intros u c Hc. cbn [opSafe] in Ho.
    pose proof (hincrby_monotone st key field incr usersUsage u c) as Hm.
    rewrite E in Hm. cbn [snd] in Hm. apply Hm; [| exact Hc].
    intros Hkey _. apply Ho, Hkey.
  - (* Go *)
    intros Hg. apply Forall_app. split; [assumption |].
    repeat constructor. apply usageSafe_taskBody.
  - (* IoCopy *)
    pose proof (Hcopy dst src s) as Hn. rewrite E in Hn. exact Hn.
Qed.

(** Along any schedule of threads that are safe, no usage counter that
    holds a number ever holds a smaller one. *)
Lemma exec_usage schedule : forall sys sys',
  Forall usageSafe (handlers sys) -> Forall usageSafe (goroutines sys) ->
  exec (storeEnv outside) schedule sys = Some sys' ->
  usageLe (fst (world sys)) (fst (world sys')).
Proof.
  induction schedule as [| t rest IH]; intros sys sys' Hh Hg Hexec.
  - injection Hexec as <-. apply usageLe_refl.
  - cbn [exec] in Hexec.
    destruct (step (storeEnv outside) t sys) as [sys1 |] eqn:Hstep; [| discriminate].
    cbn [mbind option_bind] in Hexec.
    assert (H1 : Forall usageSafe (handlers sys1) /\ Forall usageSafe (goroutines sys1)
                 /\ usageLe (fst (world sys)) (fst (world sys1))).
    { destruct t as [i | j]; cbn [step] in Hstep.
      - destruct (handlers sys !! i) as [p |] eqn:Hi; [| discriminate].
        cbn [mbind option_bind] in Hstep.
        destruct (stepProg (storeEnv outside) p sys) as [[p' sys2] |] eqn:Hp; [| discriminate].
        injection Hstep as <-.
        assert (Hsafe : usageSafe p).
        { rewrite Forall_forall in Hh. apply Hh. eapply list_elem_of_lookup_2; eauto. }
        destruct (stepProg_usage _ _ _ _ Hsafe Hp) as (Hp' & Hhs & Hgs & Hle).
        cbn [handlers goroutines world setHandlers]. rewrite Hhs.
        split; [apply Forall_insert; assumption | split; [auto | assumption]].
      - destruct (goroutines sys !! j) as [p |] eqn:Hj; [| discriminate].
        cbn [mbind option_bind] in Hstep.
        destruct (stepProg (storeEnv outside) p sys) as [[p' sys2] |] eqn:Hp; [| discriminate].
        injection Hstep as <-.
        assert (Hsafe : usageSafe p).
        { rewrite Forall_forall in Hg. apply Hg. eapply list_elem_of_lookup_2; eauto. }
        destruct (stepProg_usage _ _ _ _ Hsafe Hp) as (Hp' & Hhs & Hgs & Hle).
        cbn [handlers goroutines world setGoroutines]. rewrite Hhs.
        split; [assumption | split; [apply Forall_insert; auto | assumption]]. }
    destruct H1 as (Hh1 & Hg1 & Hle1).
    eapply usageLe_trans; [exact Hle1 |]. apply (IH sys1 sys'); assumption.
Qed.

End Usage.

Lemma coreHandler_safe (p : Prog bool) : coreHandler p -> usageSafe p.
Proof. intros (maxConns & ctx & key & ->). apply usageSafe_PublicKeyHandler. Qed.

Lemma coreGoroutine_safe (p : Prog unit) : coreGoroutine p -> usageSafe p.
Proof.
  intros [(proxy & srv & ctx & ->) | (t & ->)];
    [apply usageSafe_directTCPIPClosure | apply usageSafe_taskBody].
Qed.

(** C9: with an [io.Copy] that reports non-negative byte counts and a store
    that follows the Redis model: a relay goroutine whose copy returned
    [written], with or without an error, performs exactly one [HIncrBy], on
    the usage counter of its identity and by [written], which is not
    negative; and however the public-key callbacks, channel handlers and
    goroutines of the core are interleaved, the usage counter of an
    identity never goes from a number to a smaller one. *)
Theorem usage_counted_once_and_never_lowered {S : Type} (outside : Env S) :
  copyContract outside ->
  (forall (st : Redis.state) (s : S) (dst src ch dconn : endpoint) (userID : string)
          (written : Z) (err : option error),
      In (Ev (IoCopy dst src) (written, err))
         (trace (storeEnv outside) (taskBody (Relay dst src ch dconn userID)) (st, s)) ->
      0 <= written /\
      exists r,
        trace (storeEnv outside) (taskBody (Relay dst src ch dconn userID)) (st, s)
        = [ Ev (IoCopy dst src) (written, err);
            Ev (HIncrBy usersUsage userID written) r;
            Ev (Close dconn) tt;
            Ev (Close ch) tt ]) /\
  (forall (sys sys' : Sys (Redis.state * S)) (schedule : list tid),
      Forall coreHandler (handlers sys) ->
      Forall coreGoroutine (goroutines sys) ->
      exec (storeEnv outside) schedule sys = Some sys' ->
      usageLe (fst (world sys)) (fst (world sys'))).
Proof.
  intros Hcopy. split.
  - intros st s dst src ch dconn userID written err Hin.
    split; [| exact (relay_records_written _ _ _ _ _ _ _ _ _ Hin)].
    revert Hin. unfold taskBody. exec_all. intros Hin. ev_in Hin.
    match goal with
    | H : respond (storeEnv outside) (IoCopy _ _) _ = _ |- _ =>
        cbn [respond storeEnv] in H;
        pose proof (Hcopy dst src s) as Hn;
        destruct (respond outside (IoCopy dst src) s) as [[n e] s'];
        injection H; intros; subst; exact Hn
    end.
  - intros sys sys' schedule Hh Hg Hexec.
    apply (exec_usage outside Hcopy schedule sys sys'); [| | exact Hexec].
    + eapply Forall_impl; [exact Hh | exact coreHandler_safe].
    + eapply Forall_impl; [exact Hg | exact coreGoroutine_safe].
Qed.

Example tunnel_usage :
  match exec (storeEnv (scriptEnv busyTunnel)) tunnelSchedule tunnelSys with
  | Some sys' => Redis.hfield (fst (world sys')) usersUsage (ssh.User alice) = Some "2568"
  | None => False
  end.
Proof. vm_compute. reflexivity. Qed.

Lemma busyTunnel_copyContract : copyContract (scriptEnv busyTunnel).
Proof. intros dst src s. cbn. lia. Defined.

Lemma usage_counted_once_and_never_lowered_witness :
  (0 <= 1234 /\
   exists r,
     trace (storeEnv (scriptEnv busyTunnel))
           (taskBody (Relay (Channel 1) (Conn 1) (Channel 1) (Conn 1) (ssh.User alice)))
           (aliceUsed100, tt)
     = [ Ev (IoCopy (Channel 1) (Conn 1)) (1234, Some (ErrOther "connection reset by peer"));
         Ev (HIncrBy usersUsage (ssh.User alice) 1234) r;
         Ev (Close (Conn 1)) tt;
         Ev (Close (Channel 1)) tt ]) /\
  match exec (storeEnv (scriptEnv busyTunnel)) tunnelSchedule tunnelSys with
  | Some sys' => usageLe (fst (world tunnelSys)) (fst (world sys'))
  | None => False
  end.
Proof.
  destruct (usage_counted_once_and_never_lowered (scriptEnv busyTunnel)
              busyTunnel_copyContract) as [Hrelay Hmono].
  split.
  - apply (Hrelay aliceUsed100 tt (Channel 1) (Conn 1) (Channel 1) (Conn 1) (ssh.User alice)
                  1234 (Some (ErrOther "connection reset by peer"))).
    vm_compute. left. reflexivity.
  - destruct (exec (storeEnv (scriptEnv busyTunnel)) tunnelSchedule tunnelSys)
      as [sys' |] eqn:Hexec.
    + apply (Hmono tunnelSys sys' tunnelSchedule).
      * constructor.
      * constructor; [| constructor].
        left. eexists _, _, _. reflexivity.
      * exact Hexec.
    + vm_compute in Hexec. discriminate Hexec.
Defined.

(** ** A host:port pair is never an IP literal *)

Lemma colons_app (a b : string) : colons (a +:+ b) = (colons a + colons b)%nat.
Proof. induction a as [| c a IH]; simpl; [reflexivity | rewrite IH; lia]. Qed.

Lemma containsByte_colons (s : string) :
  GoString.containsByte s net.colon = false -> colons s = 0%nat.
Proof.
  induction s as [| c s IH]; simpl; [reflexivity |].
  destruct (Ascii.eqb c net.colon); [discriminate |]. exact IH.
Qed.

Lemma parseIPv4FieldsLoop_colon (s : string) :
  (0 < colons s)%nat ->
  forall first prevDot val pos digLen fields,
    net.parseIPv4FieldsLoop s first prevDot val pos digLen fields = None.
Proof.
  induction s as [| c s IH]; simpl; [lia |].
  intros Hc first prevDot val pos digLen fields.
  destruct (Ascii.eqb_spec c net.colon) as [-> | Hne].
  - reflexivity.
  - simpl in Hc. specialize (IH Hc).
    destruct (GoString.isDigit c).
    + destruct ((digLen =? 1) && (val =? 0)); [reflexivity |].
      destruct (255 <? val * 10 + (GoString.byte_of c - 48)); [reflexivity | apply IH].
    + destruct (Ascii.eqb c net.dot); [| reflexivity].
      destruct (first || net.isEmpty s || prevDot); [reflexivity |].
      destruct (pos =? 3)%nat; [reflexivity | apply IH].
Qed.

Lemma hexRun_colons (s : string) :
  forall off acc off' acc' rest,
    net.hexRun s off acc = Some (off', acc', rest) -> colons rest = colons s.
Proof.
  induction s as [| c s IH]; simpl; intros off acc off' acc' rest H.
  - injection H as _ _ <-. reflexivity.
  - destruct (net.hexVal c) as [d |] eqn:Hd.
    + destruct (3 <? off); [discriminate |].
      destruct (65535 <? _); [discriminate |].
      rewrite (IH _ _ _ _ _ H).
      destruct (Ascii.eqb_spec c net.colon) as [-> | _]; [discriminate Hd | reflexivity].
    + injection H as _ _ <-. reflexivity.
Qed.

(** With at most one colon ahead and no ellipsis, the loop of [parseIPv6]
    fails or stops after at most two groups. *)
Lemma parseIPv6Loop_few_colons (fuel : nat) :
  forall (s : string) (i : Z) (ip : net.IP),
    0 <= i -> i + 2 * Z.of_nat (colons s) <= 2 ->
    net.parseIPv6Loop fuel s i ip (-1) = None \/
    exists s' i' ip', net.parseIPv6Loop fuel s i ip (-1) = Some (s', i', ip', -1) /\ i' <= 4.
Proof.
  induction fuel as [| fuel IH]; intros s i ip Hi Hc; cbn [net.parseIPv6Loop].
  - right. exists s, i, ip. split; [reflexivity | lia].
  - destruct (16 <=? i); [right; exists s, i, ip; split; [reflexivity | lia] |].
    destruct (net.hexRun s 0 0) as [[[off acc] rest] |] eqn:Hrun; [| left; reflexivity].
    apply hexRun_colons in Hrun.
    destruct (off =? 0); [left; reflexivity |].
    destruct (GoString.HasPrefix rest ".").
    { destruct (Z.eqb_spec i 12) as [-> | _]; [lia | left; reflexivity]. }
    destruct rest as [| c rest1].
    { right. eexists _, _, _. split; [reflexivity | lia]. }
    destruct (Ascii.eqb_spec c net.colon) as [-> | Hne]; [| left; reflexivity].
    cbn [negb]. simpl in Hrun.
    destruct rest1 as [| c1 rest2]; [left; reflexivity |].
    destruct (Ascii.eqb_spec c1 net.colon) as [-> | Hne1].
    { simpl in Hrun. lia. }
    apply IH; [lia |]. lia.
Qed.

Lemma splitZone_colons (s : string) :
  (colons (fst (net.splitZone s)) <= colons s)%nat.
Proof.
  induction s as [| c s IH]; simpl; [lia |].
  destruct (Ascii.eqb c net.percent) eqn:Hp.
  - simpl. lia.
  - destruct (net.splitZone s) as [a z]. simpl in *. lia.
Qed.

Lemma HasPrefix_two_colons (s : string) :
  GoString.HasPrefix s "::" = true -> (2 <= colons s)%nat.
Proof.
  destruct s as [| c [| c1 s]]; simpl; try discriminate.
  - destruct (Ascii.eqb c ":"); discriminate.
  - change net.colon with ":"%char.
    destruct (Ascii.eqb c ":"); [| discriminate].
    destruct (Ascii.eqb c1 ":"); [lia | discriminate].
Qed.

(** An IPv6 literal has at least two colons. *)
Lemma parseIPv6_few_colons (s : string) :
  (colons s <= 1)%nat -> net.parseIPv6 s = None.
Proof.
  intros Hc. unfold net.parseIPv6.
  pose proof (splitZone_colons s) as Hz.
  destruct (net.splitZone s) as [a z]. cbn [fst] in Hz.
  destruct z as [[| zc zrest] |]; [reflexivity | |].
  all: destruct (GoString.HasPrefix a "::") eqn:Hp;
         [apply HasPrefix_two_colons in Hp; lia |].
  all: destruct (parseIPv6Loop_few_colons 8 a 0 net.zeros16 ltac:(lia) ltac:(lia))
         as [-> | (s' & i' & ip' & -> & Hi')]; [reflexivity |].
  all: destruct (negb (net.isEmpty s')); [reflexivity |].
  all: destruct (Z.ltb_spec i' 16); [reflexivity | lia].
Qed.

(** Nor does one start with a bracket. *)
Lemma parseIPv6_bracket (rest : string) : net.parseIPv6 (String "[" rest) = None.
Proof.
  unfold net.parseIPv6. cbn [net.splitZone]. change (Ascii.eqb "[" net.percent) with false.
  cbv iota. destruct (net.splitZone rest) as [a z].
  destruct z as [[| zc zrest] |]; [reflexivity | |].
  all: reflexivity.
Qed.

Lemma parseAddrScan_none (whole : string) :
  net.parseIPv4 whole = None -> net.parseIPv6 whole = None ->
  forall s, net.parseAddrScan whole s = None.
Proof.
  intros H4 H6 s. induction s as [| c s IH]; simpl; [reflexivity |].
  rewrite H4, H6. destruct (Ascii.eqb c net.dot); [reflexivity |].
  destruct (Ascii.eqb c net.colon); [reflexivity |].
  destruct (Ascii.eqb c net.percent); [reflexivity | exact IH].
Qed.

Lemma ParseIP_JoinHostPort (host port : string) :
  colons port = 0%nat -> net.ParseIP (net.JoinHostPort host port) = None.
Proof.
  intros Hport. unfold net.ParseIP, net.JoinHostPort.
  destruct (GoString.containsByte host net.colon) eqn:Hhost.
  - rewrite parseAddrScan_none; [reflexivity | | apply parseIPv6_bracket].
    unfold net.parseIPv4, net.parseIPv4Fields.
    rewrite parseIPv4FieldsLoop_colon; [reflexivity |].
    cbn [String.append colons]. rewrite !colons_app. simpl. lia.
  - apply containsByte_colons in Hhost.
    assert (Hone : colons (host +:+ ":" +:+ port) = 1%nat).
    { rewrite !colons_app, Hhost, Hport. reflexivity. }
    rewrite parseAddrScan_none; [reflexivity | | apply parseIPv6_few_colons; lia].
    unfold net.parseIPv4, net.parseIPv4Fields.
    rewrite parseIPv4FieldsLoop_colon; [reflexivity | lia].
Qed.

Lemma formatBits_colons (fuel : nat) :
  forall u acc, colons acc = 0%nat -> colons (strconv.formatBits fuel u acc) = 0%nat.
Proof.
  induction fuel as [| fuel IH]; intros u acc Hacc; cbn [strconv.formatBits]; [exact Hacc |].
  assert (Hd : 0 <= u mod 10 < 10) by (apply Z.mod_pos_bound; lia).
  assert (Hc : colons (String (GoString.ascii_of (48 + u mod 10)) acc) = 0%nat).
  { cbn [colons]. rewrite Hacc.
    assert (Hcases : u mod 10 = 0 \/ u mod 10 = 1 \/ u mod 10 = 2 \/ u mod 10 = 3
                     \/ u mod 10 = 4 \/ u mod 10 = 5 \/ u mod 10 = 6 \/ u mod 10 = 7
                     \/ u mod 10 = 8 \/ u mod 10 = 9) by lia.
    repeat (destruct Hcases as [-> | Hcases]; [reflexivity |]). rewrite Hcases. reflexivity. }
  destruct (u <? 10); [exact Hc | apply IH, Hc].
Qed.

Lemma FormatInt_colons (i : Z) : colons (strconv.FormatInt i) = 0%nat.
Proof.
  unfold strconv.FormatInt. destruct (i <? 0).
  - cbn [colons]. rewrite formatBits_colons; reflexivity.
  - apply formatBits_colons. reflexivity.
Qed.

(** What [isLocalIP] is asked at main.go:85 is never local. *)
Lemma isLocalIP_JoinHostPort (host : string) (port : Z) :
  isLocalIP (net.JoinHostPort host (strconv.FormatInt port)) = false.
Proof.
  unfold isLocalIP. rewrite ParseIP_JoinHostPort; [reflexivity | apply FormatInt_colons].
Qed.

Lemma parseIPv4FieldsLoop_letter (s : string) :
  digitsAndDots s = false ->
  forall first prevDot val pos digLen fields,
    net.parseIPv4FieldsLoop s first prevDot val pos digLen fields = None.
Proof.
  induction s as [| c s IH]; cbn [digitsAndDots net.parseIPv4FieldsLoop]; [discriminate |].
  intros Hs first prevDot val pos digLen fields.
  destruct (GoString.isDigit c) eqn:Hd.
  - cbn [orb andb] in Hs. specialize (IH Hs).
    destruct ((digLen =? 1) && (val =? 0)); [reflexivity |].
    destruct (255 <? val * 10 + (GoString.byte_of c - 48)); [reflexivity | apply IH].
  - destruct (Ascii.eqb c net.dot) eqn:Hdot; [| reflexivity].
    cbn [orb andb] in Hs. specialize (IH Hs).
    destruct (first || net.isEmpty s || prevDot); [reflexivity |].
    destruct (pos =? 3)%nat; [reflexivity | apply IH].
Qed.

Lemma parseAddrScan_no_colon (whole : string) :
  net.parseIPv4 whole = None ->
  forall s, colons s = 0%nat -> net.parseAddrScan whole s = None.
Proof.
  intros H4 s. induction s as [| c s IH]; cbn [net.parseAddrScan colons]; [reflexivity |].
  intros Hc. rewrite H4. destruct (Ascii.eqb c net.dot); [reflexivity |].
  destruct (Ascii.eqb c net.colon); [discriminate Hc |].
  destruct (Ascii.eqb c net.percent); [reflexivity | apply IH, Hc].
Qed.

(** A name without a colon that holds anything but digits and dots is no
    IP literal. *)
Lemma ParseIP_hostname (s : string) :
  colons s = 0%nat -> digitsAndDots s = false -> net.ParseIP s = None.
Proof.
  intros Hc Hl. unfold net.ParseIP.
  rewrite parseAddrScan_no_colon; [reflexivity | | exact Hc].
  unfold net.parseIPv4, net.parseIPv4Fields.
  rewrite parseIPv4FieldsLoop_letter; [reflexivity | exact Hl].
Qed.

(** C10: a string that [net.ParseIP] does not accept as an IP literal is
    classified as non-local by [isLocalIP].  Such are every name without a
    colon that holds a character other than a decimal digit or a dot (every
    hostname), and every host:port pair built by [net.JoinHostPort] from a
    port without a colon. *)
Theorem isLocalIP_false_unless_IP_literal :
  (forall dhost : string, net.ParseIP dhost = None -> isLocalIP dhost = false) /\
  (forall hostname : string,
      colons hostname = 0%nat -> digitsAndDots hostname = false ->
      isLocalIP hostname = false) /\
  (forall host port : string,
      colons port = 0%nat -> isLocalIP (net.JoinHostPort host port) = false).
Proof.
  assert (H : forall dhost, net.ParseIP dhost = None -> isLocalIP dhost = false).
  { intros dhost Hnone. unfold isLocalIP. rewrite Hnone. reflexivity. }
  split; [exact H |]. split.
  - intros hostname Hc Hl. apply H, ParseIP_hostname; assumption.
  - intros host port Hc. apply H, ParseIP_JoinHostPort, Hc.
Qed.

Lemma isLocalIP_false_unless_IP_literal_witness :
  (net.ParseIP "fe80::1%eth0" = None /\ isLocalIP "fe80::1%eth0" = false) /\
  isLocalIP "localhost" = false /\
  isLocalIP "db.internal.example" = false /\
  isLocalIP (net.JoinHostPort "127.0.0.1" "6379") = false /\
  isLocalIP (net.JoinHostPort "::1" "6379") = false.
Proof.
  destruct isLocalIP_false_unless_IP_literal as (Hnone & Hname & Hpair).
  split; [split; [reflexivity | apply (Hnone "fe80::1%eth0"); reflexivity] |].
  split; [apply (Hname "localhost"); reflexivity |].
  split; [apply (Hname "db.internal.example"); reflexivity |].
  split; [apply (Hpair "127.0.0.1" "6379"); reflexivity |].
  apply (Hpair "::1" "6379"). reflexivity.
Defined.

(** With a proxy address configured the handler never dials directly,
    whatever the destination. *)
Lemma proxy_configured_no_direct_dial {S} (env : Env S) (s : S)
    (SocksProxyAddr : string) (srv : ssh.Server) (ctx : ssh.Context) :
  GoString.len SocksProxyAddr <> 0 ->
  Forall (fun ev => isDirectDial (ev_op ev) = false)
         (trace env (directTCPIPClosure SocksProxyAddr srv ctx) s).
Proof.
  intros Hproxy. unfold directTCPIPClosure.
  destruct (Z.eqb_spec (GoString.len SocksProxyAddr) 0) as [Hz | _]; [contradiction |].
  exec_all.
  all: try (repeat constructor).
  all: match goal with
       | H : _ && negb (isLocalIP (net.JoinHostPort _ _)) = false |- _ =>
           rewrite isLocalIP_JoinHostPort in H; discriminate H
       end.
Qed.

(** C3, the code at the failing input: the string tested by [isLocalIP] at
    main.go:85 is the host:port pair to which [dest] was rebound at
    main.go:80, and such a string is never classified as local.  So with a
    proxy configured, a forward to 127.0.0.1:6379, which is classified as
    local and permitted by the whitelist, is dialed through the SOCKS proxy
    and not directly. *)
Theorem permitted_local_forward_dialed_through_proxy :
  (forall (host : string) (port : Z),
      isLocalIP (net.JoinHostPort host (strconv.FormatInt port)) = false) /\
  isLocalIP "127.0.0.1" = true /\
  LocalPortForwardingCallback [6379] "127.0.0.1" 6379 = true /\
  trace (scriptEnv (openNetwork toLocalRedis))
        (directTCPIPClosure "127.0.0.1:1080" (server [6379]) alice) tt
  = [ Ev UnmarshalExtraData (toLocalRedis, None);
      Ev (ResolveIPAddr "ip4" "127.0.0.1") ("127.0.0.1", None);
      Ev (SOCKS5 "tcp" "127.0.0.1:1080") None;
      Ev (ProxyDial "tcp" "127.0.0.1:6379") (Conn 1, None);
      Ev Accept (Channel 1, None);
      Ev (Go DiscardRequests) tt;
      Ev (Go (Relay (Channel 1) (Conn 1) (Channel 1) (Conn 1) (ssh.User alice))) tt;
      Ev (Go (Relay (Conn 1) (Channel 1) (Channel 1) (Conn 1) (ssh.User alice))) tt ].
Proof.
  split; [exact isLocalIP_JoinHostPort |].
  repeat split; vm_compute; reflexivity.
Qed.

(** ** Programs in sequence, and more on strings *)

Lemma result_bind {S A B} (env : Env S) (p : Prog A) (f : A -> Prog B) s :
  result env (bind p f) s = result env (f (result env p s)) (final env p s).
Proof.
  revert s. induction p as [a | o k IH]; intros s; [reflexivity |].
  cbn [bind]. rewrite !result_Vis, final_Vis. apply IH.
Qed.

Lemma trace_bind {S A B} (env : Env S) (p : Prog A) (f : A -> Prog B) s :
  trace env (bind p f) s = trace env p s ++ trace env (f (result env p s)) (final env p s).
Proof.
  revert s. induction p as [a | o k IH]; intros s; [reflexivity |].
  cbn [bind]. rewrite !trace_Vis, result_Vis, final_Vis, IH. reflexivity.
Qed.

Lemma final_bind {S A B} (env : Env S) (p : Prog A) (f : A -> Prog B) s :
  final env (bind p f) s = final env (f (result env p s)) (final env p s).
Proof.
  revert s. induction p as [a | o k IH]; intros s; [reflexivity |].
  cbn [bind]. rewrite !final_Vis, result_Vis. apply IH.
Qed.

(** *** Strings *)

Lemma substring_all (s : string) : String.substring 0 (String.length s) s = s.
Proof. induction s as [| c s IH]; [reflexivity |]. simpl. rewrite IH. reflexivity. Qed.

Lemma substring_sliceFrom (n : nat) (s : string) :
  String.substring n (String.length s - n) s = GoString.sliceFrom n s.
Proof.
  revert s. induction n as [| n IH]; intros s.
  - rewrite Nat.sub_0_r. destruct s; [reflexivity |]. apply substring_all.
  - destruct s as [| c s]; [reflexivity |]. simpl. apply IH.
Qed.

Lemma length_append (a b : string) :
  String.length (a +:+ b) = (String.length a + String.length b)%nat.
Proof. induction a as [| c a IH]; simpl; [reflexivity | rewrite IH; reflexivity]. Qed.

Lemma length_sliceFrom (n : nat) (s : string) :
  String.length (GoString.sliceFrom n s) = (String.length s - n)%nat.
Proof.
  revert s. induction n as [| n IH]; intros s; [simpl; lia |].
  destruct s as [| c s]; [reflexivity |]. simpl. apply IH.
Qed.

Lemma sliceFrom_append (a b : string) :
  GoString.sliceFrom (String.length a) (a +:+ b) = b.
Proof. induction a as [| c a IH]; [reflexivity | exact IH]. Qed.

Lemma sliceFrom_append_le (n : nat) (a b : string) :
  (n <= String.length a)%nat ->
  GoString.sliceFrom n (a +:+ b) = GoString.sliceFrom n a +:+ b.
Proof.
  revert a. induction n as [| n IH]; intros a Hn; [reflexivity |].
  destruct a as [| c a]; [simpl in Hn; lia |]. simpl. apply IH. simpl in Hn. lia.
Qed.

Lemma sliceFrom_append_ge (n : nat) (a b : string) :
  (String.length a <= n)%nat ->
  GoString.sliceFrom n (a +:+ b) = GoString.sliceFrom (n - String.length a) b.
Proof.
  revert n. induction a as [| c a IH]; intros n Hn.
  - simpl. rewrite Nat.sub_0_r. reflexivity.
  - destruct n as [| n]; [simpl in Hn; lia |]. simpl. apply IH. simpl in Hn. lia.
Qed.

Lemma append_assoc (a b c : string) : (a +:+ b) +:+ c = a +:+ (b +:+ c).
Proof.
  induction a as [| x a IH]; [reflexivity |].
  change (String x ((a +:+ b) +:+ c) = String x (a +:+ (b +:+ c))). rewrite IH. reflexivity.
Qed.

Lemma append_nil_r (a : string) : a +:+ "" = a.
Proof.
  induction a as [| x a IH]; [reflexivity |].
  change (String x (a +:+ "") = String x a). rewrite IH. reflexivity.
Qed.

(** [conn.Read] of fewer bytes than the buffer holds. *)
Lemma readInto_short (buf data : string) :
  (String.length data <= String.length buf)%nat ->
  readInto buf data
  = (Z.of_nat (String.length data), data +:+ GoString.sliceFrom (String.length data) buf).
Proof.
  intros Hle. unfold readInto. rewrite Nat.min_l by exact Hle.
  rewrite substring_all, substring_sliceFrom. reflexivity.
Qed.

Lemma length_readInto (buf data : string) :
  String.length (snd (readInto buf data)) = String.length buf.
Proof.
  unfold readInto. cbn [snd].
  destruct (Nat.le_ge_cases (String.length data) (String.length buf)) as [Hle | Hge].
  - rewrite Nat.min_l by exact Hle. rewrite substring_all, substring_sliceFrom.
    rewrite length_append, length_sliceFrom. lia.
  - rewrite Nat.min_r by exact Hge. rewrite Nat.sub_diag.
    rewrite length_append.
    assert (H0 : forall n s, String.length (String.substring n 0 s) = 0%nat).
    { induction n as [| n IHn]; intros [| c s]; simpl; auto. }
    rewrite H0.
    assert (H1 : forall n s, (n <= String.length s)%nat ->
                             String.length (String.substring 0 n s) = n).
    { induction n as [| n IHn]; intros [| c s] Hn; simpl in *; try lia.
      rewrite IHn by lia. reflexivity. }
    rewrite H1 by exact Hge. lia.
Qed.

Lemma untilNull_append (a b : string) :
  noNull a = true -> untilNull (a +:+ b) = a +:+ untilNull b.
Proof.
  induction a as [| c a IH]; intros Hn; [reflexivity |].
  simpl in Hn. apply andb_true_iff in Hn as [Hc Ha]. apply negb_true_iff in Hc.
  simpl. rewrite Hc, IH by exact Ha. reflexivity.
Qed.

Lemma noNull_untilNull (s : string) : noNull (untilNull s) = true.
Proof.
  induction s as [| c s IH]; [reflexivity |]. simpl.
  destruct (Ascii.eqb c zero) eqn:Hc; [reflexivity |]. simpl. rewrite Hc, IH. reflexivity.
Qed.

Lemma length_untilNull (s : string) : (String.length (untilNull s) <= String.length s)%nat.
Proof.
  induction s as [| c s IH]; [simpl; lia |]. simpl.
  destruct (Ascii.eqb c zero); simpl; lia.
Qed.

(** ** The port whitelist read from the environment *)

Example TrimSpace_ascii : Strings.TrimSpace "  80 " = "80".
Proof. reflexivity. Qed.
Example TrimSpace_nbsp :
  Strings.TrimSpace (String "194" (String "160" "80") +:+ String "226" (String "128" (String "137" "")))
  = "80".
Proof. vm_compute. reflexivity. Qed.
Example TrimSpace_inner :
  Strings.TrimSpace (" 8" +:+ String "194" (String "160" "0 ")) = "8" +:+ String "194" (String "160" "0").
Proof. vm_compute. reflexivity. Qed.
Example TrimSpace_invalid :
  Strings.TrimSpace (String "160" " 80 ") = String "160" " 80".
Proof. vm_compute. reflexivity. Qed.
Example Split_examples :
  map (fun s => Strings.Split s comma) [""; "80"; "80,443"; ",80,"; "a,,b"]
  = [[""]; ["80"]; ["80"; "443"]; [""; "80"; ""]; ["a"; ""; "b"]].
Proof. reflexivity. Qed.
Example extractNumbers_examples :
  map extractNumbers [""; "80"; "80, 443 ,8080"; "80,"; "1073741823"; "1073741824"; "-1"; "+1"; "0x50"; " "]
  = [Some []; Some [80]; Some [80; 443; 8080]; None; Some [1073741823]; None; None; None; None; None].
Proof. vm_compute. reflexivity. Qed.

(** *** Splitting and joining *)

Lemma Split_nonempty (s : string) (sep : ascii) : Strings.Split s sep <> [].
Proof.
  destruct s as [| c s]; [discriminate |]. cbn [Strings.Split].
  destruct (Ascii.eqb c sep); [discriminate |].
  destruct (Strings.Split s sep); discriminate.
Qed.

Lemma Split_app (a b : string) (sep : ascii) :
  Strings.Split (a +:+ String sep b) sep = Strings.Split a sep ++ Strings.Split b sep.
Proof.
  induction a as [| c a IH].
  - change ("" +:+ String sep b) with (String sep b).
    cbn [Strings.Split]. rewrite Ascii.eqb_refl. reflexivity.
  - change (String c a +:+ String sep b) with (String c (a +:+ String sep b)).
    cbn [Strings.Split]. rewrite IH.
    destruct (Ascii.eqb c sep); [reflexivity |].
    destruct (Strings.Split a sep) as [| f o] eqn:Hs; [| reflexivity].
    exfalso. exact (Split_nonempty a sep Hs).
Qed.

Lemma Split_none (s : string) (sep : ascii) :
  GoString.containsByte s sep = false -> Strings.Split s sep = [s].
Proof.
  induction s as [| c s IH]; intros H; [reflexivity |].
  cbn [GoString.containsByte] in H. cbn [Strings.Split].
  destruct (Ascii.eqb c sep); [discriminate |]. rewrite IH by exact H. reflexivity.
Qed.

Lemma Split_joinComma (elems : list string) :
  elems <> [] ->
  Forall (fun e => GoString.containsByte e comma = false) elems ->
  Strings.Split (joinComma elems) comma = elems.
Proof.
  induction elems as [| a rest IH]; intros Hne Hall; [contradiction |].
  inversion Hall as [| ? ? Ha Hrest]; subst.
  destruct rest as [| b rest].
  - cbn [joinComma]. apply Split_none. exact Ha.
  - change (joinComma (a :: b :: rest)) with (a +:+ String comma (joinComma (b :: rest))).
    rewrite Split_app, Split_none by exact Ha. rewrite IH by (try discriminate; exact Hrest).
    reflexivity.
Qed.

(** *** Trimming an element *)

Lemma containsByte_append (a b : string) (c : ascii) :
  GoString.containsByte (a +:+ b) c = GoString.containsByte a c || GoString.containsByte b c.
Proof.
  induction a as [| d a IH]; [reflexivity |].
  change (String d a +:+ b) with (String d (a +:+ b)). cbn [GoString.containsByte].
  destruct (Ascii.eqb d c); [reflexivity | exact IH].
Qed.

Lemma asciiSpace_ascii (c : ascii) :
  Strings.asciiSpace c = true ->
  (utf8.RuneSelf <=? GoString.byte_of c) = false /\ Ascii.eqb c comma = false.
Proof.
  unfold Strings.asciiSpace. intros H.
  repeat (apply orb_true_iff in H as [H | H]); apply Z.eqb_eq in H.
  all: split; [unfold utf8.RuneSelf; rewrite H; reflexivity |].
  all: destruct (Ascii.eqb_spec c comma) as [-> | _]; [discriminate H | reflexivity].
Qed.

Lemma isDigit_ascii (c : ascii) :
  GoString.isDigit c = true ->
  (utf8.RuneSelf <=? GoString.byte_of c) = false /\ Strings.asciiSpace c = false
  /\ Ascii.eqb c comma = false.
Proof.
  unfold GoString.isDigit, Strings.asciiSpace, utf8.RuneSelf. intros H.
  apply andb_true_iff in H as [H1 H2]. apply Z.leb_le in H1, H2.
  split; [apply Z.leb_gt; lia |].
  split.
  - repeat (apply orb_false_iff; split); apply Z.eqb_neq; lia.
  - destruct (Ascii.eqb_spec c comma) as [-> | _]; [vm_compute in H1; contradiction | reflexivity].
Qed.

Lemma trimSpaceStop_blank (r body : list ascii) :
  Forall (fun c => Strings.asciiSpace c = true) r ->
  Strings.trimSpaceStop (r ++ body) = Strings.trimSpaceStop body.
Proof.
  induction r as [| c r IH]; intros H; [reflexivity |].
  inversion H as [| ? ? Hc Hr]; subst.
  cbn [app Strings.trimSpaceStop].
  destruct (asciiSpace_ascii c Hc) as [-> _]. rewrite Hc. apply IH. exact Hr.
Qed.

Lemma list_ascii_append (a b : string) :
  list_ascii_of_string (a +:+ b) = list_ascii_of_string a ++ list_ascii_of_string b.
Proof.
  induction a as [| c a IH]; [reflexivity |].
  change (String c a +:+ b) with (String c (a +:+ b)). simpl. rewrite IH. reflexivity.
Qed.

Lemma blank_Forall (s : string) :
  blank s = true -> Forall (fun c => Strings.asciiSpace c = true) (list_ascii_of_string s).
Proof.
  induction s as [| c s IH]; intros H; [constructor |].
  simpl in H. apply andb_true_iff in H as [Hc Hs]. constructor; auto.
Qed.

(** White space around a number is dropped. *)
Lemma TrimSpace_padded (pl d pr : string) :
  blank pl = true -> blank pr = true -> digits d = true -> d <> EmptyString ->
  Strings.TrimSpace (pl +:+ d +:+ pr) = d.
Proof.
  intros Hpl Hpr Hd Hne.
  induction pl as [| c pl IH].
  - change ("" +:+ d +:+ pr) with (d +:+ pr). destruct d as [| c d]; [contradiction |].
    change (String c d +:+ pr) with (String c (d +:+ pr)).
    simpl in Hd. apply andb_true_iff in Hd as [Hc Hd].
    destruct (isDigit_ascii c Hc) as (Hself & Hsp & _).
    cbn [Strings.TrimSpace]. rewrite Hself, Hsp.
    change (String c (d +:+ pr)) with (String c d +:+ pr).
    rewrite list_ascii_append, rev_app_distr.
    rewrite trimSpaceStop_blank
      by (apply Forall_rev, blank_Forall; exact Hpr).
    assert (Hlast : exists x r, rev (list_ascii_of_string (String c d)) = x :: r
                                /\ GoString.isDigit x = true).
    { assert (Hall : Forall (fun x => GoString.isDigit x = true)
                            (rev (list_ascii_of_string (String c d)))).
      { apply Forall_rev. simpl. constructor; [exact Hc |].
        clear - Hd. induction d as [| x d IHd]; [constructor |].
        simpl in Hd. apply andb_true_iff in Hd as [Hx Hd]. constructor; auto. }
      destruct (rev (list_ascii_of_string (String c d))) as [| x r] eqn:Hr.
      - apply (f_equal (@length ascii)) in Hr. rewrite length_rev in Hr. discriminate Hr.
      - inversion Hall; subst. eauto. }
    destruct Hlast as (x & r & Hr & Hx).
    destruct (isDigit_ascii x Hx) as (Hself' & Hsp' & _).
    rewrite Hr. cbn [Strings.trimSpaceStop]. rewrite Hself', Hsp', <- Hr.
    rewrite rev_involutive. apply string_of_list_ascii_of_string.
  - simpl in Hpl. apply andb_true_iff in Hpl as [Hc Hpl].
    change (String c pl +:+ d +:+ pr) with (String c (pl +:+ d +:+ pr)).
    cbn [Strings.TrimSpace]. destruct (asciiSpace_ascii c Hc) as [-> _]. rewrite Hc.
    apply IH. exact Hpl.
Qed.

(** *** Numbers *)

Lemma formatBits_digits (fuel : nat) (u : Z) (acc : string) :
  0 <= u -> digits acc = true -> digits (strconv.formatBits fuel u acc) = true.
Proof.
  revert u acc. induction fuel as [| fuel IH]; intros u acc Hu Hacc; [exact Hacc |].
  cbn [strconv.formatBits].
  assert (Hd : 0 <= u mod 10 < 10) by (apply Z.mod_pos_bound; lia).
  destruct (digit_char (u mod 10) Hd) as (Hdig & _).
  destruct (u <? 10).
  - simpl. rewrite Hdig. exact Hacc.
  - apply IH; [apply Z.div_pos; lia |]. simpl. rewrite Hdig. exact Hacc.
Qed.

Lemma FormatInt_digits (n : Z) :
  0 <= n -> digits (strconv.FormatInt n) = true /\ strconv.FormatInt n <> EmptyString.
Proof.
  intros Hn. unfold strconv.FormatInt.
  destruct (Z.ltb_spec n 0) as [H | _]; [lia |].
  split; [apply formatBits_digits; [exact Hn | reflexivity] |].
  destruct (formatBits_head 19 n EmptyString Hn) as (c & rest & Heq & _).
  rewrite Heq. discriminate.
Qed.

Lemma ParseUint_FormatInt (n : Z) :
  0 <= n < 2 ^ 30 -> strconv.ParseUint (strconv.FormatInt n) 30 = Some n.
Proof.
  intros Hn. change (2 ^ 30) with 1073741824 in Hn.
  unfold strconv.FormatInt.
  destruct (Z.ltb_spec n 0) as [H | _]; [lia |].
  destruct (formatBits_head 19 n EmptyString ltac:(lia)) as (c & rest & Heq & _).
  unfold strconv.ParseUint. rewrite Heq, <- Heq.
  rewrite parseUintLoop_formatBits.
  - reflexivity.
  - vm_compute. discriminate.
  - change (10 ^ Z.of_nat 20) with 100000000000000000000. lia.
  - change (2 ^ 30 - 1) with 1073741823. lia.
Qed.

Lemma digits_no_comma (s : string) : digits s = true -> GoString.containsByte s comma = false.
Proof.
  induction s as [| c s IH]; intros H; [reflexivity |].
  simpl in H. apply andb_true_iff in H as [Hc Hs].
  cbn [GoString.containsByte]. destruct (isDigit_ascii c Hc) as (_ & _ & ->). auto.
Qed.

Lemma blank_no_comma (s : string) : blank s = true -> GoString.containsByte s comma = false.
Proof.
  induction s as [| c s IH]; intros H; [reflexivity |].
  simpl in H. apply andb_true_iff in H as [Hc Hs].
  cbn [GoString.containsByte]. destruct (asciiSpace_ascii c Hc) as (_ & ->). auto.
Qed.

Lemma extractNumbersLoop_items (items : list portItem) (numbers : list Z) :
  Forall itemOk items ->
  extractNumbersLoop (map renderItem items) numbers = Some (numbers ++ map number items).
Proof.
  revert numbers. induction items as [| it items IH]; intros numbers Hall.
  - simpl. rewrite app_nil_r. reflexivity.
  - inversion Hall as [| ? ? (Hb & Ha & Hp) Hrest]; subst.
    cbn [map extractNumbersLoop]. unfold renderItem at 1.
    destruct (FormatInt_digits (number it) ltac:(lia)) as [Hdig Hne].
    rewrite TrimSpace_padded by assumption.
    rewrite ParseUint_FormatInt by exact Hp.
    rewrite IH by exact Hrest.
    rewrite Z.mod_small by (change (2 ^ 30) with 1073741824 in Hp;
                            change (2 ^ 32) with 4294967296; lia).
    rewrite <- app_assoc. reflexivity.
Qed.

Lemma renderItem_shape (it : portItem) :
  itemOk it ->
  GoString.containsByte (renderItem it) comma = false /\ renderItem it <> EmptyString.
Proof.
  intros (Hb & Ha & Hp). unfold renderItem.
  destruct (FormatInt_digits (number it) ltac:(lia)) as [Hdig Hne].
  split.
  - rewrite !containsByte_append, blank_no_comma, digits_no_comma, blank_no_comma by assumption.
    reflexivity.
  - destruct (padLeft it); [| discriminate].
    destruct (strconv.FormatInt (number it)); [contradiction | discriminate].
Qed.

Lemma joinComma_nonempty (elems : list string) :
  Forall (fun e => e <> EmptyString) elems -> elems <> [] -> joinComma elems <> EmptyString.
Proof.
  intros Hall Hne. destruct elems as [| a rest]; [contradiction |].
  inversion Hall as [| ? ? Ha _]; subst.
  destruct rest as [| b rest]; [exact Ha |].
  change (joinComma (a :: b :: rest)) with (a +:+ String comma (joinComma (b :: rest))).
  destruct a; discriminate.
Qed.

(** X1: a list of ports, each below 2^30 and written in decimal with or
    without ASCII white space around it, joined by commas, is read back by
    [extractNumbers] as these ports in their order; the empty list, which is
    the empty string, is read back as no port at all. *)
Theorem extractNumbers_reads_back_a_port_list (items : list portItem) :
  Forall itemOk items ->
  extractNumbers (joinComma (map renderItem items)) = Some (map number items).
Proof.
  intros Hall. unfold extractNumbers.
  destruct items as [| it items]; [reflexivity |].
  assert (Hshape : Forall (fun e => GoString.containsByte e comma = false /\ e <> EmptyString)
                          (map renderItem (it :: items))).
  { rewrite Forall_map. eapply Forall_impl; [exact Hall |]. apply renderItem_shape. }
  assert (Hne : joinComma (map renderItem (it :: items)) <> EmptyString).
  { apply joinComma_nonempty; [| discriminate].
    eapply Forall_impl; [exact Hshape |]. simpl. tauto. }
  destruct (joinComma (map renderItem (it :: items))) as [| c s] eqn:Hj; [contradiction |].
  assert (Hlen : (GoString.len (String c s) =? 0) = false).
  { unfold GoString.len. simpl String.length. apply Z.eqb_neq. lia. }
  rewrite Hlen, <- Hj.
  rewrite Split_joinComma.
  - rewrite extractNumbersLoop_items by exact Hall. reflexivity.
  - discriminate.
  - eapply Forall_impl; [exact Hshape |]. simpl. tauto.
Qed.

Lemma extractNumbers_reads_back_a_port_list_witness :
  extractNumbers "80, 443 ,6379" = Some [80; 443; 6379].
Proof.
  apply (extractNumbers_reads_back_a_port_list samplePorts).
  repeat constructor; vm_compute; congruence.
Defined.

Lemma parseUintLoop_bound (M : Z) (s : string) : forall n r,
  0 <= n <= M -> strconv.parseUintLoop M s n = Some r -> 0 <= r <= M.
Proof.
  induction s as [| c s IH]; intros n r Hn H.
  - injection H as <-. exact Hn.
  - cbn [strconv.parseUintLoop] in H.
    destruct (GoString.isDigit c); [| discriminate].
    destruct (strconv.maxUint64 / 10 + 1 <=? n); [discriminate |].
    cbv zeta in H.
    destruct (((n * 10) mod 2 ^ 64 + (GoString.byte_of c - 48)) mod 2 ^ 64 <? (n * 10) mod 2 ^ 64);
      [discriminate |].
    destruct (Z.ltb_spec M (((n * 10) mod 2 ^ 64 + (GoString.byte_of c - 48)) mod 2 ^ 64))
      as [| Hle]; [discriminate |].
    cbn [orb] in H. apply (IH _ _ (conj (proj1 (Z.mod_pos_bound _ (2 ^ 64) eq_refl)) Hle) H).
Qed.

Lemma ParseUint_bound (s : string) (r : Z) :
  strconv.ParseUint s 30 = Some r -> 0 <= r < 2 ^ 30.
Proof.
  unfold strconv.ParseUint. destruct s as [| c s]; [discriminate |].
  intros H. apply parseUintLoop_bound in H; [lia |].
  change (2 ^ 30 - 1) with 1073741823. lia.
Qed.

Lemma extractNumbersLoop_shape (elements : list string) : forall numbers ns,
  extractNumbersLoop elements numbers = Some ns ->
  exists new, ns = numbers ++ new /\ length new = length elements /\
              Forall (fun n => 0 <= n < 2 ^ 30) new.
Proof.
  induction elements as [| e rest IH]; intros numbers ns H.
  - injection H as <-. exists []. rewrite app_nil_r. repeat split. constructor.
  - cbn [extractNumbersLoop] in H.
    destruct (strconv.ParseUint (Strings.TrimSpace e) 30) as [num |] eqn:Hp; [| discriminate].
    apply ParseUint_bound in Hp.
    destruct (IH _ _ H) as (new & -> & Hlen & Hall).
    exists (num mod 2 ^ 32 :: new). rewrite <- app_assoc. split; [reflexivity |].
    split; [simpl; lia |]. constructor; [| exact Hall].
    rewrite Z.mod_small; [exact Hp |].
    change (2 ^ 30) with 1073741824 in Hp. change (2 ^ 32) with 4294967296. lia.
Qed.

Lemma length_Split (s : string) (sep : ascii) :
  length (Strings.Split s sep) = S (countByte s sep).
Proof.
  induction s as [| c s IH]; [reflexivity |].
  cbn [Strings.Split countByte]. destruct (Ascii.eqb c sep).
  - simpl. rewrite IH. reflexivity.
  - destruct (Strings.Split s sep) as [| f o]; simpl in *; lia.
Qed.

(** X2: when [extractNumbers] returns without an error, every number it
    returns is below 2^30, so that the conversion to [uint32] changes none,
    and there is one number for each comma-separated element: none for the
    empty input, one more than the input has commas otherwise. *)
Theorem extractNumbers_one_port_below_2_30_per_element (input : string) (ns : list Z) :
  extractNumbers input = Some ns ->
  Forall (fun n => 0 <= n < 2 ^ 30) ns /\
  length ns = if GoString.len input =? 0 then 0%nat else S (countByte input comma).
Proof.
  unfold extractNumbers. destruct (GoString.len input =? 0).
  - intros [= <-]. split; [constructor | reflexivity].
  - intros H. destruct (extractNumbersLoop_shape _ _ _ H) as (new & -> & Hlen & Hall).
    rewrite length_Split in Hlen. split; [exact Hall | exact Hlen].
Qed.

Lemma extractNumbers_one_port_below_2_30_per_element_witness :
  Forall (fun n => 0 <= n < 2 ^ 30) [80; 443; 6379] /\
  length [80; 443; 6379] = 3%nat.
Proof.
  apply (extractNumbers_one_port_below_2_30_per_element "80, 443 ,6379" [80; 443; 6379]).
  vm_compute. reflexivity.
Defined.

Lemma TrimSpace_blank (w : string) : blank w = true -> Strings.TrimSpace w = EmptyString.
Proof.
  induction w as [| c w IH]; intros H; [reflexivity |].
  simpl in H. apply andb_true_iff in H as [Hc Hw].
  cbn [Strings.TrimSpace]. destruct (asciiSpace_ascii c Hc) as [-> _]. rewrite Hc. auto.
Qed.

Lemma extractNumbersLoop_blank (elements : list string) (w : string) : forall numbers,
  In w elements -> blank w = true -> extractNumbersLoop elements numbers = None.
Proof.
  induction elements as [| e rest IH]; intros numbers Hin Hw; [contradiction |].
  cbn [extractNumbersLoop]. destruct Hin as [-> | Hin].
  - rewrite TrimSpace_blank by exact Hw. reflexivity.
  - destruct (strconv.ParseUint (Strings.TrimSpace e) 30); [| reflexivity]. auto.
Qed.

Lemma extractNumbers_blank_element (input w : string) :
  In w (Strings.Split input comma) -> blank w = true ->
  GoString.containsByte input comma = true ->
  extractNumbers input = None.
Proof.
  intros Hin Hw Hc. unfold extractNumbers.
  destruct input as [| c input]; [discriminate Hc |].
  assert (Hlen : (GoString.len (String c input) =? 0) = false).
  { unfold GoString.len. simpl String.length. apply Z.eqb_neq. lia. }
  rewrite Hlen. apply (extractNumbersLoop_blank _ w); assumption.
Qed.

(** X3: an element that is empty or holds ASCII white space only is an
    error: an input that starts with such an element, ends with one or has
    one between two commas makes [extractNumbers] fail, whatever the other
    elements are. *)
Theorem extractNumbers_refuses_an_empty_element (s w t : string) :
  blank w = true ->
  extractNumbers (w +:+ String comma t) = None /\
  extractNumbers (s +:+ String comma w) = None /\
  extractNumbers (s +:+ String comma (w +:+ String comma t)) = None.
Proof.
  intros Hw. pose proof (Split_none w comma (blank_no_comma w Hw)) as Hsw.
  repeat split; apply (extractNumbers_blank_element _ w); try exact Hw.
  - rewrite Split_app, Hsw. left. reflexivity.
  - rewrite containsByte_append. cbn [GoString.containsByte]. rewrite Ascii.eqb_refl.
    apply orb_true_r.
  - rewrite Split_app, Hsw. apply in_or_app. right. left. reflexivity.
  - rewrite containsByte_append. cbn [GoString.containsByte]. rewrite Ascii.eqb_refl.
    apply orb_true_r.
  - rewrite !Split_app, Hsw. apply in_or_app. right. left. reflexivity.
  - rewrite containsByte_append. cbn [GoString.containsByte]. rewrite Ascii.eqb_refl.
    apply orb_true_r.
Qed.

Lemma extractNumbers_refuses_an_empty_element_witness :
  extractNumbers " ,443" = None /\
  extractNumbers "80, " = None /\
  extractNumbers "80, ,443" = None.
Proof.
  apply (extractNumbers_refuses_an_empty_element "80" " " "443").
  reflexivity.
Defined.

(** ** IPv4 destinations *)

Lemma octet_cases (P : Z -> Prop) :
  (forall n : nat, (n < 256)%nat -> P (Z.of_nat n)) -> forall v, isOctet v -> P v.
Proof.
  intros H v Hv. rewrite <- (Z2Nat.id v) by (unfold isOctet in Hv; lia).
  apply H. unfold isOctet in Hv. lia.
Qed.

Ltac each_octet n :=
  do 256 (destruct n as [| n]; [vm_compute; reflexivity |]); exfalso; lia.

(** One field of an address, followed by a dot and more. *)
Lemma field_then_dot (v : Z) : isOctet v ->
  forall c rest first prevDot pos fields,
    net.parseIPv4FieldsLoop (strconv.FormatInt v +:+ String net.dot (String c rest))
                            first prevDot 0 pos 0 fields
    = if (pos =? 3)%nat then None
      else net.parseIPv4FieldsLoop (String c rest) false true 0 (S pos) 0 (fields ++ [v]).
Proof.
  revert v. apply (octet_cases (fun v => forall c rest first prevDot pos fields, _ = _)).
  intros n Hn c rest first prevDot pos fields.
  do 256 (destruct n as [| n]; [reflexivity |]). exfalso. lia.
Qed.

(** The last field of an address. *)
Lemma field_at_end (v : Z) : isOctet v ->
  forall first prevDot pos fields,
    net.parseIPv4FieldsLoop (strconv.FormatInt v) first prevDot 0 pos 0 fields
    = if (pos <? 3)%nat then None else Some (fields ++ [v]).
Proof.
  revert v. apply (octet_cases (fun v => forall first prevDot pos fields, _ = _)).
  intros n Hn first prevDot pos fields.
  do 256 (destruct n as [| n]; [reflexivity |]). exfalso. lia.
Qed.

(** A field starts with a digit. *)
Lemma field_head (v : Z) : isOctet v ->
  exists c rest, strconv.FormatInt v = String c rest /\ GoString.isDigit c = true.
Proof.
  intros Hv. unfold strconv.FormatInt. unfold isOctet in Hv.
  destruct (Z.ltb_spec v 0); [lia |].
  destruct (formatBits_head 19 v EmptyString ltac:(lia)) as (c & rest & Heq & Hd & _).
  eauto.
Qed.

(** [netip.ParseAddr] takes a text that starts with a field and a dot for
    an IPv4 address. *)
Lemma scan_field_then_dot (v : Z) : isOctet v ->
  forall whole rest,
    net.parseAddrScan whole (strconv.FormatInt v +:+ String net.dot rest)
    = match net.parseIPv4 whole with Some ip => Some (ip, EmptyString) | None => None end.
Proof.
  revert v. apply (octet_cases (fun v => forall whole rest, _ = _)).
  intros n Hn whole rest.
  do 256 (destruct n as [| n]; [reflexivity |]). exfalso. lia.
Qed.

Lemma field_then_field (v w : Z) (rest : string) first prevDot pos fields :
  isOctet v -> isOctet w ->
  net.parseIPv4FieldsLoop (strconv.FormatInt v +:+ "." +:+ strconv.FormatInt w +:+ rest)
                          first prevDot 0 pos 0 fields
  = if (pos =? 3)%nat then None
    else net.parseIPv4FieldsLoop (strconv.FormatInt w +:+ rest) false true 0 (S pos) 0
                                 (fields ++ [v]).
Proof.
  intros Hv Hw. destruct (field_head w Hw) as (c & r & E & _). rewrite E.
  apply (field_then_dot v Hv c (r +:+ rest)).
Qed.

Lemma ParseIP_dotted (a b c d : Z) :
  isOctet a -> isOctet b -> isOctet c -> isOctet d ->
  net.ParseIP (dotted a b c d) = Some (net.v4InV6 [a; b; c; d]).
Proof.
  intros Ha Hb Hc Hd. unfold net.ParseIP, dotted.
  rewrite (scan_field_then_dot a Ha _ (strconv.FormatInt b +:+ "." +:+ strconv.FormatInt c
                                       +:+ "." +:+ strconv.FormatInt d)).
  unfold net.parseIPv4, net.parseIPv4Fields.
  rewrite (field_then_field a b) by assumption. cbn [Nat.eqb].
  rewrite (field_then_field b c) by assumption. cbn [Nat.eqb].
  rewrite <- (append_nil_r (strconv.FormatInt d)).
  rewrite (field_then_field c d) by assumption. cbn [Nat.eqb].
  rewrite append_nil_r, field_at_end by assumption. reflexivity.
Qed.

Lemma private_172 (b : Z) : isOctet b -> (Z.land b 240 =? 16) = (16 <=? b) && (b <=? 31).
Proof.
  revert b. apply (octet_cases (fun b => _ = _)). intros n Hn.
  do 256 (destruct n as [| n]; [reflexivity |]). exfalso. lia.
Qed.

(** X4: on the dotted-decimal text of an IPv4 address, [isLocalIP] holds
    exactly in 127.0.0.0/8, 10.0.0.0/8, 172.16.0.0/12, 192.168.0.0/16,
    169.254.0.0/16 and 224.0.0.0/24; every other IPv4 destination, 0.0.0.0
    included, counts as not local. *)
Theorem isLocalIP_on_IPv4 (a b c d : Z) :
  isOctet a -> isOctet b -> isOctet c -> isOctet d ->
  isLocalIP (dotted a b c d) = localRange a b c.
Proof.
  intros Ha Hb Hc Hd. unfold isLocalIP. rewrite ParseIP_dotted by assumption.
  unfold net.IsLoopback, net.IsLinkLocalMulticast, net.IsLinkLocalUnicast, net.IsPrivate.
  change (net.To4 (net.v4InV6 [a; b; c; d])) with (Some [a; b; c; d]).
  cbn [nth]. rewrite private_172 by exact Hb. unfold localRange.
  destruct (a =? 127), (a =? 10), (a =? 172), (a =? 192), (a =? 169), (a =? 224),
    (b =? 168), (b =? 254), (b =? 0), (c =? 0), (16 <=? b), (b <=? 31); reflexivity.
Qed.

Lemma isLocalIP_on_IPv4_witness :
  isLocalIP "172.31.255.254" = true /\ isLocalIP "172.32.0.1" = false /\
  isLocalIP "0.0.0.0" = false.
Proof.
  split; [| split].
  - apply (isLocalIP_on_IPv4 172 31 255 254); unfold isOctet; lia.
  - apply (isLocalIP_on_IPv4 172 32 0 1); unfold isOctet; lia.
  - apply (isLocalIP_on_IPv4 0 0 0 0); unfold isOctet; lia.
Defined.

(** ** The channel handler on every path *)

(** X5: whatever the network and the transport answer, the channel handler
    answers a channel-open request exactly once: it calls [Reject] or
    [Accept], once in all. *)
Theorem channel_answered_exactly_once {S} (env : Env S) (s : S)
    (SocksProxyAddr : string) (srv : ssh.Server) (ctx : ssh.Context) :
  length (only isAnswer (trace env (directTCPIPClosure SocksProxyAddr srv ctx) s)) = 1%nat.
Proof.
  unfold directTCPIPClosure. exec_all. all: reflexivity.
Qed.

(** X6: the channel handler touches the network only for a permitted
    destination: when a run contains a SOCKS5 set-up or a dial, the payload
    was decoded, its destination resolved without error, a permission
    callback is installed and it returned true on the resolved address and
    the requested port; and what is dialed is that address with that port,
    or the configured proxy. *)
Theorem dial_only_after_permission {S} (env : Env S) (s : S)
    (SocksProxyAddr : string) (srv : ssh.Server) (ctx : ssh.Context) (ev : event) :
  let tr := trace env (directTCPIPClosure SocksProxyAddr srv ctx) s in
  In ev tr -> isDial (ev_op ev) = true ->
  exists d network dest callback,
    In (Ev UnmarshalExtraData (d, None)) tr /\
    In (Ev (ResolveIPAddr network (DestAddr d)) (dest, None)) tr /\
    ssh.LocalPortForwardingCallback srv = Some callback /\
    callback dest (DestPort d) = true /\
    forall o r, ev = Ev o r -> o = SOCKS5 "tcp" SocksProxyAddr \/
       o = ProxyDial "tcp" (net.JoinHostPort dest (strconv.FormatInt (DestPort d))) \/
       o = DialContext "tcp" (net.JoinHostPort dest (strconv.FormatInt (DestPort d))).
Proof.
  intros tr. subst tr. unfold directTCPIPClosure.
  destruct srv as [[callback |]]; cbn [ssh.LocalPortForwardingCallback]; exec_all.
  all: intros Hin Hd.
  all: cbn [In] in Hin.
  all: repeat match type of Hin with _ \/ _ => destruct Hin as [Hin | Hin] end.
  all: try contradiction.
  all: subst ev.
  all: try discriminate Hd.
  all: repeat match goal with
              | H : isErr ?o = _ |- _ => destruct o; try discriminate H; clear H
              end.
  all: eexists _, _, _, _.
  all: (split; [cbn [In]; eauto 10 |]).
  all: (split; [cbn [In]; eauto 10 |]).
  all: (split; [reflexivity |]).
  all: (split; [apply negb_false_iff; assumption |]).
  all: intros o' r' E; apply Ev_op_eq in E; subst o'; auto.
  all: intros o' r' E; apply Ev_op_eq in E; subst o'; auto.
Qed.

Lemma dial_only_after_permission_witness :
  let tr := trace (scriptEnv (openNetwork toPublicDNS))
                  (directTCPIPClosure "" (server []) alice) tt in
  exists d network dest callback,
    In (Ev UnmarshalExtraData (d, None)) tr /\
    In (Ev (ResolveIPAddr network (DestAddr d)) (dest, None)) tr /\
    ssh.LocalPortForwardingCallback (server []) = Some callback /\
    callback dest (DestPort d) = true /\
    forall o r, Ev (DialContext "tcp" "8.8.8.8:53") (Conn 1, None) = Ev o r ->
      o = SOCKS5 "tcp" "" \/
      o = ProxyDial "tcp" (net.JoinHostPort dest (strconv.FormatInt (DestPort d))) \/
      o = DialContext "tcp" (net.JoinHostPort dest (strconv.FormatInt (DestPort d))).
Proof.
  apply (dial_only_after_permission (scriptEnv (openNetwork toPublicDNS)) tt ""
           (server []) alice (Ev (DialContext "tcp" "8.8.8.8:53") (Conn 1, None))).
  - vm_compute. right. right. left. reflexivity.
  - reflexivity.
Defined.

(** X7: a connection that was dialed is never left behind.  Either
    [Accept] failed, the handler closed the connection and started no
    goroutine; or [Accept] succeeded and the handler started exactly the
    request drain and the two relays, one per direction, for the session's
    identity, each of which ends by closing the connection and the channel
    in any environment. *)
Theorem dialed_connection_closed_or_relayed {S} (env : Env S) (s : S)
    (SocksProxyAddr : string) (srv : ssh.Server) (ctx : ssh.Context)
    (network address : string) (dconn : endpoint) :
  let tr := trace env (directTCPIPClosure SocksProxyAddr srv ctx) s in
  In (Ev (ProxyDial network address) (dconn, None)) tr \/
  In (Ev (DialContext network address) (dconn, None)) tr ->
  ((exists ch e, In (Ev Accept (ch, Some e)) tr) /\
   In (Ev (Close dconn) tt) tr /\ only isGo tr = []) \/
  (exists ch,
     In (Ev Accept (ch, None)) tr /\
     only isGo tr
     = [ Ev (Go DiscardRequests) tt;
         Ev (Go (Relay ch dconn ch dconn (ssh.User ctx))) tt;
         Ev (Go (Relay dconn ch ch dconn (ssh.User ctx))) tt ] /\
     forall S' (env' : Env S') (s' : S') dst src,
       exists pre,
         trace env' (taskBody (Relay dst src ch dconn (ssh.User ctx))) s'
         = pre ++ [Ev (Close dconn) tt; Ev (Close ch) tt]).
Proof.
  intros tr. subst tr. unfold directTCPIPClosure. exec_all.
  all: intros [Hin | Hin]; cbn [In] in Hin;
       repeat match type of Hin with _ \/ _ => destruct Hin as [Hin | Hin] end.
  all: try contradiction.
  all: try (other_op Hin).
  all: pose proof (Ev_op_eq _ _ _ _ Hin) as E; injection E as <- <-; apply Ev_inj in Hin.
  all: try discriminate Hin.
  all: injection Hin as <-.
  all: repeat match goal with
              | H : isErr ?o = _ |- _ => destruct o; try discriminate H; clear H
              end.
  all: first
    [ solve [left; split; [eexists _, _; cbn [In]; eauto 10 | split; [cbn [In]; auto 10 | reflexivity]]]
    | right; eexists; split; [cbn [In]; eauto 10 | split; [reflexivity |]] ].
  all: intros S' env' s' dst src; cbn [taskBody]; exec_all.
  all: eexists [_; _]; reflexivity.
Qed.

Lemma dialed_connection_closed_or_relayed_witness :
  let tr := trace (scriptEnv (openNetwork toPublicDNS))
                  (directTCPIPClosure "" (server []) alice) tt in
  ((exists ch e, In (Ev Accept (ch, Some e)) tr) /\
   In (Ev (Close (Conn 1)) tt) tr /\ only isGo tr = []) \/
  (exists ch,
     In (Ev Accept (ch, None)) tr /\
     only isGo tr
     = [ Ev (Go DiscardRequests) tt;
         Ev (Go (Relay ch (Conn 1) ch (Conn 1) (ssh.User alice))) tt;
         Ev (Go (Relay (Conn 1) ch ch (Conn 1) (ssh.User alice))) tt ] /\
     forall S' (env' : Env S') (s' : S') dst src,
       exists pre,
         trace env' (taskBody (Relay dst src ch (Conn 1) (ssh.User alice))) s'
         = pre ++ [Ev (Close (Conn 1)) tt; Ev (Close ch) tt]).
Proof.
  apply (dialed_connection_closed_or_relayed (scriptEnv (openNetwork toPublicDNS)) tt ""
           (server []) alice "tcp" "8.8.8.8:53" (Conn 1)).
  right. vm_compute. right. right. left. reflexivity.
Defined.

Lemma proxy_configured_no_direct_dial_witness :
  Forall (fun ev => isDirectDial (ev_op ev) = false)
         (trace (scriptEnv (openNetwork toLocalRedis))
                (directTCPIPClosure "127.0.0.1:1080" (server [6379]) alice) tt).
Proof.
  apply (proxy_configured_no_direct_dial (scriptEnv (openNetwork toLocalRedis)) tt
           "127.0.0.1:1080" (server [6379]) alice).
  vm_compute. discriminate.
Defined.

(** ** The public-key callback on every path *)

Ltac err_cases :=
  repeat match goal with
         | H : isErr ?o = _ |- _ => destruct o; try discriminate H; clear H
         end.

(** X8: in every run of the public-key callback the mutex is either never
    touched, and then no counter is read or written, or it is taken once and
    released by the last operation of the run, every read and write of a
    counter lying between the two: no return path keeps the mutex. *)
Theorem counters_touched_only_under_lock {S} (env : Env S) (s : S)
    (maxConns : Z) (ctx : ssh.Context) (key : ssh.PublicKey) :
  let tr := trace env (PublicKeyHandler maxConns ctx key) s in
  Forall (fun ev => isLockOp (ev_op ev) = false /\ isCounterOp (ev_op ev) = false) tr \/
  exists pre mid,
    tr = pre ++ [Ev (Lock userConnectionCountMutex) tt] ++ mid
             ++ [Ev (Unlock userConnectionCountMutex) tt] /\
    Forall (fun ev => isLockOp (ev_op ev) = false /\ isCounterOp (ev_op ev) = false) pre /\
    Forall (fun ev => isLockOp (ev_op ev) = false) mid.
Proof.
  intros tr. subst tr. unfold PublicKeyHandler. exec_all.
  all: try solve [left; repeat constructor].
  all: right;
       first [ eexists [_], [_]; split; [reflexivity |]
             | eexists [_], [_; _]; split; [reflexivity |]
             | eexists [_], [_; _; _]; split; [reflexivity |] ];
       split; repeat constructor.
Qed.

(** X9: an attempt is admitted exactly with its bookkeeping done.  When the
    callback returns true, the run holds one [HIncrBy], by one, on the
    connection counter of the identity, answered without error, and one
    goroutine started, the one that takes the increment back when the
    session is done.  When it returns false, no goroutine was started and
    no [HIncrBy] was answered without error. *)
Theorem admission_counted_and_decrement_scheduled {S} (env : Env S) (s : S)
    (maxConns : Z) (ctx : ssh.Context) (key : ssh.PublicKey) :
  let tr := trace env (PublicKeyHandler maxConns ctx key) s in
  if result env (PublicKeyHandler maxConns ctx key) s then
    exists doneCh n,
      ssh.Done ctx = Some doneCh /\
      only isHIncrBy tr = [Ev (HIncrBy connections (ssh.User ctx) 1) (n, None)] /\
      only isGo tr = [Ev (Go (DecrementOnDone doneCh (ssh.User ctx))) tt]
  else
    only isGo tr = [] /\
    Forall (fun ev => forall key field incr n, ev <> Ev (HIncrBy key field incr) (n, None)) tr.
Proof.
  intros tr. subst tr.
  destruct (result env (PublicKeyHandler maxConns ctx key) s) eqn:Hres; revert Hres.
  all: unfold PublicKeyHandler; exec_all.
  all: intros Hres; try discriminate Hres.
  all: err_cases.
  all: try (eexists _, _; split; [first [eassumption | reflexivity] | split; reflexivity]).
  all: split; [reflexivity |].
  all: repeat constructor.
  all: intros k f i n' E; pose proof (Ev_op_eq _ _ _ _ E) as E'; try discriminate E'.
  all: injection E' as <- <- <-; apply Ev_inj in E; discriminate E.
Qed.

Lemma TrimRight_keep (c : ascii) (rest cs : string) :
  GoString.inCutset cs c = false ->
  GoString.TrimRight (String c rest) cs = String c (GoString.TrimRight rest cs).
Proof.
  intros Hc. cbn [GoString.TrimRight]. rewrite Hc.
  destruct (GoString.TrimRight rest cs); reflexivity.
Qed.

Lemma TrimRight_app_sep (u k cs : string) (c : ascii) :
  GoString.inCutset cs c = false ->
  GoString.TrimRight (u +:+ String c k) cs = u +:+ String c (GoString.TrimRight k cs).
Proof.
  intros Hc. induction u as [| a u IH].
  - apply TrimRight_keep. exact Hc.
  - change (String a u +:+ String c k) with (String a (u +:+ String c k)).
    cbn [GoString.TrimRight]. rewrite IH.
    destruct u; reflexivity.
Qed.

(** X10: for an identity of 36 bytes that does not start with a line feed,
    a tab or a carriage return, the first operation of the callback asks the
    store whether the set of users holds the identity, two colons and the
    authorized-key line of the key without the line feeds, tabs and carriage
    returns at its end. *)
Theorem membership_asked_for_identity_and_key_line {S} (env : Env S) (s : S)
    (maxConns : Z) (ctx : ssh.Context) (key : ssh.PublicKey) :
  GoString.len (ssh.User ctx) = 36 ->
  (forall c rest, ssh.User ctx = String c rest -> GoString.inCutset cutset c = false) ->
  exists r rest,
    trace env (PublicKeyHandler maxConns ctx key) s
    = Ev (SIsMember users
            (ssh.User ctx +:+ "::"
             +:+ GoString.TrimRight (ssh.MarshalAuthorizedKey key) cutset)) r :: rest.
Proof.
  intros Hlen Hfirst. unfold PublicKeyHandler. rewrite Hlen. cbn [Z.eqb Pos.eqb negb].
  assert (Hm : GoString.Trim (ssh.User ctx +:+ "::" +:+ ssh.MarshalAuthorizedKey key) cutset
               = ssh.User ctx +:+ "::"
                 +:+ GoString.TrimRight (ssh.MarshalAuthorizedKey key) cutset).
  { unfold GoString.Trim. destruct (ssh.User ctx) as [| c u] eqn:Hu; [discriminate Hlen |].
    specialize (Hfirst c u eq_refl).
    change (String c u +:+ "::" +:+ ssh.MarshalAuthorizedKey key)
      with (String c (u +:+ "::" +:+ ssh.MarshalAuthorizedKey key)).
    cbn [GoString.TrimLeft]. rewrite Hfirst.
    change (String c (u +:+ "::" +:+ ssh.MarshalAuthorizedKey key))
      with (String c u +:+ String ":" (String ":" (ssh.MarshalAuthorizedKey key))).
    rewrite TrimRight_app_sep by reflexivity.
    rewrite TrimRight_keep by reflexivity. reflexivity. }
  rewrite Hm. unfold call. cbn [mbind Prog_bind bind]. rewrite trace_Vis.
  eexists _, _. reflexivity.
Qed.

Lemma membership_asked_for_identity_and_key_line_witness :
  exists r rest,
    trace (storeEnv (scriptEnv (openNetwork toLocalRedis)))
          (PublicKeyHandler 5 alice aliceKey) (aliceAtLimit, tt)
    = Ev (SIsMember users
            ("11111111-1111-1111-1111-111111111111::ssh-ed25519 AAAAC3NzaC1lZDI1NTE5AAAAIE"))
         r :: rest.
Proof.
  apply (membership_asked_for_identity_and_key_line
           (storeEnv (scriptEnv (openNetwork toLocalRedis))) (aliceAtLimit, tt) 5 alice aliceKey).
  - reflexivity.
  - intros c rest H. injection H as <- _. reflexivity.
Defined.

(** ** A negative maximum *)

Example maxConnections_examples :
  map maxConnections ["5"; "0"; ""; "-0"; "+3"; "-1"; "2147483648"; "five"]
  = [Some 5; None; None; None; Some 3; Some (-1); None; None].
Proof. reflexivity. Qed.

Lemma FormatInt_nonempty (n : Z) : GoString.len (strconv.FormatInt n) <> 0.
Proof.
  unfold strconv.FormatInt, GoString.len. destruct (n <? 0) eqn:Hn.
  - cbn [String.length]. lia.
  - apply Z.ltb_ge in Hn.
    destruct (formatBits_head 19 n EmptyString Hn) as (c & rest & -> & _).
    cbn [String.length]. lia.
Qed.

(** Run one operation against the store. *)
Ltac store_step :=
  rewrite result_Vis; cbn [respond storeEnv fst snd];
  repeat match goal with
         | |- context [respond ?e ?o ?x] =>
             lazymatch e with
             | storeEnv _ => fail
             | _ => destruct (respond e o x) as [? ?]
             end
         end;
  cbn [fst snd].

(** X11: [main] accepts a negative [MAX_CONNECTIONS]; with such a maximum,
    an authorized attempt with a live session is admitted exactly when the
    counter of its identity does not exist yet in the store: once the first
    session has been counted, a counter that holds any number from 0 up
    denies every further attempt, also after all sessions have ended. *)
Theorem negative_maximum_admits_once {S : Type} (outside : Env S) (n : Z)
    (ctx : ssh.Context) (key : ssh.PublicKey) (doneCh : chan) :
  - 2 ^ 31 <= n < 0 ->
  GoString.len (ssh.User ctx) = 36 ->
  ssh.Done ctx = Some doneCh ->
  maxConnections (strconv.FormatInt n) = Some n /\
  forall (st : Redis.state) (s : S),
    Redis.sismember st users (memberOf ctx key) = true ->
    (forall v, Redis.hfield st connections (ssh.User ctx) = Some v ->
               exists c, 0 <= c < 2 ^ 31 /\ v = strconv.FormatInt c) ->
    result (storeEnv outside) (PublicKeyHandler n ctx key) (st, s)
    = match Redis.hfield st connections (ssh.User ctx) with
      | None => true
      | Some _ => false
      end.
Proof.
  intros Hn Hlen Hdone. change (2 ^ 31) with 2147483648 in *.
  split.
  - unfold maxConnections.
    rewrite (ParseInt_FormatInt 32 n) by (auto; change (2 ^ (32 - 1)) with 2147483648; lia).
    destruct (Z.eqb_spec n 0); [lia |].
    destruct (Z.eqb_spec (GoString.len (strconv.FormatInt n)) 0) as [E | _];
      [exfalso; exact (FormatInt_nonempty n E) | reflexivity].
  - intros st s Hmem Hcanon.
    unfold memberOf in Hmem. unfold PublicKeyHandler. rewrite Hlen, Hdone.
    cbn [Z.eqb Pos.eqb negb]. unfold call, withDefer.
    cbn [mbind mret Prog_bind Prog_ret bind].
    store_step. rewrite Hmem. cbn [isErr orb negb].
    store_step. store_step.
    unfold Redis.hget.
    destruct (Redis.hfield st connections (ssh.User ctx)) as [v |] eqn:Hf.
    + destruct (Hcanon v eq_refl) as (c & Hc & ->). cbn [fst snd].
      rewrite (ParseInt_FormatInt 32 c) by (auto; change (2 ^ (32 - 1)) with 2147483648; lia).
      destruct (Z.leb_spec n c); [| lia]. cbn [bind]. store_step. reflexivity.
    + cbn [fst snd strconv.ParseInt bind].
      store_step.
      rewrite (hincrby_ok st connections (ssh.User ctx) 1 0)
        by (try (unfold Redis.counter; rewrite Hf; reflexivity);
            change (2 ^ 63) with 9223372036854775808; lia).
      cbn [fst snd isErr bind]. store_step. store_step. reflexivity.
Qed.

Lemma negative_maximum_admits_once_witness :
  maxConnections "-1" = Some (-1) /\
  forall (st : Redis.state) (s : unit),
    Redis.sismember st users (memberOf alice aliceKey) = true ->
    (forall v, Redis.hfield st connections (ssh.User alice) = Some v ->
               exists c, 0 <= c < 2 ^ 31 /\ v = strconv.FormatInt c) ->
    result (storeEnv (scriptEnv (openNetwork toLocalRedis)))
           (PublicKeyHandler (-1) alice aliceKey) (st, s)
    = match Redis.hfield st connections (ssh.User alice) with
      | None => true
      | Some _ => false
      end.
Proof.
  apply (negative_maximum_admits_once (scriptEnv (openNetwork toLocalRedis)) (-1)
           alice aliceKey 0%nat).
  - vm_compute. split; [discriminate | reflexivity].
  - reflexivity.
  - reflexivity.
Defined.

(** ** The quota while sessions come and go *)

Lemma tally_insert {A} (f : A -> bool) (l : list A) (i : nat) (x y : A) :
  l !! i = Some y ->
  (tally f (<[i := x]> l) + b2n (f y) = tally f l + b2n (f x))%nat.
Proof.
  unfold tally. revert i. induction l as [| a l IH]; intros i Hi; [discriminate |].
  destruct i as [| i]; simpl in *.
  - injection Hi as ->. destruct (f x), (f y); simpl; lia.
  - specialize (IH i Hi). destruct (f a); simpl; lia.
Qed.

Lemma tally_snoc {A} (f : A -> bool) (l : list A) (x : A) :
  tally f (l ++ [x]) = (tally f l + b2n (f x))%nat.
Proof.
  unfold tally. rewrite List.filter_app, length_app. simpl. destruct (f x); reflexivity.
Qed.

Lemma tally_pos {A} (f : A -> bool) (l : list A) (i : nat) (x : A) :
  l !! i = Some x -> f x = true -> (0 < tally f l)%nat.
Proof.
  unfold tally. revert i. induction l as [| a l IH]; intros i Hi Hf; [discriminate |].
  destruct i as [| i]; simpl in *.
  - injection Hi as ->. rewrite Hf. simpl. lia.
  - destruct (f a); simpl; [lia | eauto].
Qed.

Lemma tally_le {A} (f g : A -> bool) (l : list A) :
  Forall (fun x => f x = true -> g x = true) l -> (tally f l <= tally g l)%nat.
Proof.
  unfold tally. induction 1 as [| a l Ha _ IH]; simpl; [lia |].
  destruct (f a) eqn:Hf.
  - rewrite (Ha eq_refl). simpl. lia.
  - destruct (g a); simpl; lia.
Qed.

Lemma tally_one {A} (f g : A -> bool) (l : list A) (i : nat) (x : A) :
  l !! i = Some x -> g x = true -> tally g l = 1%nat ->
  (forall y, f y = true -> g y = true) -> f x = false -> tally f l = 0%nat.
Proof.
  unfold tally. revert i. induction l as [| a l IH]; intros i Hi Hg H1 Hfg Hf; [reflexivity |].
  destruct i as [| i]; simpl in *.
  - injection Hi as ->. rewrite Hf. rewrite Hg in H1. simpl in H1.
    assert (H0 : length (List.filter g l) = 0%nat) by lia.
    clear - H0 Hfg. induction l as [| b l IHl]; [reflexivity |]. simpl in *.
    destruct (f b) eqn:Hb; [rewrite (Hfg b Hb) in H0; discriminate H0 |].
    destruct (g b); simpl in H0; [discriminate H0 | auto].
  - destruct (g a) eqn:Hga.
    + simpl in H1. exfalso.
      assert (0 < length (List.filter g l))%nat by (apply (tally_pos g l i x); assumption).
      lia.
    + destruct (f a) eqn:Hfa; [rewrite (Hfg a Hfa) in Hga; discriminate |]. eauto.
Qed.

Section Sessions.

Context {S : Type} (outside : Env S).
Variable maxConns : Z.
Hypothesis Hmax : 1 <= maxConns < 2 ^ 31.

Lemma stepProg_Start_any ctx key (sys : Sys (Redis.state * S)) :
  stepProg (storeEnv outside) (PublicKeyHandler maxConns ctx key) sys
  = if negb (GoString.len (ssh.User ctx) =? 36) then None
    else Some (progOf maxConns (ssh.User ctx)
                 (afterMember ctx (Redis.sismember (fst (world sys)) users (memberOf ctx key))),
               setWorld sys (world sys)).
Proof.
  unfold PublicKeyHandler, memberOf, afterMember.
  destruct (negb (GoString.len (ssh.User ctx) =? 36)); [reflexivity |].
  unfold call. cbn [mbind Prog_bind bind stepProg].
  destruct (world sys) as [st s]. cbn [respond storeEnv fst].
  destruct (Redis.sismember st users _); cbn [isErr orb negb]; [| reflexivity].
  destruct (ssh.Done ctx); reflexivity.
Qed.

Lemma afterRead_live st u c doneCh :
  Redis.counter st connections u = Some c -> 0 <= c <= maxConns ->
  afterRead maxConns doneCh (fst (Redis.hget st connections u))
  = if maxConns <=? c then Unlocking false else Incrementing doneCh.
Proof.
  intros Hc Hrange. unfold Redis.counter in Hc. unfold Redis.hget, afterRead.
  change (2 ^ 31) with 2147483648 in Hmax.
  destruct (Redis.hfield st connections u) as [v |]; cbn [fst].
  - apply string2ll_canonical in Hc. subst v.
    rewrite (ParseInt_FormatInt 32 c) by (auto; change (2 ^ (32 - 1)) with 2147483648; lia).
    reflexivity.
  - injection Hc as <-. cbn [strconv.ParseInt].
    destruct (Z.leb_spec maxConns 0); [lia | reflexivity].
Qed.

Lemma stepProg_GWait g (sys : Sys (Redis.state * S)) :
  g_ph g = GWait ->
  stepProg (storeEnv outside) (progG g) sys
  = if isClosed (closed sys) (g_ch g)
    then Some (progG {| g_ch := g_ch g; g_user := g_user g; g_ph := GDecr |}, sys)
    else None.
Proof. intros Hg. unfold progG. rewrite Hg. reflexivity. Qed.

Lemma stepProg_GDecr g (sys : Sys (Redis.state * S)) :
  g_ph g = GDecr ->
  stepProg (storeEnv outside) (progG g) sys
  = Some (progG {| g_ch := g_ch g; g_user := g_user g; g_ph := GDone |},
          setWorld sys (snd (Redis.hincrby (fst (world sys)) connections (g_user g) (-1)),
                        snd (world sys))).
Proof.
  intros Hg. unfold progG. rewrite Hg. unfold call. cbn [mbind Prog_bind bind stepProg].
  destruct (world sys) as [st s]. cbn [respond storeEnv fst snd].
  destruct (Redis.hincrby st connections (g_user g) (-1)) as [[n err] st']. reflexivity.
Qed.

Lemma isClosed_cons (cs : list chan) (c x : chan) :
  isClosed cs x = true -> isClosed (c :: cs) x = true.
Proof. intros H. unfold isClosed in *. simpl. rewrite H. apply orb_true_r. Qed.

Ltac slot_facts slots i old new Hsl u P :=
  pose proof (tally_insert (slotOf u isSpawning) slots i new old Hsl);
  pose proof (tally_insert (slotOf u isIncrementing) slots i new old Hsl);
  pose proof (tally_insert (fun sl => inCritical (s_ph sl)) slots i new old Hsl);
  pose proof (tally_insert
                (fun sl => pastSpawn (s_ph sl)
                           && P (ssh.Done (s_ctx sl)) (ssh.User (s_ctx sl))) slots i new old Hsl);
  unfold slotOf, b2n in *;
  cbn [s_ph s_ctx isSpawning isIncrementing inCritical pastSpawn andb] in *.

Lemma sessionInv_handler slots gs (sys : Sys (Redis.state * S)) i sys' :
  sessionInv maxConns slots gs sys ->
  step (storeEnv outside) (Handler i) sys = Some sys' ->
  exists slots' gs', sessionInv maxConns slots' gs' sys' /\
                     map s_ctx slots' = map s_ctx slots.
Proof.
  intros (Hh & Hg & Hwf & Hk & Hc & Hl & Hm) Hstep.
  cbn [step] in Hstep.
  destruct (handlers sys !! i) as [p |] eqn:Hi; [| discriminate].
  rewrite Hh, list_lookup_fmap in Hi.
  destruct (slots !! i) as [sl |] eqn:Hsl; [| discriminate].
  injection Hi as <-. cbn [mbind option_bind] in Hstep.
  assert (Hwfi : wfSlot sl).
  { rewrite Forall_forall in Hwf. apply Hwf. eapply list_elem_of_lookup_2; eauto. }
  assert (Hctx : forall new, s_ctx new = s_ctx sl ->
                             map s_ctx (<[i := new]> slots) = map s_ctx slots).
  { intros new Hn. rewrite list_fmap_insert, Hn. apply list_insert_id.
    rewrite list_lookup_fmap, Hsl. reflexivity. }
  assert (Hfm : forall new, <[i := progS maxConns new]> (handlers sys)
                            = map (progS maxConns) (<[i := new]> slots)).
  { intros new. rewrite Hh. symmetry. apply list_fmap_insert. }
  destruct sl as [ctx ph]. unfold wfSlot in Hwfi. cbn [s_ph s_ctx] in *.
  unfold progS in Hstep. cbn [s_ph s_ctx] in Hstep.
  destruct ph as [ctx' key | doneCh | doneCh | doneCh | doneCh | b | b].
  - (* the membership test *)
    subst ctx'. cbn [progOf] in Hstep. rewrite stepProg_Start_any in Hstep.
    destruct (negb (GoString.len (ssh.User ctx) =? 36)); [discriminate |].
    injection Hstep as <-.
    set (ph := afterMember ctx (Redis.sismember (fst (world sys)) users (memberOf ctx key))).
    assert (Hnew : (ph = Returned false) \/
                   (exists doneCh, ph = WaitLock doneCh /\ ssh.Done ctx = Some doneCh)).
    { subst ph. unfold afterMember.
      destruct (Redis.sismember _ _ _); [| auto].
      destruct (ssh.Done ctx); eauto. }
    clearbody ph.
    exists (<[i := {| s_ctx := ctx; s_ph := ph |}]> slots), gs.
    split; [| apply Hctx; reflexivity].
    unfold sessionInv. cbn [handlers goroutines held closed world setHandlers setWorld].
    split; [exact (Hfm {| s_ctx := ctx; s_ph := ph |}) |].
    split; [exact Hg |].
    split; [apply Forall_insert; [exact Hwf |];
            destruct Hnew as [-> | (ch & -> & Hd)]; unfold wfSlot; cbn [s_ph s_ctx]; auto |].
    split; [exact Hk |].
    split; [| split].
    + intros u. destruct (Hc u) as (c & H1 & H2 & H3 & H4). exists c. unfold live in *.
      slot_facts slots i {| s_ctx := ctx; s_ph := Start ctx key |}
                 {| s_ctx := ctx; s_ph := ph |} Hsl u
                 (fun (_ : option chan) (_ : string) => true).
      destruct Hnew as [-> | (ch & -> & Hd)];
        cbn [s_ph s_ctx isSpawning isIncrementing inCritical pastSpawn andb] in *;
        (split; [exact H1 | split; [lia | split; [exact H3 |]]]); intros Hpos; apply H4; lia.
    + slot_facts slots i {| s_ctx := ctx; s_ph := Start ctx key |}
                 {| s_ctx := ctx; s_ph := ph |} Hsl EmptyString
                 (fun (_ : option chan) (_ : string) => true).
      destruct Hnew as [-> | (ch & -> & Hd)];
        cbn [s_ph s_ctx isSpawning isIncrementing inCritical pastSpawn andb] in *; lia.
    + intros P. rewrite <- Hm.
      slot_facts slots i {| s_ctx := ctx; s_ph := Start ctx key |}
                 {| s_ctx := ctx; s_ph := ph |} Hsl EmptyString P.
      destruct Hnew as [-> | (ch & -> & Hd)];
        cbn [s_ph s_ctx isSpawning isIncrementing inCritical pastSpawn andb] in *; lia.
  - (* Lock *)
    rewrite stepProg_WaitLock in Hstep.
    destruct (isHeld userConnectionCountMutex (held sys)) eqn:Hheld; [discriminate |].
    injection Hstep as <-.
    exists (<[i := {| s_ctx := ctx; s_ph := Reading doneCh |}]> slots), gs.
    split; [| apply Hctx; reflexivity].
    unfold sessionInv. cbn [handlers goroutines held closed world setHandlers setHeld].
    split; [exact (Hfm {| s_ctx := ctx; s_ph := Reading doneCh |}) |].
    split; [exact Hg |].
    split; [apply Forall_insert; [exact Hwf | exact Hwfi] |].
    split; [exact Hk |].
    split; [| split].
    + intros u. destruct (Hc u) as (c & H1 & H2 & H3 & H4). exists c. unfold live in *.
      slot_facts slots i {| s_ctx := ctx; s_ph := WaitLock doneCh |}
                 {| s_ctx := ctx; s_ph := Reading doneCh |} Hsl u
                 (fun (_ : option chan) (_ : string) => true).
      split; [exact H1 | split; [lia | split; [exact H3 |]]]. intros Hpos; apply H4; lia.
    + slot_facts slots i {| s_ctx := ctx; s_ph := WaitLock doneCh |}
                 {| s_ctx := ctx; s_ph := Reading doneCh |} Hsl EmptyString
                 (fun (_ : option chan) (_ : string) => true).
      cbn [isHeld existsb mutex_eqb orb]. lia.
    + intros P. rewrite <- Hm.
      slot_facts slots i {| s_ctx := ctx; s_ph := WaitLock doneCh |}
                 {| s_ctx := ctx; s_ph := Reading doneCh |} Hsl EmptyString P.
      lia.
  - (* HGet *)
    rewrite stepProg_Reading in Hstep. injection Hstep as <-.
    destruct (Hc (ssh.User ctx)) as (c0 & Hc0 & Hlive0 & Hle0 & _).
    rewrite (afterRead_live _ _ (Z.of_nat c0)) by (try exact Hc0; lia).
    set (ph := if maxConns <=? Z.of_nat c0 then Unlocking false else Incrementing doneCh).
    assert (Hnew : ph = Unlocking false \/ (ph = Incrementing doneCh /\ Z.of_nat c0 < maxConns)).
    { subst ph. destruct (Z.leb_spec maxConns (Z.of_nat c0)); auto. }
    clearbody ph.
    exists (<[i := {| s_ctx := ctx; s_ph := ph |}]> slots), gs.
    split; [| apply Hctx; reflexivity].
    unfold sessionInv. cbn [handlers goroutines held closed world setHandlers setWorld].
    split; [exact (Hfm {| s_ctx := ctx; s_ph := ph |}) |].
    split; [exact Hg |].
    split; [apply Forall_insert; [exact Hwf |];
            destruct Hnew as [-> | [-> _]]; unfold wfSlot; cbn [s_ph s_ctx]; auto |].
    split; [exact Hk |].
    split; [| split].
    + intros u. destruct (Hc u) as (c & H1 & H2 & H3 & H4). exists c. unfold live in *.
      slot_facts slots i {| s_ctx := ctx; s_ph := Reading doneCh |}
                 {| s_ctx := ctx; s_ph := ph |} Hsl u
                 (fun (_ : option chan) (_ : string) => true).
      destruct Hnew as [-> | [-> Hlt]];
        cbn [s_ph s_ctx isSpawning isIncrementing inCritical pastSpawn andb] in *;
        (split; [exact H1 | split; [lia | split; [exact H3 |]]]); intros Hpos.
      * apply H4. lia.
      * destruct (String.eqb_spec (ssh.User ctx) u) as [<- | Hne].
        -- rewrite Hc0 in H1. injection H1 as H1. lia.
        -- apply H4. lia.
    + slot_facts slots i {| s_ctx := ctx; s_ph := Reading doneCh |}
                 {| s_ctx := ctx; s_ph := ph |} Hsl EmptyString
                 (fun (_ : option chan) (_ : string) => true).
      destruct Hnew as [-> | [-> Hlt]];
        cbn [s_ph s_ctx isSpawning isIncrementing inCritical pastSpawn andb] in *; lia.
    + intros P. rewrite <- Hm.
      slot_facts slots i {| s_ctx := ctx; s_ph := Reading doneCh |}
                 {| s_ctx := ctx; s_ph := ph |} Hsl EmptyString P.
      destruct Hnew as [-> | [-> Hlt]];
        cbn [s_ph s_ctx isSpawning isIncrementing inCritical pastSpawn andb] in *; lia.
  - (* HIncrBy *)
    rewrite stepProg_Incrementing in Hstep. injection Hstep as <-.
    destruct (Hc (ssh.User ctx)) as (c0 & Hc0 & Hlive0 & Hle0 & Hlt0).
    assert (Hlt : Z.of_nat c0 < maxConns).
    { apply Hlt0. apply (tally_pos _ slots i _ Hsl). unfold slotOf. cbn [s_ph s_ctx isIncrementing].
      rewrite String.eqb_refl. reflexivity. }
    assert (Hone : tally (fun sl => inCritical (s_ph sl)) slots = 1%nat).
    { assert (0 < tally (fun sl => inCritical (s_ph sl)) slots)%nat
        by (apply (tally_pos _ slots i _ Hsl); reflexivity).
      destruct (isHeld userConnectionCountMutex (held sys)); lia. }
    change (2 ^ 31) with 2147483648 in Hmax.
    rewrite (hincrby_ok _ _ _ 1 (Z.of_nat c0) Hc0)
      by (change (2 ^ 63) with 9223372036854775808; lia).
    cbn [fst snd afterIncr isErr].
    exists (<[i := {| s_ctx := ctx; s_ph := Spawning doneCh |}]> slots), gs.
    split; [| apply Hctx; reflexivity].
    unfold sessionInv. cbn [handlers goroutines held closed world setHandlers setWorld fst snd].
    split; [exact (Hfm {| s_ctx := ctx; s_ph := Spawning doneCh |}) |].
    split; [exact Hg |].
    split; [apply Forall_insert; [exact Hwf | exact Hwfi] |].
    split; [exact Hk |].
    split; [| split].
    + intros u. destruct (Hc u) as (c & H1 & H2 & H3 & H4). unfold live in *.
      slot_facts slots i {| s_ctx := ctx; s_ph := Incrementing doneCh |}
                 {| s_ctx := ctx; s_ph := Spawning doneCh |} Hsl u
                 (fun (_ : option chan) (_ : string) => true).
      rewrite counter_hset.
      destruct (String.eqb_spec (ssh.User ctx) u) as [<- | Hne].
      * rewrite decide_True by done.
        rewrite string2ll_FormatInt by (change (2 ^ 63) with 9223372036854775808; lia).
        rewrite Hc0 in H1. injection H1 as H1. apply Nat2Z.inj in H1. subst c0.
        exists (c + 1)%nat. split; [f_equal; lia |]. split; [lia |]. split; [lia |].
        intros Hpos. exfalso.
        assert (Hz : tally (slotOf (ssh.User ctx) isIncrementing)
                           (<[i := {| s_ctx := ctx; s_ph := Spawning doneCh |}]> slots) = 0%nat).
        { apply (tally_one _ (fun sl => inCritical (s_ph sl)) _ i
                           {| s_ctx := ctx; s_ph := Spawning doneCh |}).
          - apply list_lookup_insert_eq. eapply lookup_lt_Some; eauto.
          - reflexivity.
          - lia.
          - intros [c' ph'] Hy. unfold slotOf in Hy. cbn [s_ph s_ctx] in *.
            destruct ph'; try discriminate Hy; reflexivity.
          - reflexivity. }
        unfold slotOf in Hz. lia.
      * rewrite decide_False by (intros [_ E]; contradiction).
        exists c. split; [exact H1 | split; [lia | split; [exact H3 |]]].
        intros Hpos. apply H4. lia.
    + slot_facts slots i {| s_ctx := ctx; s_ph := Incrementing doneCh |}
                 {| s_ctx := ctx; s_ph := Spawning doneCh |} Hsl EmptyString
                 (fun (_ : option chan) (_ : string) => true).
      lia.
    + intros P. rewrite <- Hm.
      slot_facts slots i {| s_ctx := ctx; s_ph := Incrementing doneCh |}
                 {| s_ctx := ctx; s_ph := Spawning doneCh |} Hsl EmptyString P.
      lia.
  - (* go *)
    rewrite stepProg_Spawning in Hstep. injection Hstep as <-.
    set (g := {| g_ch := doneCh; g_user := ssh.User ctx; g_ph := GWait |}).
    exists (<[i := {| s_ctx := ctx; s_ph := Unlocking true |}]> slots), (gs ++ [g]).
    split; [| apply Hctx; reflexivity].
    unfold sessionInv. cbn [handlers goroutines held closed world setHandlers setGoroutines].
    split; [exact (Hfm {| s_ctx := ctx; s_ph := Unlocking true |}) |].
    split; [rewrite map_app, Hg; reflexivity |].
    split; [apply Forall_insert; [exact Hwf | exact I] |].
    split; [apply Forall_app; split; [exact Hk |]; constructor; [| constructor];
            intros Hne; exfalso; apply Hne; reflexivity |].
    split; [| split].
    + intros u. destruct (Hc u) as (c & H1 & H2 & H3 & H4). exists c. unfold live in *.
      slot_facts slots i {| s_ctx := ctx; s_ph := Spawning doneCh |}
                 {| s_ctx := ctx; s_ph := Unlocking true |} Hsl u
                 (fun (_ : option chan) (_ : string) => true).
      rewrite tally_snoc. unfold b2n. subst g. cbn [pending g_ph g_user andb].
      destruct (String.eqb (ssh.User ctx) u);
        (split; [exact H1 | split; [lia | split; [exact H3 |]]]); intros Hpos; apply H4; lia.
    + slot_facts slots i {| s_ctx := ctx; s_ph := Spawning doneCh |}
                 {| s_ctx := ctx; s_ph := Unlocking true |} Hsl EmptyString
                 (fun (_ : option chan) (_ : string) => true).
      lia.
    + intros P. rewrite tally_snoc, <- Hm. unfold b2n. subst g. cbn [g_ch g_user].
      slot_facts slots i {| s_ctx := ctx; s_ph := Spawning doneCh |}
                 {| s_ctx := ctx; s_ph := Unlocking true |} Hsl EmptyString P.
      rewrite Hwfi in *. lia.
  - (* Unlock *)
    rewrite stepProg_Unlocking in Hstep. injection Hstep as <-.
    assert (Hone : tally (fun sl => inCritical (s_ph sl)) slots = 1%nat).
    { assert (0 < tally (fun sl => inCritical (s_ph sl)) slots)%nat
        by (apply (tally_pos _ slots i _ Hsl); reflexivity).
      destruct (isHeld userConnectionCountMutex (held sys)); lia. }
    exists (<[i := {| s_ctx := ctx; s_ph := Returned b |}]> slots), gs.
    split; [| apply Hctx; reflexivity].
    unfold sessionInv. cbn [handlers goroutines held closed world setHandlers setHeld].
    rewrite isHeld_release.
    split; [exact (Hfm {| s_ctx := ctx; s_ph := Returned b |}) |].
    split; [exact Hg |].
    split; [apply Forall_insert; [exact Hwf | exact I] |].
    split; [exact Hk |].
    split; [| split].
    + intros u. destruct (Hc u) as (c & H1 & H2 & H3 & H4). exists c. unfold live in *.
      slot_facts slots i {| s_ctx := ctx; s_ph := Unlocking b |}
                 {| s_ctx := ctx; s_ph := Returned b |} Hsl u
                 (fun (_ : option chan) (_ : string) => true).
      split; [exact H1 | split; [lia | split; [exact H3 |]]]. intros Hpos; apply H4; lia.
    + slot_facts slots i {| s_ctx := ctx; s_ph := Unlocking b |}
                 {| s_ctx := ctx; s_ph := Returned b |} Hsl EmptyString
                 (fun (_ : option chan) (_ : string) => true).
      lia.
    + intros P. rewrite <- Hm.
      slot_facts slots i {| s_ctx := ctx; s_ph := Unlocking b |}
                 {| s_ctx := ctx; s_ph := Returned b |} Hsl EmptyString P.
      destruct b; lia.
  - discriminate Hstep.
Qed.

Lemma sessionInv_goroutine slots gs (sys : Sys (Redis.state * S)) j sys' :
  sessionInv maxConns slots gs sys ->
  step (storeEnv outside) (Goroutine j) sys = Some sys' ->
  exists gs', sessionInv maxConns slots gs' sys'.
Proof.
  intros (Hh & Hg & Hwf & Hk & Hc & Hl & Hm) Hstep.
  cbn [step] in Hstep.
  destruct (goroutines sys !! j) as [p |] eqn:Hj; [| discriminate].
  rewrite Hg, list_lookup_fmap in Hj.
  destruct (gs !! j) as [g |] eqn:Hgj; [| discriminate].
  injection Hj as <-. cbn [mbind option_bind] in Hstep.
  assert (Hkj : g_ph g <> GWait -> isClosed (closed sys) (g_ch g) = true).
  { rewrite Forall_forall in Hk. apply Hk. eapply list_elem_of_lookup_2; eauto. }
  assert (Hfm : forall new, <[j := progG new]> (goroutines sys) = map progG (<[j := new]> gs)).
  { intros new. rewrite Hg. symmetry. apply list_fmap_insert. }
  assert (HP : forall (P : option chan -> string -> bool) ph,
             tally (fun g => P (Some (g_ch g)) (g_user g))
                   (<[j := {| g_ch := g_ch g; g_user := g_user g; g_ph := ph |}]> gs)
             = tally (fun g => P (Some (g_ch g)) (g_user g)) gs).
  { intros P ph.
    pose proof (tally_insert (fun g => P (Some (g_ch g)) (g_user g)) gs j
                  {| g_ch := g_ch g; g_user := g_user g; g_ph := ph |} g Hgj) as T.
    cbn [g_ch g_user] in T. lia. }
  destruct (g_ph g) eqn:Hph.
  - (* the session has ended *)
    rewrite (stepProg_GWait g sys Hph) in Hstep.
    destruct (isClosed (closed sys) (g_ch g)) eqn:Hcl; [| discriminate].
    injection Hstep as <-.
    set (g' := {| g_ch := g_ch g; g_user := g_user g; g_ph := GDecr |}).
    exists (<[j := g']> gs).
    unfold sessionInv. cbn [handlers goroutines held closed world setGoroutines].
    split; [exact Hh |].
    split; [exact (Hfm g') |].
    split; [exact Hwf |].
    split; [apply Forall_insert; [exact Hk | intros _; exact Hcl] |].
    split; [| split; [exact Hl | intros P; rewrite Hm; symmetry; apply HP]].
    intros u. destruct (Hc u) as (c & H1 & H2 & H3 & H4). exists c. unfold live in *.
    pose proof (tally_insert (fun g => pending g && String.eqb (g_user g) u) gs j g' g Hgj) as T.
    cbn beta in T.
    assert (Hp : pending g = true) by (unfold pending; rewrite Hph; reflexivity).
    change (pending g') with true in T. change (g_user g') with (g_user g) in T.
    rewrite Hp in T.
    split; [exact H1 | split; [lia | split; [exact H3 | exact H4]]].
  - (* the decrement *)
    rewrite (stepProg_GDecr g sys Hph) in Hstep. injection Hstep as <-.
    set (g' := {| g_ch := g_ch g; g_user := g_user g; g_ph := GDone |}).
    destruct (Hc (g_user g)) as (c0 & Hc0 & Hlive0 & Hle0 & Hlt0).
    assert (Hpos : (0 < c0)%nat).
    { rewrite Hlive0. unfold live.
      assert (0 < tally (fun g0 => pending g0 && String.eqb (g_user g0) (g_user g)) gs)%nat.
      { apply (tally_pos _ gs j g Hgj). unfold pending. rewrite Hph, String.eqb_refl. reflexivity. }
      lia. }
    change (2 ^ 31) with 2147483648 in Hmax.
    rewrite (hincrby_ok _ _ _ (-1) (Z.of_nat c0) Hc0)
      by (change (2 ^ 63) with 9223372036854775808; lia).
    exists (<[j := g']> gs).
    unfold sessionInv. cbn [handlers goroutines held closed world setGoroutines setWorld fst snd].
    split; [exact Hh |].
    split; [exact (Hfm g') |].
    split; [exact Hwf |].
    split; [apply Forall_insert; [exact Hk | intros _; apply Hkj; discriminate] |].
    split; [| split; [exact Hl | intros P; rewrite Hm; symmetry; apply HP]].
    intros u. destruct (Hc u) as (c & H1 & H2 & H3 & H4). unfold live in *.
    pose proof (tally_insert (fun g => pending g && String.eqb (g_user g) u) gs j g' g Hgj) as T.
    cbn beta in T.
    assert (Hp : pending g = true) by (unfold pending; rewrite Hph; reflexivity).
    change (pending g') with false in T. change (g_user g') with (g_user g) in T.
    rewrite Hp in T. unfold b2n in T. cbn [andb] in T. rewrite counter_hset.
    destruct (String.eqb_spec (g_user g) u) as [<- | Hne].
    + rewrite decide_True by done.
      rewrite string2ll_FormatInt by (change (2 ^ 63) with 9223372036854775808; lia).
      rewrite Hc0 in H1. injection H1 as H1. apply Nat2Z.inj in H1. subst c0.
      exists (c - 1)%nat. split; [f_equal; lia |]. split; [lia |]. split; [lia |].
      intros Hi. lia.
    + rewrite decide_False by (intros [_ E]; contradiction).
      exists c. split; [exact H1 | split; [lia | split; [exact H3 | exact H4]]].
  - (* finished *)
    unfold progG in Hstep. rewrite Hph in Hstep. discriminate Hstep.
Qed.

Lemma sessionInv_ends slots gs (sys : Sys (Redis.state * S)) doneCh :
  sessionInv maxConns slots gs sys ->
  sessionInv maxConns slots gs (setClosed sys (doneCh :: closed sys)).
Proof.
  intros (Hh & Hg & Hwf & Hk & Hc & Hl & Hm).
  unfold sessionInv. cbn [handlers goroutines held closed world setClosed].
  repeat (split; [assumption |]).
  split; [| split; [exact Hc | split; assumption]].
  eapply Forall_impl; [exact Hk |]. intros g Hg' Hne. apply isClosed_cons. auto.
Qed.

Lemma sessionInv_play actions : forall slots gs (sys sys' : Sys (Redis.state * S)),
  sessionInv maxConns slots gs sys ->
  play (storeEnv outside) actions sys = Some sys' ->
  exists slots' gs', sessionInv maxConns slots' gs' sys' /\
                     map s_ctx slots' = map s_ctx slots.
Proof.
  induction actions as [| m rest IH]; intros slots gs sys sys' Hinv Hplay.
  - injection Hplay as <-. eauto.
  - cbn [play] in Hplay.
    destruct (advance (storeEnv outside) m sys) as [sys1 |] eqn:Hadv; [| discriminate].
    cbn [mbind option_bind] in Hplay.
    assert (H1 : exists slots1 gs1, sessionInv maxConns slots1 gs1 sys1 /\
                                    map s_ctx slots1 = map s_ctx slots).
    { destruct m as [[i | j] | doneCh]; cbn [advance] in Hadv.
      - eapply sessionInv_handler; eauto.
      - destruct (sessionInv_goroutine _ _ _ _ _ Hinv Hadv) as [gs1 H]. eauto.
      - injection Hadv as <-. exists slots, gs. split; [| reflexivity].
        apply sessionInv_ends. exact Hinv. }
    destruct H1 as (slots1 & gs1 & Hinv1 & Hctx1).
    destruct (IH _ _ _ _ Hinv1 Hplay) as (slots' & gs' & Hinv' & Hctx').
    exists slots', gs'. split; [exact Hinv' | congruence].
Qed.

Lemma sessionInv_initial attempts st (s : S) :
  (forall u, Redis.hfield st connections u = None) ->
  sessionInv maxConns (map startSlot attempts) [] (attemptsSys maxConns attempts st s).
Proof.
  intros Hempty.
  assert (Hzero : forall f : slot -> bool,
             (forall a, f (startSlot a) = false) -> tally f (map startSlot attempts) = 0%nat).
  { intros f Hf. unfold tally. induction attempts as [| a l IH]; [reflexivity |].
    simpl. rewrite Hf. exact IH. }
  unfold sessionInv, attemptsSys. cbn [handlers goroutines held closed world fst].
  split; [rewrite map_map; reflexivity |].
  split; [reflexivity |].
  split; [rewrite Forall_map; apply Forall_forall; intros a _; reflexivity |].
  split; [constructor |].
  split; [| split].
  - intros u. exists 0%nat. unfold Redis.counter, live. rewrite Hempty.
    rewrite !Hzero by reflexivity.
    split; [reflexivity | split; [reflexivity | split; [simpl; lia | simpl; lia]]].
  - apply Hzero. reflexivity.
  - intros P. apply Hzero. reflexivity.
Qed.

(** What the invariant says of the attempts admitted and still open. *)
Lemma open_le_live slots gs (sys : Sys (Redis.state * S)) attempts u :
  sessionInv maxConns slots gs sys -> map s_ctx slots = map fst attempts ->
  (openSessions u attempts sys <= live u slots gs)%nat.
Proof.
  intros (Hh & Hg & Hwf & Hk & Hc & Hl & Hm) Hctx.
  set (P := fun (d : option chan) (u' : string) =>
              String.eqb u' u
              && match d with
                 | Some doneCh => negb (isClosed (closed sys) doneCh)
                 | None => false
                 end).
  assert (H1 : (openSessions u attempts sys
                <= tally (fun sl => pastSpawn (s_ph sl)
                                    && P (ssh.Done (s_ctx sl)) (ssh.User (s_ctx sl))) slots)%nat).
  { unfold openSessions, tally. rewrite Hh. clear - Hctx.
    revert attempts Hctx. induction slots as [| sl slots IH]; intros [| a attempts] Hctx;
      try discriminate Hctx; [simpl; lia |].
    injection Hctx as Ha Hctx. specialize (IH attempts Hctx).
    cbn [map combine List.filter]. unfold isOpen at 1. cbn [fst snd]. rewrite <- Ha.
    destruct (String.eqb (ssh.User (s_ctx sl)) u) eqn:Hu; cbn [andb].
    2:{ destruct (pastSpawn (s_ph sl) && P _ _); simpl; lia. }
    destruct (returned (progS maxConns sl)) as [[|] |] eqn:Hr; cbn [andb].
    2,3: destruct (pastSpawn (s_ph sl) && P _ _); simpl; lia.
    assert (Hps : pastSpawn (s_ph sl) = true).
    { unfold progS in Hr. destruct (s_ph sl) as [ctx key | | | | | b | b]; try discriminate Hr.
      - cbn [progOf] in Hr. unfold PublicKeyHandler in Hr.
        destruct (negb _) in Hr; discriminate Hr.
      - injection Hr as ->. reflexivity. }
    rewrite Hps. subst P. cbn [andb]. rewrite Hu. cbn [andb].
    destruct (match ssh.Done (s_ctx sl) with
              | Some doneCh => negb (isClosed (closed sys) doneCh)
              | None => false
              end); simpl; lia. }
  rewrite Hm in H1.
  assert (H2 : (tally (fun g => P (Some (g_ch g)) (g_user g)) gs
                <= tally (fun g => pending g && String.eqb (g_user g) u) gs)%nat).
  { apply tally_le. eapply Forall_impl; [exact Hk |]. intros g Hg' HP.
    subst P. cbn beta in HP. apply andb_true_iff in HP as [Hu Hcl].
    apply negb_true_iff in Hcl. rewrite Hu. unfold pending.
    destruct (g_ph g) eqn:Hph; try reflexivity.
    all: rewrite Hg' in Hcl by congruence; discriminate Hcl. }
  unfold live. lia.
Qed.

End Sessions.

(** X12: the quota holds at all times.  Attempts of any identities, with
    any keys, start against a store whose connection counters do not exist
    (as [main] leaves it after deleting the hash); handlers and goroutines
    are interleaved in any way and sessions end at any moment; the store
    answers every call; the maximum is between 1 and 2^31-1.  Then in every
    state reached, for every identity, the counter holds a number that is at
    most the maximum and at least the number of attempts of the identity
    that were admitted and whose session has not ended. *)
Theorem open_sessions_within_quota {S : Type} (outside : Env S) (maxConns : Z)
    (attempts : list (ssh.Context * ssh.PublicKey))
    (st : Redis.state) (s : S) (actions : list action) (sys' : Sys (Redis.state * S))
    (userId : string) :
  1 <= maxConns < 2 ^ 31 ->
  (forall u, Redis.hfield st connections u = None) ->
  play (storeEnv outside) actions (attemptsSys maxConns attempts st s) = Some sys' ->
  exists c,
    Redis.counter (fst (world sys')) connections userId = Some c /\
    Z.of_nat (openSessions userId attempts sys') <= c <= maxConns.
Proof.
  intros Hmax Hempty Hplay.
  pose proof (sessionInv_initial maxConns Hmax attempts st s Hempty) as Hinit.
  destruct (sessionInv_play outside maxConns Hmax actions _ _ _ _ Hinit Hplay)
    as (slots & gs & Hinv & Hctx).
  assert (Hctx' : map s_ctx slots = map fst attempts).
  { rewrite Hctx, map_map. reflexivity. }
  pose proof (open_le_live maxConns slots gs sys' attempts userId Hinv Hctx') as Hopen.
  destruct Hinv as (_ & _ & _ & _ & Hc & _).
  destruct (Hc userId) as (c & H1 & H2 & H3 & _).
  exists (Z.of_nat c). split; [exact H1 | lia].
Qed.

(** X13: nothing is left in a counter.  Under the assumptions of X12, in a
    state where every handler has returned and every goroutine has run to
    its end, the connection counter of every identity holds zero. *)
Theorem counters_return_to_zero {S : Type} (outside : Env S) (maxConns : Z)
    (attempts : list (ssh.Context * ssh.PublicKey))
    (st : Redis.state) (s : S) (actions : list action) (sys' : Sys (Redis.state * S))
    (userId : string) :
  1 <= maxConns < 2 ^ 31 ->
  (forall u, Redis.hfield st connections u = None) ->
  play (storeEnv outside) actions (attemptsSys maxConns attempts st s) = Some sys' ->
  allReturned (handlers sys') ->
  Forall (fun g => returned g = Some tt) (goroutines sys') ->
  Redis.counter (fst (world sys')) connections userId = Some 0.
Proof.
  intros Hmax Hempty Hplay Hret Hgo.
  pose proof (sessionInv_initial maxConns Hmax attempts st s Hempty) as Hinit.
  destruct (sessionInv_play outside maxConns Hmax actions _ _ _ _ Hinit Hplay)
    as (slots & gs & Hinv & Hctx).
  destruct Hinv as (Hh & Hg & _ & _ & Hc & _).
  destruct (Hc userId) as (c & H1 & H2 & _).
  assert (Hs : tally (slotOf userId isSpawning) slots = 0%nat).
  { unfold allReturned in Hret. rewrite Hh in Hret. unfold tally. clear - Hret.
    induction slots as [| sl slots IH]; [reflexivity |].
    inversion Hret as [| ? ? Hr Hrest]; subst. simpl. unfold slotOf at 1.
    destruct (s_ph sl) eqn:Hph; cbn [isSpawning andb]; auto.
    exfalso. unfold progS in Hr. rewrite Hph in Hr. destruct Hr as [x Hx]. discriminate Hx. }
  assert (Hp : tally (fun g => pending g && String.eqb (g_user g) userId) gs = 0%nat).
  { rewrite Hg in Hgo. unfold tally. clear - Hgo.
    induction gs as [| g gs IH]; [reflexivity |].
    inversion Hgo as [| ? ? Hr Hrest]; subst. simpl. unfold pending at 1.
    unfold progG in Hr.
    destruct (g_ph g); cbn [andb]; auto; discriminate Hr. }
  unfold live in H2. rewrite Hs, Hp in H2. subst c. exact H1.
Qed.

Lemma aliceListed_no_counter (u : string) : Redis.hfield aliceListed connections u = None.
Proof.
  unfold Redis.hfield, aliceListed, storeWith. cbn [Redis.hashes].
  rewrite lookup_singleton_eq. cbn. apply lookup_empty.
Qed.

Example comeAndGo_outcome :
  match play (storeEnv (scriptEnv (openNetwork toLocalRedis))) comeAndGo
             (attemptsSys 2 threeAttempts aliceListed tt) with
  | Some sys' =>
      map returned (handlers sys') = [Some true; Some true; Some false] /\
      openSessions (ssh.User alice) threeAttempts sys' = 1%nat /\
      Redis.hfield (fst (world sys')) connections (ssh.User alice) = Some "1"
  | None => False
  end.
Proof. vm_compute. repeat split. Qed.

Lemma open_sessions_within_quota_witness :
  match play (storeEnv (scriptEnv (openNetwork toLocalRedis))) comeAndGo
             (attemptsSys 2 threeAttempts aliceListed tt) with
  | Some sys' =>
      exists c,
        Redis.counter (fst (world sys')) connections (ssh.User alice) = Some c /\
        Z.of_nat (openSessions (ssh.User alice) threeAttempts sys') <= c <= 2
  | None => False
  end.
Proof.
  destruct (play (storeEnv (scriptEnv (openNetwork toLocalRedis))) comeAndGo
                 (attemptsSys 2 threeAttempts aliceListed tt)) as [sys' |] eqn:Hplay.
  - apply (open_sessions_within_quota (scriptEnv (openNetwork toLocalRedis)) 2
             threeAttempts aliceListed tt comeAndGo sys' (ssh.User alice)).
    + vm_compute. split; [discriminate | reflexivity].
    + exact aliceListed_no_counter.
    + exact Hplay.
  - vm_compute in Hplay. discriminate Hplay.
Defined.

Lemma counters_return_to_zero_witness :
  match play (storeEnv (scriptEnv (openNetwork toLocalRedis))) inAndOut
             (attemptsSys 2 [(alice, aliceKey)] aliceListed tt) with
  | Some sys' => Redis.counter (fst (world sys')) connections (ssh.User alice) = Some 0
  | None => False
  end.
Proof.
  destruct (play (storeEnv (scriptEnv (openNetwork toLocalRedis))) inAndOut
                 (attemptsSys 2 [(alice, aliceKey)] aliceListed tt)) as [sys' |] eqn:Hplay.
  - apply (counters_return_to_zero (scriptEnv (openNetwork toLocalRedis)) 2
             [(alice, aliceKey)] aliceListed tt inAndOut sys' (ssh.User alice)).
    + vm_compute. split; [discriminate | reflexivity].
    + exact aliceListed_no_counter.
    + exact Hplay.
    + vm_compute in Hplay. injection Hplay as <-.
      constructor; [eexists; reflexivity | constructor].
    + vm_compute in Hplay. injection Hplay as <-.
      constructor; [reflexivity | constructor].
  - vm_compute in Hplay. discriminate Hplay.
Defined.

(** ** The version copier, round after round *)

Lemma sliceFrom_zeros (k m : nat) :
  untilNull (GoString.sliceFrom k (string_of_list_ascii (repeat zero m))) = "".
Proof.
  revert k. induction m as [| m IH]; intros k.
  - destruct k; reflexivity.
  - destruct k as [| k]; [reflexivity |]. simpl. apply IH.
Qed.

Lemma noNull_sliceFrom (n : nat) (s : string) :
  noNull s = true -> noNull (GoString.sliceFrom n s) = true.
Proof.
  revert s. induction n as [| n IH]; intros s Hs; [exact Hs |].
  destruct s as [| c s]; [reflexivity |]. simpl in *.
  apply andb_true_iff in Hs as [_ Hs]. apply IH. exact Hs.
Qed.

(** The buffer after [old], then [data], were read into the fresh buffer:
    up to its first null byte it holds [data] followed by what [old] had
    beyond the length of [data]. *)
Lemma untilNull_second_read (old data : string) :
  noNull old = true -> noNull data = true ->
  (String.length old < 256)%nat -> (String.length data < 256)%nat ->
  untilNull (data +:+ GoString.sliceFrom (String.length data)
                        (old +:+ GoString.sliceFrom (String.length old) freshBuf))
  = data +:+ GoString.sliceFrom (String.length data) old.
Proof.
  intros Ho Hd Hlo Hld. rewrite untilNull_append by exact Hd. f_equal.
  destruct (Nat.le_ge_cases (String.length data) (String.length old)) as [Hle | Hge].
  - rewrite sliceFrom_append_le by exact Hle.
    rewrite untilNull_append by (apply noNull_sliceFrom; exact Ho).
    unfold freshBuf. rewrite sliceFrom_zeros. apply append_nil_r.
  - rewrite sliceFrom_append_ge by exact Hge.
    assert (Hnil : GoString.sliceFrom (String.length data) old = "").
    { clear - Hge. revert Hge. generalize (String.length data). intros n.
      revert n. induction old as [| c old IH]; intros n Hn; [destruct n; reflexivity |].
      destruct n as [| n]; [simpl in Hn; lia |]. simpl. apply IH. simpl in Hn. lia. }
    rewrite Hnil.
    assert (Hss : forall a b s, GoString.sliceFrom a (GoString.sliceFrom b s)
                                = GoString.sliceFrom (b + a) s).
    { intros a b. induction b as [| b IHb]; intros s; [reflexivity |].
      destruct s as [| c s]; [destruct a; reflexivity |]. simpl. apply IHb. }
    rewrite Hss. unfold freshBuf. apply sliceFrom_zeros.
Qed.

Lemma Trim_prefixed (w : string) :
  GoString.Trim ("SSH-2.0-" +:+ w) cutset = "SSH-2.0-" +:+ GoString.TrimRight w cutset.
Proof.
  unfold GoString.Trim.
  change ("SSH-2.0-" +:+ w)
    with (String "S" (String "S" (String "H" (String "-" (String "2" (String "."
           (String "0" (String "-" w)))))))).
  cbn [GoString.TrimLeft GoString.inCutset cutset Ascii.eqb Bool.eqb nl tab cr].
  rewrite !TrimRight_keep by reflexivity. reflexivity.
Qed.

Lemma HasPrefix_append (p s : string) : GoString.HasPrefix (p +:+ s) p = true.
Proof.
  induction p as [| c p IH]; [destruct s; reflexivity |].
  change (String c p +:+ s) with (String c (p +:+ s)).
  cbn [GoString.HasPrefix]. rewrite Ascii.eqb_refl. exact IH.
Qed.

Lemma two_events (a b c d : event) : [a; b] = [c; d] -> a = c /\ b = d.
Proof. intros H. injection H as -> ->. split; reflexivity. Qed.

Lemma length_first_read (old : string) :
  (String.length old < 256)%nat ->
  String.length (old +:+ GoString.sliceFrom (String.length old) freshBuf) = 256%nat.
Proof.
  intros H. rewrite length_append, length_sliceFrom.
  change (String.length freshBuf) with 256%nat. lia.
Qed.

Lemma length_second_read (buf data : string) :
  String.length buf = 256%nat -> (String.length data < 256)%nat ->
  String.length (data +:+ GoString.sliceFrom (String.length data) buf) = 256%nat.
Proof. intros Hb H. rewrite length_append, length_sliceFrom. lia. Qed.

(** X14: the read buffer is allocated once and scanned up to its first
    null byte, not up to the number of bytes read.  When the first round read
    [old] and the second round reads the shorter line "SSH-2.0-" followed by
    [v], both without error, null bytes or filling the buffer, the advertised
    version becomes [v] followed by what [old] had beyond the length of the
    new line, trimmed at its end. *)
Theorem stale_bytes_reach_the_banner {S} (env : Env S) (s : S)
    (copyVersionString Version old v : string) (c1 c2 : endpoint) :
  let p := copyVersion true copyVersionString 2 Version in
  only isRead (trace env p s)
  = [Ev (Read c1) (old, None); Ev (Read c2) ("SSH-2.0-" +:+ v, None)] ->
  noNull old = true -> noNull v = true ->
  (String.length old < 256)%nat -> (8 + String.length v < 256)%nat ->
  result env p s
  = GoString.TrimRight (v +:+ GoString.sliceFrom (8 + String.length v) old) cutset.
Proof.
  intros p. subst p. intros Hreads Ho Hv Hlo Hlv.
  assert (Hd : noNull ("SSH-2.0-" +:+ v) = true) by exact Hv.
  assert (Hld : String.length ("SSH-2.0-" +:+ v) = (8 + String.length v)%nat) by reflexivity.
  assert (Hfin : forall tail,
             GoString.sliceFrom 8 (GoString.Trim (("SSH-2.0-" +:+ v) +:+ tail) cutset)
             = GoString.TrimRight (v +:+ tail) cutset /\
             GoString.HasPrefix (GoString.Trim (("SSH-2.0-" +:+ v) +:+ tail) cutset) "SSH-2.0-"
             = true).
  { intros tail. rewrite append_assoc, Trim_prefixed. split; [reflexivity |].
    apply HasPrefix_append. }
  rewrite <- Hld. revert Hreads Hd Hld Hfin.
  generalize ("SSH-2.0-" +:+ v). intros data Hreads Hd Hld Hfin.
  assert (Hld' : (String.length data < 256)%nat) by lia.
  pose proof (length_first_read old Hlo) as Hbuf.
  pose proof (length_second_read _ _ Hbuf Hld') as Hbuf2.
  pose proof (untilNull_second_read old _ Ho Hd Hlo Hld') as Hun.
  revert Hreads.
  unfold copyVersion, copyVersionLoop, copyVersionRound. cbn [negb].
  exec_all;
  cbn [only List.filter ev_op isRead];
  intros Hreads; try discriminate Hreads;
  apply two_events in Hreads as [Hr1 Hr2];
  pose proof (Ev_op_eq _ _ _ _ Hr1) as E1; injection E1 as ->;
  pose proof (Ev_op_eq _ _ _ _ Hr2) as E2; injection E2 as ->;
  apply Ev_inj in Hr1; apply Ev_inj in Hr2;
  try discriminate Hr1; try discriminate Hr2;
  injection Hr1 as -> ->; injection Hr2 as -> ->;
  match goal with
  | H : readInto freshBuf _ = _ |- _ =>
      rewrite readInto_short in H by (change (String.length freshBuf) with 256%nat; lia);
      injection H as <- <-
  end;
  match goal with
  | H : readInto _ _ = _ |- _ =>
      rewrite readInto_short in H by lia; injection H as <- <-
  end;
  unfold GoString.len in *;
  rewrite ?Hbuf2, ?Hbuf in *;
  try match goal with
      | H : isErr None || (Z.of_nat _ =? Z.of_nat 256) = true |- _ =>
          exfalso; cbn [orb isErr] in H; apply Z.eqb_eq in H; lia
      end;
  rewrite ?Hun in *;
  try match goal with
      | H : negb (GoString.HasPrefix (GoString.Trim (data +:+ _) cutset) _) = true |- _ =>
          exfalso; rewrite (proj2 (Hfin _)) in H; discriminate H
      end;
  apply Hfin.
Qed.

Lemma stale_bytes_reach_the_banner_witness :
  result replayEnv (copyVersion true "192.0.2.1:22" 2 "OpenSSH_8.9")
         [longBanner; "SSH-2.0-" +:+ shortBanner]
  = "dropbear" +:+ crlf +:+ "6p1 Ubuntu-3ubuntu13".
Proof.
  apply (stale_bytes_reach_the_banner replayEnv [longBanner; "SSH-2.0-" +:+ shortBanner]
           "192.0.2.1:22" "OpenSSH_8.9" longBanner shortBanner (Conn 7) (Conn 7)).
  - vm_compute. reflexivity.
  - reflexivity.
  - reflexivity.
  - vm_compute. lia.
  - vm_compute. lia.
Defined.

Lemma only_app (f : op -> bool) (a b : list event) : only f (a ++ b) = only f a ++ only f b.
Proof. apply List.filter_app. Qed.

Lemma round_sleeps_and_closes {S} (env : Env S) (s : S) (copyVersionString : string)
    (st : string * string) :
  let tr := trace env (copyVersionRound copyVersionString st) s in
  length (only isSleep tr) = 1%nat /\
  flat_map closedConn tr = flat_map dialedConn tr.
Proof.
  intros tr. subst tr. unfold copyVersionRound. exec_all.
  all: err_cases.
  all: split; reflexivity.
Qed.

(** X15: over any number of rounds and whatever the network does, the
    copier sleeps exactly once per round, and the connections it closes are
    exactly the connections [net.Dial] returned, in the same order, each
    once. *)
Theorem copy_loop_sleeps_and_closes {S} (env : Env S) (copyVersionString : string)
    (rounds : nat) (st : string * string) (s : S) :
  let tr := trace env (copyVersionLoop rounds copyVersionString st) s in
  length (only isSleep tr) = rounds /\
  flat_map closedConn tr = flat_map dialedConn tr.
Proof.
  intros tr. subst tr. revert st s. induction rounds as [| n IH]; intros st s.
  - split; reflexivity.
  - cbn [copyVersionLoop]. change (mbind ?f ?p) with (bind p f).
    rewrite trace_bind, only_app, length_app, !flat_map_app.
    destruct (round_sleeps_and_closes env s copyVersionString st) as [Hs Hc].
    destruct (IH (result env (copyVersionRound copyVersionString st) s)
                 (final env (copyVersionRound copyVersionString st) s)) as [Hs' Hc'].
    rewrite Hs, Hs', Hc, Hc'. split; reflexivity.
Qed.

Lemma TrimRight_idem (s cs : string) :
  GoString.TrimRight (GoString.TrimRight s cs) cs = GoString.TrimRight s cs.
Proof.
  induction s as [| c s IH]; [reflexivity |].
  cbn [GoString.TrimRight].
  destruct (GoString.TrimRight s cs) as [| d t] eqn:Ht.
  - destruct (GoString.inCutset cs c) eqn:Hc; [reflexivity |].
    cbn [GoString.TrimRight]. rewrite Hc. reflexivity.
  - cbn [GoString.TrimRight] in *. rewrite IH. reflexivity.
Qed.

Lemma noNull_TrimLeft (s cs : string) : noNull s = true -> noNull (GoString.TrimLeft s cs) = true.
Proof.
  induction s as [| c s IH]; intros H; [reflexivity |].
  cbn [GoString.TrimLeft]. destruct (GoString.inCutset cs c); [| exact H].
  apply IH. simpl in H. apply andb_true_iff in H. tauto.
Qed.

Lemma noNull_TrimRight (s cs : string) : noNull s = true -> noNull (GoString.TrimRight s cs) = true.
Proof.
  induction s as [| c s IH]; intros H; [reflexivity |].
  simpl in H. apply andb_true_iff in H as [Hc Hs]. specialize (IH Hs).
  cbn [GoString.TrimRight].
  destruct (GoString.TrimRight s cs) as [| d t].
  - destruct (GoString.inCutset cs c); [reflexivity |]. simpl. rewrite Hc. reflexivity.
  - change (noNull (String c (String d t))) with (negb (Ascii.eqb c zero) && noNull (String d t)).
    rewrite Hc, IH. reflexivity.
Qed.

Lemma length_TrimLeft (s cs : string) :
  (String.length (GoString.TrimLeft s cs) <= String.length s)%nat.
Proof.
  induction s as [| c s IH]; [simpl; lia |].
  cbn [GoString.TrimLeft]. destruct (GoString.inCutset cs c); simpl in *; lia.
Qed.

Lemma length_TrimRight (s cs : string) :
  (String.length (GoString.TrimRight s cs) <= String.length s)%nat.
Proof.
  induction s as [| c s IH]; [simpl; lia |].
  cbn [GoString.TrimRight].
  destruct (GoString.TrimRight s cs) as [| d t].
  - destruct (GoString.inCutset cs c); simpl; lia.
  - simpl in *. lia.
Qed.

Lemma HasPrefix_split (s p : string) :
  GoString.HasPrefix s p = true -> s = p +:+ GoString.sliceFrom (String.length p) s.
Proof.
  revert s. induction p as [| c p IH]; intros s H; [reflexivity |].
  destruct s as [| d s]; [discriminate H |].
  cbn [GoString.HasPrefix] in H.
  destruct (Ascii.eqb_spec d c) as [-> | _]; [| discriminate H].
  change (String c s = String c (p +:+ GoString.sliceFrom (String.length p) s)).
  f_equal. apply IH. exact H.
Qed.

(** What is left of a trimmed line after its prefix ["SSH-2.0-"]. *)
Lemma copiedShape_after_prefix (x : string) :
  noNull x = true -> (String.length x <= 256)%nat ->
  GoString.HasPrefix (GoString.Trim x cutset) "SSH-2.0-" = true ->
  copiedShape (GoString.sliceFrom 8 (GoString.Trim x cutset)).
Proof.
  intros Hn Hl Hp. unfold copiedShape.
  assert (Ht : GoString.TrimRight (GoString.Trim x cutset) cutset = GoString.Trim x cutset)
    by apply TrimRight_idem.
  assert (Hnt : noNull (GoString.Trim x cutset) = true)
    by (apply noNull_TrimRight, noNull_TrimLeft; exact Hn).
  assert (Hlt : (String.length (GoString.Trim x cutset) <= 256)%nat).
  { unfold GoString.Trim.
    pose proof (length_TrimRight (GoString.TrimLeft x cutset) cutset).
    pose proof (length_TrimLeft x cutset). lia. }
  revert Ht Hnt Hlt Hp. generalize (GoString.Trim x cutset). intros t Ht Hnt Hlt Hp.
  split; [apply noNull_sliceFrom; exact Hnt |].
  split; [unfold GoString.len; rewrite length_sliceFrom; lia |].
  apply HasPrefix_split in Hp. change (String.length "SSH-2.0-") with 8%nat in Hp.
  revert Hp Ht. generalize (GoString.sliceFrom 8 t). intros w -> Ht.
  change ("SSH-2.0-" +:+ w)
    with (String "S" (String "S" (String "H" (String "-" (String "2" (String "."
           (String "0" (String "-" w)))))))) in Ht.
  rewrite !TrimRight_keep in Ht by reflexivity. congruence.
Qed.

Lemma round_keeps_shape {S} (env : Env S) (s : S) (copyVersionString : string)
    (st : string * string) :
  String.length (fst st) = 256%nat ->
  let st' := result env (copyVersionRound copyVersionString st) s in
  String.length (fst st') = 256%nat /\ (snd st' = snd st \/ copiedShape (snd st')).
Proof.
  destruct st as [buf Version]. cbn [fst snd]. intros Hbuf. cbv zeta.
  unfold copyVersionRound.
  exec_all;
  cbn [fst snd];
  try match goal with
      | H : readInto ?b ?d = (_, ?b') |- _ =>
          let L := fresh "L" in
          pose proof (length_readInto b d) as L; rewrite H in L; cbn [snd] in L
      end;
  (split; [congruence |]); try (left; reflexivity).
  all: right; apply copiedShape_after_prefix.
  - apply noNull_untilNull.
  - match goal with |- (String.length (untilNull ?b) <= _)%nat =>
      pose proof (length_untilNull b) end. lia.
  - match goal with H : negb _ = false |- _ => apply negb_false_iff in H; exact H end.
Qed.

(** X16: after any number of rounds in any environment, the advertised
    version is the configured one, or a string of at most 248 bytes without
    a null byte that does not end with a line feed, a tab or a carriage
    return. *)
Theorem banner_is_configured_or_well_formed {S} (env : Env S) (s : S)
    (shouldCopyVersionString : bool) (copyVersionString : string)
    (rounds : nat) (Version : string) :
  let v := result env (copyVersion shouldCopyVersionString copyVersionString rounds Version) s in
  v = Version \/ copiedShape v.
Proof.
  intros v. subst v. unfold copyVersion.
  destruct shouldCopyVersionString; cbn [negb]; [| left; reflexivity].
  change (mbind ?f ?p) with (bind p f). rewrite result_bind, result_Ret.
  assert (H : forall n st s0,
             String.length (fst st) = 256%nat ->
             (snd st = Version \/ copiedShape (snd st)) ->
             let st' := result env (copyVersionLoop n copyVersionString st) s0 in
             String.length (fst st') = 256%nat /\ (snd st' = Version \/ copiedShape (snd st'))).
  { induction n as [| n IH]; intros st s0 Hl HP; [split; assumption |].
    cbn [copyVersionLoop]. change (mbind ?f ?p) with (bind p f). rewrite result_bind.
    destruct (round_keeps_shape env s0 copyVersionString st Hl) as [Hl' HP'].
    apply IH; [exact Hl' |].
    destruct HP' as [-> | HP']; [exact HP | right; exact HP']. }
  apply (H rounds (freshBuf, Version) s); [reflexivity | left; reflexivity].
Qed.

(** ** Host key files *)

Example listKeys_etcSsh :
  listKeys slashJoin "/etc/ssh" (inr etcSsh)
  = (["/etc/ssh/old_key/ssh_host_rsa_key"; "/etc/ssh/ssh_host_ed25519_key"], None).
Proof. vm_compute. reflexivity. Qed.

Scheme file_entries_ind := Induction for filepath.file Sort Prop
  with entries_file_ind := Induction for filepath.entries Sort Prop.

Section ListKeys.

Variable Join : string -> string -> string.

Lemma walk_Dir path es (st : list string) :
  filepath.walk Join listKeysFn path (filepath.Dir es) st
  = filepath.walkNames Join listKeysFn path es st.
Proof. reflexivity. Qed.

Lemma walkNames_LstatFails path name e rest (st : list string) :
  filepath.walkNames Join listKeysFn path (filepath.LstatFails name e rest) st
  = (st, Some (filepath.OsError e)).
Proof. reflexivity. Qed.

Lemma walkNames_Entry path name f rest (st : list string) :
  filepath.walkNames Join listKeysFn path (filepath.Entry name f rest) st
  = let '(st, err) := filepath.walk Join listKeysFn (Join path name) f st in
    match err with
    | Some err =>
        if negb (filepath.IsDir f) || negb (filepath.isSkipDir err) then (st, Some err)
        else filepath.walkNames Join listKeysFn path rest st
    | None => filepath.walkNames Join listKeysFn path rest st
    end.
Proof. reflexivity. Qed.

Definition walked (path : string) (f : filepath.file) (result : list string) : Prop :=
  let out := filepath.walk Join listKeysFn path f result in
  exists seen rest,
    fst out = result ++ seen /\
    List.filter isKey (filesOf Join path f) = seen ++ rest /\
    match snd out with
    | None => rest = [] /\ readable f = true
    | Some err => filepath.isSkipDir err = false /\ err <> filepath.SkipAll /\ readable f = false
    end.

Definition walkedNames (path : string) (es : filepath.entries) (result : list string) : Prop :=
  let out := filepath.walkNames Join listKeysFn path es result in
  exists seen rest,
    fst out = result ++ seen /\
    List.filter isKey (filesIn Join path es) = seen ++ rest /\
    match snd out with
    | None => rest = [] /\ readableAll es = true
    | Some err => filepath.isSkipDir err = false /\ err <> filepath.SkipAll /\ readableAll es = false
    end.

Lemma walk_lists_keys (f : filepath.file) : forall path result, walked path f result.
Proof.
  induction f using file_entries_ind
    with (P0 := fun es => forall path result, walkedNames path es result);
    intros path result; unfold walked, walkedNames in *.
  - (* a file *)
    cbn [filepath.walk listKeysFn filesOf List.filter negb andb readable]. unfold isKey.
    destruct (Strings.HasSuffix path "_key").
    + exists [path], []. repeat split.
    + exists [], []. cbn [fst snd]. rewrite app_nil_r. repeat split.
  - (* a directory that cannot be listed *)
    cbn [filepath.walk listKeysFn filesOf List.filter readable].
    exists [], []. cbn [fst snd]. rewrite app_nil_r. repeat split. discriminate.
  - (* a directory *)
    rewrite walk_Dir. cbn [filesOf readable]. apply IHf.
  - exists [], []. cbn. rewrite app_nil_r. repeat split.
  - (* a name whose lstat fails *)
    rewrite walkNames_LstatFails. cbn [filesIn readableAll].
    destruct (IHf path result) as (seen & more & H1 & H2 & H3).
    exists [], (seen ++ more). cbn [fst snd]. rewrite app_nil_r.
    repeat split; [exact H2 | discriminate].
  - (* a name that is a file or a directory *)
    rewrite walkNames_Entry. cbn [filesIn readableAll].
    destruct (IHf (Join path name) result) as (seen & more & H1 & H2 & H3).
    destruct (filepath.walk Join listKeysFn (Join path name) f result) as [st err].
    cbn [fst snd] in *. rewrite List.filter_app, H2.
    destruct err as [err |].
    + destruct H3 as (Hs & Ha & Hr). rewrite Hs, Hr. cbn [negb orb andb].
      rewrite orb_true_r. cbn [fst snd].
      exists seen, (more ++ List.filter isKey (filesIn Join path rest)).
      rewrite <- app_assoc. repeat split; assumption.
    + destruct H3 as (-> & Hr). rewrite Hr, app_nil_r. cbn [andb].
      destruct (IHf0 path st) as (seen' & more' & H1' & H2' & H3').
      exists (seen ++ seen'), more'. subst st.
      split; [rewrite H1', app_assoc; reflexivity |].
      split; [rewrite H2', app_assoc; reflexivity | exact H3'].
Qed.

End ListKeys.

